(** * supercat: the revision-tracked comment store

    A shallow embedding of the database layer of the annotation backend
    (the module that exports [setComment], [getLogs], [getStats],
    [insertBatchIntoStrings], [setCommentForString],
    [changeActivationStatus]) and of the two client views that the
    properties below talk about: the snapshot differ [compareRecords] of
    the log view and the button row of the user view.

    The relational store is modelled as a value of type [tables]; a
    database session adds an optional open transaction holding the
    changes it has not yet committed.  Every statement the code sends is a constructor of [stmt], its
    meaning is [exec].  Asynchronous functions become computations in a
    state-and-exception monad over [world]: an awaited query either
    yields its rows or throws, and which queries break (lost connection,
    deadlock, full disk) is decided by the fault schedule carried by the
    world, over which all theorems quantify.  The functions are written
    over the operations of the connection pool, of which there are two
    models: a pool of one client ([world]) and a pool of several
    ([pool]). *)

From Stdlib Require Import List ZArith Bool Ascii String Lia.
From Stdlib Require Import DecimalString.
From Stdlib Require Import Orders Sorting.Sorted Sorting.Permutation Sorting.Mergesort.
Import ListNotations.

Local Open Scope string_scope.
Local Open Scope list_scope.
Local Open Scope Z_scope.

Set Implicit Arguments.

(** ** JavaScript values *)

(** A property of a JavaScript object read by the code: it can be
    missing ([undefined]), [null], or hold a value. *)
Inductive field (A : Type) : Type :=
| Absent
| Null
| Val (a : A).
Arguments Absent {A}.
Arguments Null {A}.

(** JSON documents (the [entry] of a comment). *)
#[warnings="-register-all"]
Inductive json : Type :=
| JNull
| JBool (b : bool)
| JNum (n : Z)
| JStr (s : string)
| JArr (xs : list json)
| JObj (kvs : list (string * json)).

Definition jsobject := list (string * json).

Module Js.

(** [!!x] for a number-valued property: [undefined], [null] and [0] are
    falsy. *)
Definition truthy_num (x : field Z) : bool :=
  match x with
  | Val n => negb (n =? 0)
  | _ => false
  end.

(** [!!x] for a string-valued property: [undefined], [null] and the
    empty string are falsy. *)
Definition truthy_str (x : field string) : bool :=
  match x with
  | Val EmptyString => false
  | Val _ => true
  | _ => false
  end.

(** [Number(x)]: [None] stands for [NaN]; [Number(null)] is [0]. *)
Definition Number (x : field Z) : option Z :=
  match x with
  | Absent => None
  | Null => Some 0
  | Val n => Some n
  end.

(** [x || d] on the result of [Number]: [NaN] and [0] give [d]. *)
Definition or_default (x : option Z) (d : Z) : Z :=
  match x with
  | Some n => if n =? 0 then d else n
  | None => d
  end.

(** [String(n)] for an integer. *)
Definition String_of (n : Z) : string :=
  NilZero.string_of_int (Z.to_int n).

(** Strings are held as the bytes of their UTF-8 encoding.  The white
    space and the line terminators of the language, each as its bytes:
    U+0009 to U+000D, U+0020, U+00A0, U+1680, U+2000 to U+200A, U+2028,
    U+2029, U+202F, U+205F, U+3000 and U+FEFF. *)
Definition blanks : list (list nat) :=
  [[9]; [10]; [11]; [12]; [13]; [32]; [194; 160]; [225; 154; 128];
   [226; 128; 128]; [226; 128; 129]; [226; 128; 130]; [226; 128; 131];
   [226; 128; 132]; [226; 128; 133]; [226; 128; 134]; [226; 128; 135];
   [226; 128; 136]; [226; 128; 137]; [226; 128; 138];
   [226; 128; 168]; [226; 128; 169]; [226; 128; 175]; [226; 129; 159];
   [227; 128; 128]; [239; 187; 191]]%nat.

Fixpoint starts_with (b : list nat) (l : list ascii) : bool :=
  match b, l with
  | [], _ => true
  | n :: b', c :: l' => Nat.eqb (nat_of_ascii c) n && starts_with b' l'
  | _ :: _, [] => false
  end.

(** Drop from the start of [l] the blanks it starts with, [bs] being
    the blanks; [fuel] bounds their number. *)
Fixpoint drop_blanks (bs : list (list nat)) (fuel : nat) (l : list ascii) : list ascii :=
  match fuel with
  | O => l
  | S f =>
      match find (fun b => starts_with b l) bs with
      | Some b => drop_blanks bs f (skipn (List.length b) l)
      | None => l
      end
  end.

(** [s.trim()]: the blanks at the end are those at the start of the
    reversed bytes, each read backwards. *)
Definition trim (s : string) : string :=
  let l := list_ascii_of_string s in
  let n := List.length l in
  string_of_list_ascii
    (rev (drop_blanks (map (@rev nat) blanks) n (rev (drop_blanks blanks n l)))).

Definition quote : string := String (ascii_of_nat 34) EmptyString.
Definition backslash : string := String (ascii_of_nat 92) EmptyString.

Fixpoint escape (s : string) : string :=
  match s with
  | EmptyString => EmptyString
  | String c r =>
      if Nat.eqb (nat_of_ascii c) 34 then (backslash ++ quote ++ escape r)%string
      else if Nat.eqb (nat_of_ascii c) 92 then (backslash ++ backslash ++ escape r)%string
      else String c (escape r)
  end.

Definition quoted (s : string) : string := (quote ++ escape s ++ quote)%string.

(** [JSON.stringify(v)] for a JSON document: no white space, members in
    the order of the object. *)
Fixpoint stringify (v : json) : string :=
  match v with
  | JNull => "null"
  | JBool true => "true"
  | JBool false => "false"
  | JNum n => String_of n
  | JStr s => quoted s
  | JArr xs =>
      ("[" ++ (fix items (l : list json) : string :=
                 match l with
                 | [] => EmptyString
                 | x :: [] => stringify x
                 | x :: r => stringify x ++ "," ++ items r
                 end) xs ++ "]")%string
  | JObj kvs =>
      ("{" ++ (fix members (l : list (string * json)) : string :=
                 match l with
                 | [] => EmptyString
                 | (k, x) :: [] => quoted k ++ ":" ++ stringify x
                 | (k, x) :: r => quoted k ++ ":" ++ stringify x ++ "," ++ members r
                 end) kvs ++ "}")%string
  end.

(** [JSON.stringify] of an array of arrays of integers. *)
Definition stringify_issues (iss : list (list Z)) : string :=
  stringify (JArr (map (fun row => JArr (map JNum row)) iss)).

(** [entry?.[x]]: the member of an object, [None] for [undefined]. *)
Fixpoint member (x : string) (o : jsobject) : option json :=
  match o with
  | [] => None
  | (k, v) :: r => if String.eqb k x then Some v else member x r
  end.

(** [a !== b] on string-or-[undefined] values. *)
Definition differs (a b : option string) : bool :=
  match a, b with
  | None, None => false
  | Some x, Some y => negb (String.eqb x y)
  | _, _ => true
  end.

(** [a !== b] on properties holding primitive values. *)
Definition field_differs {A : Type} (eqb : A -> A -> bool) (a b : field A) : bool :=
  match a, b with
  | Absent, Absent => false
  | Null, Null => false
  | Val x, Val y => negb (eqb x y)
  | _, _ => true
  end.

End Js.

(** ** The persisted schema

    One record per table of [databaseScheme], with the columns the
    operations below read or write.  A nullable column is an [option].
    [texts] only serves as the target of foreign keys and is kept as the
    list of its ids. *)

Record user : Type := {
  u_id : Z;
  u_username : string;
  u_privs : Z;
  u_activated : bool
}.

(** [comments.text_id] is written by [setComment] only, always from a
    number, and is kept as a plain integer.  [c_priority] is the number
    the [REAL] column holds.  The priorities modelled are integers; one
    of up to six digits is held, and is given back to the client, as it
    is.  A longer one is held rounded ([Sql.float4]); what the client
    reads of it depends on the output precision of the store and is not
    modelled. *)
Record comment : Type := {
  c_id : Z;
  c_text_id : Z;
  c_title : string;
  c_published : option bool;
  c_priority : option Z;
  c_tags : list Z;
  c_issues : list (list Z);
  c_entry : option jsobject
}.

(** The JSON snapshot of a comment kept in [logs.data0] and
    [logs.data1]: a comment object without its [id].  A snapshot written
    from request parameters has whichever properties the request had. *)
Record snapshot : Type := {
  s_text_id : field Z;
  s_title : field string;
  s_published : field bool;
  s_priority : field Z;
  s_tags : field (list Z);
  s_issues : field (list (list Z));
  s_entry : field jsobject
}.

Record log : Type := {
  l_id : Z;
  l_created : Z;
  l_user_id : Z;
  l_data0 : snapshot;
  l_data1 : snapshot;
  l_table_name : string;
  l_record_id : Z
}.

Record token : Type := {
  t_id : Z;
  t_token : string;
  t_meta : option string;
  t_lang : option string
}.

(** [strings.comments] defaults to the empty array and every writer
    stores an array, so it is a list. *)
Record string_row : Type := {
  st_id : Z;
  st_text_id : option Z;
  st_p : option Z;
  st_s : option Z;
  st_line : option Z;
  st_form : option string;
  st_repr : option string;
  st_fmt : list string;
  st_token_id : option Z;
  st_unit_id : option Z;
  st_comments : list Z
}.

Record tables : Type := {
  texts : list Z;
  users : list user;
  comments : list comment;
  logs : list log;
  tokens : list token;
  strings : list string_row
}.

Definition set_users (f : list user -> list user) (d : tables) : tables :=
  {| texts := texts d; users := f (users d); comments := comments d;
     logs := logs d; tokens := tokens d; strings := strings d |}.

Definition set_comments (f : list comment -> list comment) (d : tables) : tables :=
  {| texts := texts d; users := users d; comments := f (comments d);
     logs := logs d; tokens := tokens d; strings := strings d |}.

Definition set_logs (f : list log -> list log) (d : tables) : tables :=
  {| texts := texts d; users := users d; comments := comments d;
     logs := f (logs d); tokens := tokens d; strings := strings d |}.

Definition set_tokens (f : list token -> list token) (d : tables) : tables :=
  {| texts := texts d; users := users d; comments := comments d;
     logs := logs d; tokens := f (tokens d); strings := strings d |}.

Definition set_strings (f : list string_row -> list string_row) (d : tables) : tables :=
  {| texts := texts d; users := users d; comments := comments d;
     logs := logs d; tokens := tokens d; strings := f (strings d) |}.

(** The [SERIAL] sequences: the next id of each table.  Sequences are
    not transactional, a rollback does not give ids back. *)
Record sequences : Type := {
  comments_seq : Z;
  logs_seq : Z;
  tokens_seq : Z;
  strings_seq : Z
}.

(** ** Statements *)

(** The seven values bound to the comment [INSERT] and [UPDATE].
    [v_text_id] is [Number(params.text_id)], [None] for [NaN]. *)
Record comment_values : Type := {
  v_text_id : option Z;
  v_title : string;
  v_published : option bool;
  v_entry : option jsobject;
  v_priority : option Z;
  v_tags : list Z;
  v_issues : list (list Z)
}.

(** The statements sent by the modelled functions, with their bound
    parameters.  [CONNECT] is the checkout of a client from the pool. *)
Inductive stmt : Type :=
| CONNECT
| BEGIN
| COMMIT
| ROLLBACK
| SelectComment (id : option Z)
| InsertComment (v : comment_values)
| UpdateComment (v : comment_values) (id : option Z)
| InsertLog (user_id : Z) (table_name : string) (record_id : Z) (data0 data1 : snapshot)
| InsertToken (tok : option string) (lang : option string) (meta : option string)
| InsertString (text_id p s : option Z) (form repr : option string)
| LinkTokens (lang : option string)
| ArrayRemove (cid : Z) (ids : list Z)
| ArrayAppend (cid : Z) (ids : list Z)
| SetActivated (uid : Z) (status : bool)
| SelectLogs (record : option Z) (text offset limit : Z)
| CountLogs (record : option Z) (text : Z)
| CountComments (text : Z)
| SelectChanges (text : Z)
| SelectWords (text : Z)
| SelectTags (text : Z)
| SelectEtc (text ready total : Z).

(** What a statement returns.  The rows of the per-user, per-word,
    per-tag and completion-estimate aggregates of [getStats] are not
    modelled ([Opaque]): only whether those statements succeed matters
    here. *)
Inductive rows : Type :=
| NoRows
| Ids (ids : list Z)
| CommentRows (cs : list comment)
| LogRows (ls : list (log * bool))
| Count (n : Z)
| Counts (total ready draft : Z)
| Opaque.

(** ** Sessions *)

(** An open transaction: the changes it has made so far, to be applied
    to the committed tables, and the time it started. *)
Record transaction : Type := {
  pending : tables -> tables;
  started : Z
}.

(** The state of the store as one session sees it.  [committed] is what
    every other session observes; [txn] is the open transaction, if any;
    [now] is the clock; [trace] lists the statements sent so far, each
    with whether it succeeded; [faults] tells for the n-th statement sent
    whether the store breaks on it. *)
Record world : Type := {
  committed : tables;
  txn : option transaction;
  seqs : sequences;
  now : Z;
  trace : list (stmt * bool);
  faults : nat -> bool
}.

Definition set_committed (d : tables) (w : world) : world :=
  {| committed := d; txn := txn w; seqs := seqs w; now := now w;
     trace := trace w; faults := faults w |}.

Definition set_txn (t : option transaction) (w : world) : world :=
  {| committed := committed w; txn := t; seqs := seqs w; now := now w;
     trace := trace w; faults := faults w |}.

Definition set_seqs (q : sequences) (w : world) : world :=
  {| committed := committed w; txn := txn w; seqs := q; now := now w;
     trace := trace w; faults := faults w |}.

Definition tick (w : world) : world :=
  {| committed := committed w; txn := txn w; seqs := seqs w; now := now w + 1;
     trace := trace w; faults := faults w |}.

Definition record_stmt (s : stmt) (ok : bool) (w : world) : world :=
  {| committed := committed w; txn := txn w; seqs := seqs w; now := now w;
     trace := trace w ++ [(s, ok)]; faults := faults w |}.

(** The tables a statement of this session reads: what is committed,
    with the changes of its own open transaction (the default isolation
    of the store, read committed). *)
Definition view (w : world) : tables :=
  match txn w with
  | Some t => pending t (committed w)
  | None => committed w
  end.

(** A write joins the changes of the open transaction, or goes straight
    to the committed tables when no transaction is open. *)
Definition write (f : tables -> tables) (w : world) : world :=
  match txn w with
  | Some t => set_txn (Some {| pending := fun d => f (pending t d);
                               started := started t |}) w
  | None => set_committed (f (committed w)) w
  end.

(** [CURRENT_TIMESTAMP]: the start of the transaction. *)
Definition current_timestamp (w : world) : Z :=
  match txn w with
  | Some t => started t
  | None => now w
  end.

(** ** The meaning of statements *)

(** [ORDER BY logs.created DESC, logs.id DESC]: [leb a b] holds when [a]
    may come before [b]. *)
Module LogOrder <: TotalLeBool.
Definition t := log.
Definition leb (a b : log) : bool :=
  (l_created b <? l_created a)
  || ((l_created a =? l_created b) && (l_id b <=? l_id a)).
Lemma leb_total : forall a b, leb a b = true \/ leb b a = true.
Proof.
  intros a b. unfold leb.
  destruct (Z.ltb_spec (l_created b) (l_created a)); [now left|].
  destruct (Z.ltb_spec (l_created a) (l_created b)); [now right|].
  assert (E : l_created a = l_created b) by lia.
  rewrite E, Z.eqb_refl. simpl.
  destruct (Z.leb_spec (l_id b) (l_id a)); [now left|].
  right. apply Z.leb_le. lia.
Qed.
End LogOrder.

Module LogSort := Sort LogOrder.

Module Sql.

(** [a = b] in a [WHERE] clause or a uniqueness check on nullable
    text: a [NULL] on either side never matches. *)
Definition text_eq (a b : option string) : bool :=
  match a, b with
  | Some x, Some y => String.eqb x y
  | _, _ => false
  end.

(** [id = ANY(ids)]. *)
Definition any (id : Z) (ids : list Z) : bool := existsb (Z.eqb id) ids.

(** A foreign key: [NULL] passes, a value must be a key of the
    referenced table. *)
Definition references (k : option Z) (keys : list Z) : bool :=
  match k with
  | Some i => any i keys
  | None => true
  end.

(** An [INTEGER[]] literal with nested rows is accepted only when all
    rows have the same length. *)
Definition rectangular (iss : list (list Z)) : bool :=
  match iss with
  | [] => true
  | row :: more => forallb (fun r => Nat.eqb (List.length r) (List.length row)) more
  end.

(** [array_remove(a, x)] and [array_append(a, x)]. *)
Definition array_remove (a : list Z) (x : Z) : list Z :=
  filter (fun y => negb (y =? x)) a.
Definition array_append (a : list Z) (x : Z) : list Z := a ++ [x].

(** [data->>'text_id' = $n::text]. *)
Definition text_id_is (text : Z) (d : snapshot) : bool :=
  match s_text_id d with
  | Val i => i =? text
  | _ => false
  end.

(** The [WHERE] clause shared by the two queries of [getLogs]:
    [condition (data0->>'text_id' = t or data1->>'text_id' = t)], where
    [condition] is [logs.record_id = c AND] or empty. *)
Definition log_where (record : option Z) (text : Z) (l : log) : bool :=
  match record with
  | Some c => l_record_id l =? c
  | None => true
  end
  && (text_id_is text (l_data0 l) || text_id_is text (l_data1 l)).

(** The value a [REAL] column holds for the integer [n]: the nearest
    number with a significand of 24 bits, the even one when [n] is half
    way between two.  Integers below 2^24 in absolute value are kept. *)
Definition float4 (n : Z) : Z :=
  let a := Z.abs n in
  let k := Z.log2 a - 23 in
  if k <=? 0 then n
  else
    let q := Z.shiftr a k in
    let r := Z.land a (Z.ones k) in
    let half := Z.shiftl 1 (k - 1) in
    let q' := if (half <? r) || ((r =? half) && Z.odd q) then q + 1 else q in
    Z.sgn n * Z.shiftl q' k.

(** A number is accepted for a [REAL] column when it does not round
    beyond the largest one, (2^24 - 1) * 2^104. *)
Definition real_range (p : option Z) : bool :=
  match p with
  | Some n => Z.abs (float4 n) <? 2 ^ 128
  | None => true
  end.

(** An array literal whose rows are all empty, such as [{{}}], is read
    as the empty array. *)
Definition array2 (iss : list (list Z)) : list (list Z) :=
  if forallb (fun r => Nat.eqb (List.length r) 0) iss then [] else iss.

(** The row stored for the values [v]. *)
Definition comment_of (id text : Z) (v : comment_values) : comment :=
  {| c_id := id; c_text_id := text; c_title := v_title v;
     c_published := v_published v; c_priority := option_map float4 (v_priority v);
     c_tags := v_tags v; c_issues := array2 (v_issues v); c_entry := v_entry v |}.

(** A number is accepted for an [INTEGER] column when it is in the
    range of 32 bits. *)
Definition int4 (n : Z) : bool := (- 2 ^ 31 <=? n) && (n <? 2 ^ 31).

(** A text is accepted when it has no zero byte. *)
Definition text_ok (s : string) : bool :=
  negb (existsb (fun c => Nat.eqb (nat_of_ascii c) 0) (list_ascii_of_string s)).

(** The values of a comment are well formed: the text id is an integer
    ([NaN] is not), the title has no zero byte, the priority is in the
    range of [REAL], the tags and the issues are integers and the rows of
    the issues literal have one length.  A statement whose values are not
    well formed is refused before it runs. *)
Definition well_formed (v : comment_values) : bool :=
  match v_text_id v with
  | Some t =>
      int4 t && text_ok (v_title v) && real_range (v_priority v)
      && forallb int4 (v_tags v) && forallb (forallb int4) (v_issues v)
      && rectangular (v_issues v)
  | None => false
  end.

(** The checks the store makes on the values of a comment: they must be
    well formed and the text id must reference a text.  Returns the text
    id. *)
Definition check_comment (v : comment_values) (d : tables) : option Z :=
  match v_text_id v with
  | Some t => if well_formed v && any t (texts d) then Some t else None
  | None => None
  end.

(** A primary key: the new id must not be the id of a row. *)
Definition fresh (id : Z) (ids : list Z) : bool := negb (any id ids).

Definition set_string_comments (f : list Z -> list Z) (r : string_row) : string_row :=
  {| st_id := st_id r; st_text_id := st_text_id r; st_p := st_p r; st_s := st_s r;
     st_line := st_line r; st_form := st_form r; st_repr := st_repr r;
     st_fmt := st_fmt r; st_token_id := st_token_id r; st_unit_id := st_unit_id r;
     st_comments := f (st_comments r) |}.

Definition set_string_token (i : Z) (r : string_row) : string_row :=
  {| st_id := st_id r; st_text_id := st_text_id r; st_p := st_p r; st_s := st_s r;
     st_line := st_line r; st_form := st_form r; st_repr := st_repr r;
     st_fmt := st_fmt r; st_token_id := Some i; st_unit_id := st_unit_id r;
     st_comments := st_comments r |}.

(** [UPDATE strings SET token_id = tokens.id FROM tokens
     WHERE tokens.lang = $1 AND tokens.token = strings.repr]. *)
Definition link_token (lang : option string) (toks : list token) (r : string_row)
  : string_row :=
  match find (fun t => text_eq (t_lang t) lang && text_eq (Some (t_token t)) (st_repr r))
             toks with
  | Some t => set_string_token (t_id t) r
  | None => r
  end.

Definition update_comments_where (ids : list Z) (f : list Z -> list Z)
  (rs : list string_row) : list string_row :=
  map (fun r => if any (st_id r) ids then set_string_comments f r else r) rs.

Definition set_activated (uid : Z) (status : bool) (u : user) : user :=
  if u_id u =? uid
  then {| u_id := u_id u; u_username := u_username u; u_privs := u_privs u;
          u_activated := status |}
  else u.

Definition count {A : Type} (p : A -> bool) (l : list A) : Z :=
  Z.of_nat (List.length (filter p l)).

Definition is_true_sql (b : option bool) : bool :=
  match b with Some true => true | _ => false end.

(** [published != True]: unknown, hence not counted, on [NULL]. *)
Definition is_not_true_sql (b : option bool) : bool :=
  match b with Some false => true | _ => false end.

End Sql.

Definition bump_comments (q : sequences) : sequences :=
  {| comments_seq := comments_seq q + 1; logs_seq := logs_seq q;
     tokens_seq := tokens_seq q; strings_seq := strings_seq q |}.
Definition bump_logs (q : sequences) : sequences :=
  {| comments_seq := comments_seq q; logs_seq := logs_seq q + 1;
     tokens_seq := tokens_seq q; strings_seq := strings_seq q |}.
Definition bump_tokens (q : sequences) : sequences :=
  {| comments_seq := comments_seq q; logs_seq := logs_seq q;
     tokens_seq := tokens_seq q + 1; strings_seq := strings_seq q |}.
Definition bump_strings (q : sequences) : sequences :=
  {| comments_seq := comments_seq q; logs_seq := logs_seq q;
     tokens_seq := tokens_seq q; strings_seq := strings_seq q + 1 |}.

(** [exec s w] runs statement [s] in the session: [None] when the store
    refuses it (a constraint is violated or a value is malformed);
    otherwise the rows and the session after it.  An [INSERT] takes the
    id of its row from the sequence of the table; the id must be new. *)
Definition exec (s : stmt) (w : world) : option (rows * world) :=
  let d := view w in
  match s with
  | CONNECT => Some (NoRows, w)
  | BEGIN =>
      Some (NoRows,
            match txn w with
            | None => set_txn (Some {| pending := fun d => d; started := now w |}) w
            | Some _ => w
            end)
  | COMMIT =>
      Some (NoRows,
            match txn w with
            | Some t => set_txn None (set_committed (pending t (committed w)) w)
            | None => w
            end)
  | ROLLBACK => Some (NoRows, set_txn None w)
  | SelectComment None => None
  | SelectComment (Some i) =>
      Some (CommentRows (filter (fun c => c_id c =? i) (comments d)), w)
  | InsertComment v =>
      match Sql.check_comment v d with
      | Some t =>
          let id := comments_seq (seqs w) in
          if Sql.fresh id (map c_id (comments d)) then
            Some (Ids [id],
                  write (set_comments (fun cs => cs ++ [Sql.comment_of id t v]))
                        (set_seqs (bump_comments (seqs w)) w))
          else None
      | None => None
      end
  | UpdateComment v None => None
  | UpdateComment v (Some i) =>
      match Sql.check_comment v d with
      | Some t =>
          Some (Ids (map c_id (filter (fun c => c_id c =? i) (comments d))),
                write (set_comments
                         (map (fun c => if c_id c =? i then Sql.comment_of (c_id c) t v else c)))
                      w)
      | None => None
      end
  | InsertLog uid table record d0 d1 =>
      let id := logs_seq (seqs w) in
      if Sql.any uid (map u_id (users d)) && Sql.fresh id (map l_id (logs d)) then
        let row := {| l_id := id; l_created := current_timestamp w; l_user_id := uid;
                      l_data0 := d0; l_data1 := d1; l_table_name := table;
                      l_record_id := record |} in
        Some (Ids [id],
              write (set_logs (fun ls => ls ++ [row])) (set_seqs (bump_logs (seqs w)) w))
      else None
  | InsertToken None _ _ => None
  | InsertToken (Some tok) lang meta =>
      let id := tokens_seq (seqs w) in
      let w1 := set_seqs (bump_tokens (seqs w)) w in
      if existsb (fun t => String.eqb (t_token t) tok && Sql.text_eq (t_lang t) lang)
                 (tokens d)
      then Some (NoRows, w1)
      else if Sql.fresh id (map t_id (tokens d)) then
        Some (NoRows,
              write (set_tokens (fun ts => ts ++ [{| t_id := id; t_token := tok;
                                                    t_meta := meta; t_lang := lang |}]))
                    w1)
      else None
  | InsertString text p s form repr =>
      let id := strings_seq (seqs w) in
      if Sql.references text (texts d) && Sql.fresh id (map st_id (strings d)) then
        let row := {| st_id := id; st_text_id := text; st_p := p; st_s := s;
                      st_line := None; st_form := form; st_repr := repr; st_fmt := [];
                      st_token_id := None; st_unit_id := None; st_comments := [] |} in
        Some (NoRows,
              write (set_strings (fun rs => rs ++ [row]))
                    (set_seqs (bump_strings (seqs w)) w))
      else None
  | LinkTokens lang =>
      Some (NoRows, write (set_strings (map (Sql.link_token lang (tokens d)))) w)
  | ArrayRemove cid ids =>
      Some (Ids (filter (fun i => Sql.any i ids) (map st_id (strings d))),
            write (set_strings
                     (Sql.update_comments_where ids (fun a => Sql.array_remove a cid)))
                  w)
  | ArrayAppend cid ids =>
      Some (Ids (filter (fun i => Sql.any i ids) (map st_id (strings d))),
            write (set_strings
                     (Sql.update_comments_where ids (fun a => Sql.array_append a cid)))
                  w)
  | SetActivated uid status =>
      Some (Ids (filter (Z.eqb uid) (map u_id (users d))),
            write (set_users (map (Sql.set_activated uid status))) w)
  | SelectLogs record text offset limit =>
      if (offset <? 0) || (limit <? 0) then None
      else
        let page := firstn (Z.to_nat limit)
                      (skipn (Z.to_nat offset)
                         (LogSort.sort (filter (Sql.log_where record text) (logs d)))) in
        Some (LogRows
                (map (fun l => (l, Sql.any (l_record_id l) (map c_id (comments d)))) page),
              w)
  | CountLogs record text =>
      Some (Count (Sql.count (Sql.log_where record text) (logs d)), w)
  | CountComments text =>
      let mine := filter (fun c => c_text_id c =? text) (comments d) in
      Some (Counts (Z.of_nat (List.length mine))
                   (Sql.count (fun c => Sql.is_true_sql (c_published c)) mine)
                   (Sql.count (fun c => Sql.is_not_true_sql (c_published c)) mine),
            w)
  | SelectChanges _ => Some (Opaque, w)
  | SelectWords _ => Some (Opaque, w)
  | SelectTags _ => Some (Opaque, w)
  | SelectEtc text ready total =>
      (* (now() - created) / $2, where $2 is ready / total as computed
         by the caller: as soon as one log row of the text is there the
         division is made, and it fails when the ratio is 0 or, for
         0 / 0, NaN *)
      if (ready =? 0) && existsb (Sql.log_where None text) (logs d)
      then None
      else Some (Opaque, w)
  end.

(** What a refused statement leaves behind.  An [INSERT] whose values
    are well formed draws the id of its row from the sequence before the
    store finds the row to violate a constraint, and a value drawn is not
    given back.  Nothing else stays of a refused statement. *)
Definition spent (s : stmt) (w : world) : world :=
  match s with
  | InsertComment v =>
      if Sql.well_formed v then set_seqs (bump_comments (seqs w)) w else w
  | InsertLog _ _ _ _ _ => set_seqs (bump_logs (seqs w)) w
  | InsertToken _ _ _ => set_seqs (bump_tokens (seqs w)) w
  | InsertString _ _ _ _ _ => set_seqs (bump_strings (seqs w)) w
  | _ => w
  end.

(** ** Asynchronous functions

    An [async] function is a computation over a state that ends with a
    value or with an exception (a rejected promise).  Effects made before
    an exception stay. *)

Inductive exn : Type :=
| TypeError
| DbError.

Inductive outcome (A : Type) : Type :=
| Ok (a : A)
| Thrown (e : exn).
Arguments Thrown {A} e.

Definition Async (W A : Type) : Type := W -> outcome A * W.

(** The computations over one session. *)
Definition M (A : Type) : Type := Async world A.

Definition ret {W A : Type} (a : A) : Async W A := fun w => (Ok a, w).

Definition throw {W A : Type} (e : exn) : Async W A := fun w => (Thrown e, w).

Definition bind {W A B : Type} (m : Async W A) (k : A -> Async W B) : Async W B :=
  fun w =>
    match m w with
    | (Ok a, w1) => k a w1
    | (Thrown e, w1) => (Thrown e, w1)
    end.

(** [try { m } catch (e) { h e }]. *)
Definition try_catch {W A : Type} (m : Async W A) (h : exn -> Async W A) : Async W A :=
  fun w =>
    match m w with
    | (Ok a, w1) => (Ok a, w1)
    | (Thrown e, w1) => h e w1
    end.

(** [try { m } finally { f }]. *)
Definition try_finally {W A : Type} (m : Async W A) (f : Async W unit) : Async W A :=
  fun w =>
    match m w with
    | (r, w1) =>
        match f w1 with
        | (Ok _, w2) => (r, w2)
        | (Thrown e, w2) => (Thrown e, w2)
        end
    end.

Declare Scope async_scope.
Delimit Scope async_scope with async.
Notation "x <- m ;; k" := (bind m (fun x => k))
  (at level 61, m at next level, right associativity) : async_scope.
Notation "m ;; k" := (bind m (fun _ => k))
  (at level 61, right associativity) : async_scope.
Local Open Scope async_scope.

(** A statement sent on the connection of the session: the clock
    advances and the statement is recorded in the trace.  It throws when
    the fault schedule breaks this statement, which then has no effect,
    or when the store refuses it. *)
Definition send (s : stmt) : M rows :=
  fun w =>
    let w1 := tick w in
    if faults w (List.length (trace w)) then (Thrown DbError, record_stmt s false w1)
    else
      match exec s w1 with
      | Some (r, w2) => (Ok r, record_stmt s true w2)
      | None => (Thrown DbError, record_stmt s false (spent s w1))
      end.

(** ** The pool

    The module creates one [Pool] of the [pg] library and reaches the
    store in two ways.  [await pool.query(s)] hands the statement to
    whichever client of the pool is free and gives the client back;
    [await pool.connect()] checks a client out, [await client.query(s)]
    sends a statement to that client, on its connection, and
    [client.release()] gives it back.  A transaction belongs to one
    connection.  The functions of the module are written once, over any
    state [W] that offers these operations and the clock
    ([performance.now()]). *)
Class Runtime (W : Type) : Type := {
  query : stmt -> Async W rows;
  connect : Async W nat;
  client_query : nat -> stmt -> Async W rows;
  release : nat -> Async W unit;
  performance_now : Async W Z
}.

(** A pool that has one client: every statement, sent either way, goes
    to the connection of the session.  This is the pool as a request
    meets it when no other request uses the pool at the same time (the
    client given back last is the one handed out next). *)
#[export] Instance one_client : Runtime world := {|
  query := send;
  connect := bind (send CONNECT) (fun _ => ret 0%nat);
  client_query := fun _ => send;
  release := fun _ => ret tt;
  performance_now := fun w => (Ok (now w), w)
|}.

(** A pool with several clients.  [shared] holds the committed tables,
    the sequences, the clock, the trace and the fault schedule (its own
    transaction slot is not used between statements); [held c] is the
    transaction open on the connection of the client [c]; [hands n] is
    the client the pool hands the n-th request to, which depends on what
    other requests hold at that moment. *)
Record pool : Type := {
  shared : world;
  held : nat -> option transaction;
  hands : nat -> nat
}.

(** Run a computation of one session on the connection of the client
    [c]. *)
Definition on_client {A : Type} (c : nat) (m : M A) : Async pool A :=
  fun p =>
    match m (set_txn (held p c) (shared p)) with
    | (r, w) =>
        (r, {| shared := set_txn None w;
               held := fun k => if Nat.eqb k c then txn w else held p k;
               hands := hands p |})
    end.

(** The client the pool hands out now. *)
Definition next_client (p : pool) : nat := hands p (List.length (trace (shared p))).

#[export] Instance many_clients : Runtime pool := {|
  query := fun s p => on_client (next_client p) (send s) p;
  connect := fun p =>
    on_client (next_client p) (bind (send CONNECT) (fun _ => ret (next_client p))) p;
  client_query := fun c s => on_client c (send s);
  release := fun _ => ret tt;
  performance_now := fun p => (Ok (now (shared p)), p)
|}.

(** The authenticated user passed to the operations ([user],
    [currentUser]). *)
Record actor : Type := {
  a_id : Z;
  a_privs : Z
}.

(** A value bound to a statement parameter: [undefined] and [null] are
    sent as [NULL]. *)
Definition bound {A : Type} (x : field A) : option A :=
  match x with
  | Val a => Some a
  | _ => None
  end.

(** A nullable column read back into an object property. *)
Definition column {A : Type} (x : option A) : field A :=
  match x with
  | Some a => Val a
  | None => Null
  end.

(** *** setComment *)

Record comment_params : Type := {
  p_id : field Z;
  p_text_id : field Z;
  p_title : field string;
  p_published : field bool;
  p_priority : field Z;
  p_tags : field (list Z);
  p_issues : field (list (list Z));
  p_entry : field jsobject
}.

(** [const { id, ...rest } = obj; return rest], at the two types it is
    applied to: a row of [comments] and the request parameters. *)
Class Cleanable (A : Type) : Type := cleanCommentObject : A -> snapshot.

#[export] Instance clean_row : Cleanable comment := fun c =>
  {| s_text_id := Val (c_text_id c); s_title := Val (c_title c);
     s_published := column (c_published c); s_priority := column (c_priority c);
     s_tags := Val (c_tags c); s_issues := Val (c_issues c);
     s_entry := column (c_entry c) |}.

#[export] Instance clean_params : Cleanable comment_params := fun p =>
  {| s_text_id := p_text_id p; s_title := p_title p;
     s_published := p_published p; s_priority := p_priority p;
     s_tags := p_tags p; s_issues := p_issues p; s_entry := p_entry p |}.

(** The empty object, [data0] of a creation. *)
Definition empty_object : snapshot :=
  {| s_text_id := Absent; s_title := Absent; s_published := Absent;
     s_priority := Absent; s_tags := Absent; s_issues := Absent; s_entry := Absent |}.

(** [params?.tags?.length ? params.tags.join(',') : ''] within braces,
    read as an array literal; likewise for the issues. *)
Definition tagsAsArray (params : comment_params) : list Z :=
  match p_tags params with
  | Val tags => tags
  | _ => []
  end.

Definition issuesAsArray (params : comment_params) : list (list Z) :=
  match p_issues params with
  | Val issues => issues
  | _ => []
  end.

(** What [setComment] resolves to: [{ id, change }], [{ error }] or the
    initial [{}]. *)
Inductive comment_result : Type :=
| Data (id : Z) (change : option Z)
| ErrorObject (error : exn)
| EmptyObject.

Definition first_id (r : rows) : option Z :=
  match r with
  | Ids (i :: _) => Some i
  | _ => None
  end.

(** The array [values], given the trimmed title. *)
Definition values_of (params : comment_params) (title : string) : comment_values :=
  {| v_text_id := Js.Number (p_text_id params); v_title := title;
     v_published := bound (p_published params); v_entry := bound (p_entry params);
     v_priority := bound (p_priority params); v_tags := tagsAsArray params;
     v_issues := issuesAsArray params |}.

(** The variable [data] still holds [{}] whenever the outermost handler
    runs: it is assigned inside the innermost [try] only, whose
    exceptions are all handled by the two inner handlers, and these
    return. *)
Definition setComment {W : Type} `{Runtime W} (user : actor) (params : comment_params)
  : Async W comment_result :=
  title <- match p_title params with
           | Val s => ret (Js.trim s)
           | _ => throw TypeError
           end ;;
  let values := values_of params title in
  let sql :=
    if Js.truthy_num (p_id params)
    then UpdateComment values (Js.Number (p_id params))
    else InsertComment values in
  try_catch
    (previousCommentObject <-
       (if Js.truthy_num (p_id params) then
          selection <- query (SelectComment (Js.Number (p_id params))) ;;
          match selection with
          | CommentRows (commentObject :: _) => ret (cleanCommentObject commentObject)
          | _ => throw TypeError
          end
        else ret empty_object) ;;
     let newCommentObject := cleanCommentObject params in
     try_catch
       (query BEGIN ;;
        try_catch
          (result <- query sql ;;
           match first_id result with
           | Some resultId =>
               logResult <- query (InsertLog (a_id user) "comments" resultId
                                             previousCommentObject newCommentObject) ;;
               query COMMIT ;;
               ret (Data resultId (first_id logResult))
           | None => throw TypeError
           end)
          (fun error => query ROLLBACK ;; ret (ErrorObject error)))
       (fun error => ret (ErrorObject error)))
    (fun err => ret EmptyObject).

(** The snapshot [setComment] takes of the comment before it writes:
    the first row with the given id, or the empty object for a
    creation. *)
Definition prior_snapshot (params : comment_params) (d : tables) : snapshot :=
  match p_id params with
  | Val i =>
      if i =? 0 then empty_object
      else
        match filter (fun c => c_id c =? i) (comments d) with
        | c :: _ => cleanCommentObject c
        | [] => empty_object
        end
  | _ => empty_object
  end.

(** The comments after the write of [setComment] with the values [v],
    [id] being the id returned and [text] the checked text id. *)
Definition comments_written (params : comment_params) (v : comment_values)
  (id text : Z) (cs : list comment) : list comment :=
  if Js.truthy_num (p_id params)
  then map (fun c => if c_id c =? id then Sql.comment_of (c_id c) text v else c) cs
  else cs ++ [Sql.comment_of id text v].

(** Between the states [w] and [w'] of the session, the comment [id] was
    written as [setComment] writes it for [params], the log entry [lid]
    pairing the prior snapshot with the new one was appended, and nothing
    else changed in the committed tables. *)
Definition saved_with_log (user : actor) (params : comment_params) (w w' : world)
  (id lid : Z) : Prop :=
  exists title created t,
    p_title params = Val title
    /\ Sql.check_comment (values_of params (Js.trim title)) (committed w) = Some t
    /\ committed w'
       = set_logs
           (fun ls => ls ++ [{| l_id := lid; l_created := created;
                                l_user_id := a_id user;
                                l_data0 := prior_snapshot params (committed w);
                                l_data1 := cleanCommentObject params;
                                l_table_name := "comments"; l_record_id := id |}])
           (set_comments
              (comments_written params (values_of params (Js.trim title)) id t)
              (committed w)).

(** The statements sent between two states of a session that failed. *)
Definition failed_statements (w w' : world) : list stmt :=
  map fst (filter (fun x => negb (snd x)) (skipn (List.length (trace w)) (trace w'))).

(** The last statement sent between the states [w] and [w'] is [s],
    and it succeeded or not as [ok] tells. *)
Definition ended_with (w w' : world) (s : stmt) (ok : bool) : Prop :=
  exists tr, trace w' = trace w ++ tr ++ [(s, ok)].

(** The session is inside an open transaction and [c] is what it had
    committed. *)
Definition in_txn (c : tables) (w : world) : Prop :=
  committed w = c /\ txn w <> None.

(** The statement reads only. *)
Definition is_select (s : stmt) : bool :=
  match s with
  | SelectComment _ | SelectLogs _ _ _ _ | CountLogs _ _ | CountComments _
  | SelectChanges _ | SelectWords _ | SelectTags _ | SelectEtc _ _ _ => true
  | _ => false
  end.

(** *** insertBatchIntoStrings *)

(** One record of a batch, as in
    [{ p: 45, s: 150, form: 'receive', repr: 'receive', meta: 'word' }]. *)
Record item : Type := {
  i_p : option Z;
  i_s : option Z;
  i_form : option string;
  i_repr : option string;
  i_meta : option string
}.

(** [undefined] or the elapsed time, here in clock ticks (the division
    by 1000 and [toFixed(2)] are left out). *)
Inductive batch_result : Type :=
| Undefined
| Secs (elapsed : Z).

(** The body of the [for] loop over [batch.entries()]; writing the
    progress to the standard output is not modelled. *)
Fixpoint insert_items {W : Type} `{Runtime W} (client : nat) (textId : option Z)
  (langId : option string) (batch : list item) : Async W unit :=
  match batch with
  | [] => ret tt
  | item :: rest =>
      let token := i_repr item in
      client_query client (InsertToken token langId (i_meta item)) ;;
      client_query client (InsertString textId (i_p item) (i_s item) (i_form item) token) ;;
      insert_items client textId langId rest
  end.

Definition insertBatchIntoStrings {W : Type} `{Runtime W} (textId : option Z)
  (batch : list item) (langId : option string) (noStdout : bool) : Async W batch_result :=
  t0 <- performance_now ;;
  client <- connect ;;
  isError <-
    try_finally
      (try_catch
         (client_query client BEGIN ;;
          insert_items client textId langId batch ;;
          client_query client (LinkTokens langId) ;;
          client_query client COMMIT ;;
          ret false)
         (fun error => client_query client ROLLBACK ;; ret true))
      (release client) ;;
  if isError : bool then ret Undefined
  else
    t1 <- performance_now ;;
    ret (Secs (t1 - t0)).

(** The rows of [tokens] for the token [r] in the language [l], the
    pair on which the table is unique. *)
Definition token_rows (r l : string) (toks : list token) : list token :=
  filter (fun t => String.eqb (t_token t) r && Sql.text_eq (t_lang t) (Some l)) toks.

(** The record of a batch is an occurrence of the token [r]. *)
Definition has_repr (r : string) (it : item) : bool :=
  Sql.text_eq (i_repr it) (Some r).

(** *** setCommentForString *)

Record binding_params : Type := {
  b_id : field Z;
  b_tokens : field (list Z)
}.

(** The initial [{}] or the returned rows (their ids). *)
Inductive binding_result : Type :=
| NoBinding
| Bound (ids : list Z).

Definition ids_of (r : rows) : list Z :=
  match r with
  | Ids l => l
  | _ => []
  end.

Definition setCommentForString {W : Type} `{Runtime W} (user : actor)
  (params : binding_params) : Async W binding_result :=
  match b_id params, b_tokens params with
  | Val commentId, Val stringTokenIds =>
      if negb (commentId =? 0) && negb (Nat.eqb (List.length stringTokenIds) 0) then
        try_catch
          (query (ArrayRemove commentId stringTokenIds) ;;
           result <- query (ArrayAppend commentId stringTokenIds) ;;
           ret (Bound (ids_of result)))
          (fun err => ret NoBinding)
      else ret NoBinding
  | _, _ => ret NoBinding
  end.

(** What the two statements of [setCommentForString] do, one after the
    other, to one array. *)
Definition rebind (commentId : Z) (a : list Z) : list Z :=
  Sql.array_append (Sql.array_remove a commentId) commentId.

(** *** changeActivationStatus *)

(** The initial [{}], [undefined] when no row was updated, or [{ id }]. *)
Inductive id_result : Type :=
| NoData
| NoRow
| Id (id : Z).

Definition changeActivationStatus {W : Type} `{Runtime W} (currentUser : actor)
  (userId : field Z) (status : bool) : Async W id_result :=
  match userId with
  | Val uid =>
      if negb (uid =? 0) && (a_privs currentUser =? 1) then
        try_catch
          (result <- query (SetActivated uid status) ;;
           ret (match first_id result with
                | Some i => Id i
                | None => NoRow
                end))
          (fun err => ret NoData)
      else ret NoData
  | _ => ret NoData
  end.

(** *** getLogs *)

Record log_params : Type := {
  lp_id : field Z;
  lp_offset : field Z;
  lp_limit : field Z;
  lp_comment : field Z
}.

Record log_page : Type := {
  data : list (log * bool);
  count : Z
}.

Definition getLogs {W : Type} `{Runtime W} (params : log_params) : Async W log_page :=
  let offset := Js.or_default (bound (lp_offset params)) 0 in
  let limit := Js.or_default (bound (lp_limit params)) 50 in
  let id := Js.or_default (Js.Number (lp_id params)) 1 in
  let commentId := Js.Number (lp_comment params) in
  let condition :=
    match commentId with
    | Some c => if c =? 0 then None else Some c
    | None => None
    end in
  res <- query (SelectLogs condition id offset limit) ;;
  count <- query (CountLogs condition id) ;;
  ret {| data := match res with LogRows ls => ls | _ => [] end;
         count := match count with Count n => n | _ => 0 end |}.

(** The request the log view makes for a page ([handlePageChange]): the
    text of the signed-in user, [offset: (page - 1) * pageSize],
    [limit: pageSize] and the comment of the route, if any. *)
Definition page_request (text : Z) (comment : option Z) (pageSize page : nat) : log_params :=
  {| lp_id := Val text;
     lp_offset := Val (Z.of_nat ((page - 1) * pageSize));
     lp_limit := Val (Z.of_nat pageSize);
     lp_comment := match comment with Some c => Val c | None => Absent end |}.

(** [a] is listed strictly before [b]: created later, or at the same
    time with a greater id. *)
Definition newer (a b : log) : Prop :=
  l_created b < l_created a \/ (l_created a = l_created b /\ l_id b < l_id a).

(** *** getStats *)

Record completion : Type := {
  total : Z;
  ready : Z;
  draft : Z
}.

(** The initial [{}] or the statistics, of which the [comments] member
    is modelled. *)
Inductive stats_result : Type :=
| NoStats
| Stats (comments : completion).

Definition getStats {W : Type} `{Runtime W} (id : field Z) : Async W stats_result :=
  match Js.Number id with
  | Some textId =>
      if textId =? 0 then ret NoStats
      else
        try_catch
          (comments <- query (CountComments textId) ;;
           match comments with
           | Counts t r d =>
               query (SelectChanges textId) ;;
               query (SelectWords textId) ;;
               query (SelectTags textId) ;;
               query (SelectEtc textId r t) ;;
               ret (Stats {| total := t; ready := r; draft := d |})
           | _ => throw TypeError
           end)
          (fun error => ret NoStats)
  | None => ret NoStats
  end.

(** ** The log view: compareRecords *)

(** What the differ renders: the single CREATED button, or one button
    per changed field, given as [(field, label)]. *)
Inductive changes : Type :=
| CREATED
| Fields (fields : list (string * string)).

(** The custom fields of the text, in the order of [Object.keys(scheme)],
    each with its title. *)
Definition scheme_fields := list (string * string).

Definition option_Z_eq_dec (a b : option Z) : {a = b} + {a <> b}.
Proof. decide equality. apply Z.eq_dec. Defined.

(** [new Set(a).size], the elements being integers, or [None] for a
    stray [undefined] or [null]. *)
Definition set_size (a : list (option Z)) : nat :=
  List.length (nodup option_Z_eq_dec a).

(** [data0.tags.concat(data1.tags)]: an array argument is spliced, any
    other value is appended as one element. *)
Definition concat_tags (tags0 : list Z) (tags1 : field (list Z)) : list (option Z) :=
  match tags1 with
  | Val l => map Some (tags0 ++ l)
  | _ => map Some tags0 ++ [None]
  end.

(** [data0.tags.length !== new Set(data0.tags.concat(data1.tags)).size]. *)
Definition tags_differ (tags0 : list Z) (tags1 : field (list Z)) : bool :=
  negb (Nat.eqb (List.length tags0) (set_size (concat_tags tags0 tags1))).

(** [JSON.stringify(d.issues)]; [None] is [undefined]. *)
Definition stringify_issues_of (d : snapshot) : option string :=
  match s_issues d with
  | Absent => None
  | Null => Some "null"
  | Val iss => Some (Js.stringify_issues iss)
  end.

(** [JSON.stringify(d.entry?.[x])]. *)
Definition stringify_entry_of (x : string) (d : snapshot) : option string :=
  match s_entry d with
  | Val o => option_map Js.stringify (Js.member x o)
  | _ => None
  end.

Definition pushed (changed : bool) (f : string * string) : list (string * string) :=
  if changed then [f] else [].

(** [compareRecords(id, data0, data1)], with the [scheme] of the view
    made a parameter.  [data0.tags.length] throws when [data0] has no
    tags. *)
Definition compareRecords (scheme : scheme_fields) (id : Z) (data0 data1 : snapshot)
  : outcome changes :=
  if negb (Js.truthy_str (s_title data0)) then Ok CREATED
  else
    match s_tags data0 with
    | Val tags0 =>
        Ok (Fields
              (pushed (Js.field_differs String.eqb (s_title data0) (s_title data1))
                      ("title", "Title")
               ++ pushed (Js.field_differs Z.eqb (s_priority data0) (s_priority data1))
                         ("priority", "Priority")
               ++ pushed (Js.field_differs Bool.eqb (s_published data0) (s_published data1))
                         ("published", "Status")
               ++ pushed (tags_differ tags0 (s_tags data1)) ("tags", "Tags")
               ++ pushed (Js.differs (stringify_issues_of data0) (stringify_issues_of data1))
                         ("issues", "Issues")
               ++ flat_map
                    (fun x => pushed (Js.differs (stringify_entry_of (fst x) data0)
                                                 (stringify_entry_of (fst x) data1))
                                     x)
                    scheme))
    | _ => Thrown TypeError
    end.

(** ** The user view: the row of controls *)

Inductive control : Type :=
| OwnAccountAlert
| DeactivateButton
| ActivateButton
| ResetPasswordButton
| SaveButton
| ElevationButtons.

(** The account shown in the view, as loaded into [user]. *)
Record account : Type := {
  acc_id : option Z;
  acc_privs : Z;
  acc_activated : bool
}.

Definition option_Z_eqb (a b : option Z) : bool :=
  if option_Z_eq_dec a b then true else false.

(** The controls rendered by the template for the signed-in user
    [current] ([store.state.user]), the route parameter [id] and the
    account [user].  A click on the Deactivate button calls
    [changeActivationStatus(false)], which posts [id] to the server. *)
Definition user_controls (current : option actor) (id : string) (user : account)
  : list control :=
  (if option_Z_eqb (option_map a_privs current) (Some 1) then
     (if acc_activated user then
        (if String.eqb (match current with
                        | Some c => Js.String_of (a_id c)
                        | None => "undefined"
                        end) id
         then [OwnAccountAlert]
         else [DeactivateButton])
      else [ActivateButton])
     ++ [ResetPasswordButton; SaveButton]
   else
     if option_Z_eqb (option_map a_id current) (acc_id user) then [SaveButton] else [])
  ++ (if option_Z_eqb (option_map a_privs current) (Some 1)
         && acc_activated user && (1 <? acc_privs user)
      then [ElevationButtons] else []).

(** ** Sample data *)

Definition before_sample : snapshot :=
  {| s_text_id := Val 1; s_title := Val "Intro"; s_published := Val false;
     s_priority := Val 1; s_tags := Val [1; 2]; s_issues := Val [];
     s_entry := Null |}.

Definition after_sample : snapshot :=
  {| s_text_id := Val 1; s_title := Val "Intro"; s_published := Val false;
     s_priority := Val 1; s_tags := Val [1]; s_issues := Val [];
     s_entry := Null |}.

Definition untitled_sample : snapshot :=
  {| s_text_id := Val 1; s_title := Val EmptyString; s_published := Val false;
     s_priority := Val 1; s_tags := Val []; s_issues := Val [];
     s_entry := Null |}.

Definition root : actor := {| a_id := 1; a_privs := 1 |}.

Definition editor : actor := {| a_id := 2; a_privs := 5 |}.

Definition store_sample : tables :=
  {| texts := [1];
     users := [{| u_id := 1; u_username := "root"; u_privs := 1; u_activated := true |};
               {| u_id := 2; u_username := "ed"; u_privs := 5; u_activated := true |}];
     comments := []; logs := []; tokens := []; strings := [] |}.

(** An idle session on the sample store, on which no statement breaks. *)
Definition world_sample : world :=
  {| committed := store_sample; txn := None;
     seqs := {| comments_seq := 1; logs_seq := 1; tokens_seq := 1; strings_seq := 1 |};
     now := 100; trace := []; faults := fun _ => false |}.

Definition published_params : comment_params :=
  {| p_id := Absent; p_text_id := Val 1; p_title := Val "Intro"; p_published := Val true;
     p_priority := Val 1; p_tags := Val [1; 2]; p_issues := Val []; p_entry := Absent |}.

(** A request that leaves [published] out. *)
Definition unflagged_params : comment_params :=
  {| p_id := Absent; p_text_id := Val 1; p_title := Val "Second"; p_published := Absent;
     p_priority := Val 2; p_tags := Absent; p_issues := Absent; p_entry := Absent |}.

(** A request without [text_id]. *)
Definition textless_params : comment_params :=
  {| p_id := Absent; p_text_id := Absent; p_title := Val "Intro"; p_published := Val false;
     p_priority := Val 1; p_tags := Absent; p_issues := Absent; p_entry := Absent |}.

(** A request without [title]. *)
Definition untitled_params : comment_params :=
  {| p_id := Absent; p_text_id := Val 1; p_title := Absent; p_published := Val false;
     p_priority := Val 1; p_tags := Absent; p_issues := Absent; p_entry := Absent |}.

(** The session after the two comments [published_params] and
    [unflagged_params] have been saved by [root]. *)
Definition world_two_comments : world :=
  snd (setComment root unflagged_params (snd (setComment root published_params world_sample))).

Definition strings_sample : list string_row :=
  map (fun ic : Z * list Z =>
         {| st_id := fst ic; st_text_id := Some 1; st_p := Some 1; st_s := Some 1;
            st_line := None; st_form := Some "cat"; st_repr := Some "cat"; st_fmt := [];
            st_token_id := None; st_unit_id := None; st_comments := snd ic |})
      [(1, [7; 3; 7]); (2, []); (3, [7])].

Definition world_strings_sample : world :=
  set_committed (set_strings (fun _ => strings_sample) store_sample) world_sample.

(** The same session with the sequence of [strings] past the ids in
    use, as the sequence is once the three strings have been inserted. *)
Definition world_strings_ready : world :=
  set_seqs {| comments_seq := 1; logs_seq := 1; tokens_seq := 1; strings_seq := 4 |}
    world_strings_sample.

Definition binding_sample : binding_params :=
  {| b_id := Val 7; b_tokens := Val [1; 2] |}.

Definition cat : item :=
  {| i_p := Some 1; i_s := Some 1; i_form := Some "cat"; i_repr := Some "cat";
     i_meta := Some "word" |}.

Definition capital_cat : item :=
  {| i_p := Some 2; i_s := Some 1; i_form := Some "Cat"; i_repr := Some "cat";
     i_meta := None |}.

(** The sample session with the store breaking on the statement number
    [n] sent from now on. *)
Definition world_breaking_at (n : nat) : world :=
  {| committed := store_sample; txn := None;
     seqs := {| comments_seq := 1; logs_seq := 1; tokens_seq := 1; strings_seq := 1 |};
     now := 100; trace := []; faults := Nat.eqb n |}.

(** A pool of two clients, both idle, over the sample store.  The pool
    hands the second request to the client 1, the client 0 being held by
    another request at that moment, and every other request to the
    client 0; the store breaks on the third statement sent. *)
Definition pool_two_clients : pool :=
  {| shared := world_breaking_at 2;
     held := fun _ => None;
     hands := fun n => if Nat.eqb n 1 then 1%nat else 0%nat |}.

(** A user whose account is not in [users]. *)
Definition stranger : actor := {| a_id := 9; a_privs := 5 |}.

(** The same pool over a store that never breaks. *)
Definition pool_unbroken : pool :=
  {| shared := world_sample;
     held := fun _ => None;
     hands := fun n => if Nat.eqb n 1 then 1%nat else 0%nat |}.

(** ** Further operations of the store *)

(** *** removeCommentFromString *)

Definition removeCommentFromString {W : Type} `{Runtime W} (user : actor)
  (params : binding_params) : Async W binding_result :=
  match b_id params, b_tokens params with
  | Val commentId, Val stringTokenIds =>
      if negb (commentId =? 0) && negb (Nat.eqb (List.length stringTokenIds) 0) then
        try_catch
          (result <- query (ArrayRemove commentId stringTokenIds) ;;
           ret (Bound (ids_of result)))
          (fun err => ret NoBinding)
      else ret NoBinding
  | _, _ => ret NoBinding
  end.

(** The request carries a comment id and a list of string ids that pass
    the test [commentId && stringTokenIds?.length]. *)
Definition binding_request (params : binding_params) (cid : Z) (ids : list Z) : Prop :=
  b_id params = Val cid /\ b_tokens params = Val ids /\ cid <> 0 /\ ids <> [].

(** The string is none of those listed. *)
Definition unlisted (ids : list Z) (r : string_row) : bool := negb (Sql.any (st_id r) ids).

(** A request that binds a comment no sample string holds. *)
Definition fresh_binding_sample : binding_params :=
  {| b_id := Val 9; b_tokens := Val [1; 2] |}.

(** The sample session on the sample strings, the store breaking on the
    statement number [n]. *)
Definition world_strings_breaking_at (n : nat) : world :=
  set_committed (set_strings (fun _ => strings_sample) store_sample) (world_breaking_at n).

(** The rows [getLogs] selects for a filter, in the order of its
    [ORDER BY], before [OFFSET] and [LIMIT] cut the page out. *)
Definition listing (record : option Z) (text : Z) (d : tables) : list log :=
  LogSort.sort (filter (Sql.log_where record text) (logs d)).

(** The request is one that [getLogs] serves with all its defaults: no
    offset, no page size, no text and no comment (missing, [null] or 0). *)
Definition default_request (params : log_params) : Prop :=
  Js.truthy_num (lp_offset params) = false
  /\ Js.truthy_num (lp_limit params) = false
  /\ Js.truthy_num (lp_id params) = false
  /\ Js.truthy_num (lp_comment params) = false.

(** A request with every member left out. *)
Definition bare_log_params : log_params :=
  {| lp_id := Absent; lp_offset := Absent; lp_limit := Val 0; lp_comment := Null |}.

(** The comments of a text. *)
Definition text_comments (text : Z) (d : tables) : list comment :=
  filter (fun c => c_text_id c =? text) (comments d).

(** The session after [root] has saved [unflagged_params] alone: one
    comment, not published, and its log entry. *)
Definition world_one_draft : world :=
  snd (setComment root {| p_id := Absent; p_text_id := Val 1; p_title := Val "Draft";
                          p_published := Val false; p_priority := Val 1;
                          p_tags := Absent; p_issues := Absent; p_entry := Absent |}
         world_sample).

(** [l1] is [l2] with some elements left out, the order kept. *)
Inductive Subsequence {A : Type} : list A -> list A -> Prop :=
| sub_nil : forall l, Subsequence [] l
| sub_take : forall x l1 l2, Subsequence l1 l2 -> Subsequence (x :: l1) (x :: l2)
| sub_skip : forall x l1 l2, Subsequence l1 l2 -> Subsequence l1 (x :: l2).

(** The labels of the five fixed fields, in the order the differ tests
    them. *)
Definition fixed_fields : list (string * string) :=
  [("title", "Title"); ("priority", "Priority"); ("published", "Status");
   ("tags", "Tags"); ("issues", "Issues")].

(** *** getComment *)








(** The row of [strings] inserted for a record of a batch, under the id
    [id]. *)
Definition string_of_item (textId : option Z) (id : Z) (it : item) : string_row :=
  {| st_id := id; st_text_id := textId; st_p := i_p it; st_s := i_s it; st_line := None;
     st_form := i_form it; st_repr := i_repr it; st_fmt := []; st_token_id := None;
     st_unit_id := None; st_comments := [] |}.

(** The rows inserted for a batch, the first under the id [first]. *)
Fixpoint strings_of_batch (textId : option Z) (first : Z) (batch : list item)
  : list string_row :=
  match batch with
  | [] => []
  | it :: rest => string_of_item textId first it :: strings_of_batch textId (first + 1) rest
  end.

(** The position of a string: its text, coordinates, form and token
    text. *)
Definition position (r : string_row)
  : option Z * option Z * option Z * option string * option string :=
  (st_text_id r, st_p r, st_s r, st_form r, st_repr r).

(** A record without [repr]. *)
Definition tokenless : item :=
  {| i_p := Some 3; i_s := Some 1; i_form := Some "dog"; i_repr := None; i_meta := None |}.

(** ** Operations outside transactions

    The remaining operations modelled here send one or two statements
    each, outside any transaction, so that every statement is committed
    on its own.  They are run on a [store]: the tables above together
    with the shared vocabulary (tags and issues), a fault schedule and
    the number of statements sent so far. *)

Module Admin.

Record tag : Type := {
  tag_id : Z;
  tag_title : option string
}.

Record issue : Type := {
  issue_id : Z;
  issue_color : string;
  issue_title : option string
}.

Record store : Type := {
  base : tables;
  tags : list tag;
  issues : list issue;
  breaks : nat -> bool;
  sent : nat
}.

Definition with_base (f : tables -> tables) (s : store) : store :=
  {| base := f (base s); tags := tags s; issues := issues s;
     breaks := breaks s; sent := sent s |}.

Definition with_tags (f : list tag -> list tag) (s : store) : store :=
  {| base := base s; tags := f (tags s); issues := issues s;
     breaks := breaks s; sent := sent s |}.

Definition with_issues (f : list issue -> list issue) (s : store) : store :=
  {| base := base s; tags := tags s; issues := f (issues s);
     breaks := breaks s; sent := sent s |}.

Definition count_sent (s : store) : store :=
  {| base := base s; tags := tags s; issues := issues s;
     breaks := breaks s; sent := S (sent s) |}.

(** The statements, with their bound parameters ([None] for [NULL], or
    for [NaN] where the parameter is the result of [Number]). *)
Inductive statement : Type :=
| SetPrivs (uid privs : Z)
| SelectTagged (tagId : option Z)
| DeleteTag (id : option Z)
| SelectIssued (issueId : option Z)
| DeleteIssue (id : option Z)
| SetStringComments (tokenId : Z) (comments : list Z)
| SelectBound (textId : Z) (commentId : option Z)
| SelectRange (first : Z) (last : option Z)
| SelectComments (textId : option Z).

(** A row of the list of comments of a text: the selected columns and
    the computed [bound]. *)
Record comment_line : Type := {
  cl_id : Z;
  cl_priority : option Z;
  cl_issues : list (list Z);
  cl_tags : list Z;
  cl_title : string;
  cl_published : option bool;
  cl_bound : bool
}.

(** What a statement returns: its rows (or, for a [DELETE], the number
    of rows it removed). *)
Inductive reply : Type :=
| IdRows (ids : list Z)
| TagRows (tags : list (list Z))
| IssueRows (issues : list (list (list Z)))
| RowCount (n : nat)
| StringRows (rows : list (string_row * option string))
| CommentLines (rows : list comment_line).

(** [ORDER BY id] on strings. *)
Definition string_leb (a b : string_row) : bool := st_id a <=? st_id b.

Lemma string_leb_total : forall a b, string_leb a b = true \/ string_leb b a = true.
Proof.
  intros a b. unfold string_leb.
  destruct (Z.leb_spec (st_id a) (st_id b)); [now left|].
  right. apply Z.leb_le. lia.
Qed.

Module StringOrder <: TotalLeBool.
Definition t := string_row.
Definition leb := string_leb.
Definition leb_total := string_leb_total.
End StringOrder.

Module StringSort := Sort StringOrder.

(** [ORDER BY priority DESC, id DESC] on comments; in descending order
    the rows without priority come first. *)
Definition comment_leb (a b : comment) : bool :=
  match c_priority a, c_priority b with
  | None, None => c_id b <=? c_id a
  | None, Some _ => true
  | Some _, None => false
  | Some x, Some y => (y <? x) || ((x =? y) && (c_id b <=? c_id a))
  end.

Lemma comment_leb_total : forall a b, comment_leb a b = true \/ comment_leb b a = true.
Proof.
  intros a b. unfold comment_leb.
  destruct (c_priority a) as [x|], (c_priority b) as [y|]; auto.
  - destruct (Z.ltb_spec y x); [now left|].
    destruct (Z.ltb_spec x y); [now right|].
    assert (E : x = y) by lia. subst. rewrite Z.eqb_refl. simpl.
    destruct (Z.leb_spec (c_id b) (c_id a)); [now left|].
    right. apply Z.leb_le. lia.
  - destruct (Z.leb_spec (c_id b) (c_id a)); [now left|].
    right. apply Z.leb_le. lia.
Qed.

Module CommentOrder <: TotalLeBool.
Definition t := comment.
Definition leb := comment_leb.
Definition leb_total := comment_leb_total.
End CommentOrder.

Module CommentSort := Sort CommentOrder.

(** [$1 = ANY (issues[:][1:1])]: the first element of some row of the
    two-dimensional array. *)
Definition has_issue (i : Z) (iss : list (list Z)) : bool :=
  existsb (fun row => match row with x :: _ => x =? i | [] => false end) iss.

(** [tokens.meta] of the token a string is linked to ([LEFT JOIN]). *)
Definition meta_of (toks : list token) (r : string_row) : option string :=
  match st_token_id r with
  | Some i => match find (fun t => t_id t =? i) toks with
              | Some t => t_meta t
              | None => None
              end
  | None => None
  end.

(** [id IN (SELECT unnest(comments) FROM strings ...)]. *)
Definition is_bound (i : Z) (rs : list string_row) : bool :=
  existsb (fun r => Sql.any i (st_comments r)) rs.

Definition line_of (rs : list string_row) (c : comment) : comment_line :=
  {| cl_id := c_id c; cl_priority := c_priority c; cl_issues := c_issues c;
     cl_tags := c_tags c; cl_title := c_title c; cl_published := c_published c;
     cl_bound := is_bound (c_id c) rs |}.

Definition set_privs (uid privs : Z) (u : user) : user :=
  if u_id u =? uid
  then {| u_id := u_id u; u_username := u_username u; u_privs := privs;
          u_activated := u_activated u |}
  else u.

(** The meaning of a statement: [None] when the store refuses it. *)
Definition perform (q : statement) (s : store) : option (reply * store) :=
  let d := base s in
  match q with
  | SetPrivs uid privs =>
      Some (IdRows (filter (Z.eqb uid) (map u_id (users d))),
            with_base (set_users (map (set_privs uid privs))) s)
  | SelectTagged None => Some (TagRows [], s)
  | SelectTagged (Some i) =>
      Some (TagRows (map c_tags (filter (fun c => Sql.any i (c_tags c)) (comments d))), s)
  | DeleteTag None => None
  | DeleteTag (Some i) =>
      Some (RowCount (List.length (filter (fun t => tag_id t =? i) (tags s))),
            with_tags (filter (fun t => negb (tag_id t =? i))) s)
  | SelectIssued None => Some (IssueRows [], s)
  | SelectIssued (Some i) =>
      Some (IssueRows (map c_issues
                         (filter (fun c => has_issue i (c_issues c)) (comments d))), s)
  | DeleteIssue None => None
  | DeleteIssue (Some i) =>
      Some (RowCount (List.length (filter (fun t => issue_id t =? i) (issues s))),
            with_issues (filter (fun t => negb (issue_id t =? i))) s)
  | SetStringComments tokenId cs =>
      Some (IdRows (filter (Z.eqb tokenId) (map st_id (strings d))),
            with_base (set_strings
                         (Sql.update_comments_where [tokenId] (fun _ => cs))) s)
  | SelectBound textId commentId =>
      match commentId with
      | None => Some (StringRows [], s)
      | Some c =>
          Some (StringRows
                  (map (fun r => (r, meta_of (tokens d) r))
                     (StringSort.sort
                        (filter (fun r => match st_text_id r with
                                          | Some t => t =? textId
                                          | None => false
                                          end
                                          && Sql.any c (st_comments r))
                           (strings d)))),
                s)
      end
  | SelectRange first last =>
      Some (StringRows
              (map (fun r => (r, meta_of (tokens d) r))
                 (filter (fun r => match last with
                                   | Some l => (first <=? st_id r) && (st_id r <=? l)
                                   | None => st_id r =? first
                                   end)
                    (strings d))),
            s)
  | SelectComments None => Some (CommentLines [], s)
  | SelectComments (Some t) =>
      Some (CommentLines
              (map (line_of (strings d))
                 (CommentSort.sort (filter (fun c => c_text_id c =? t) (comments d)))),
            s)
  end.

(** Computations over the store, ending with a value or an exception. *)
Definition A (X : Type) : Type := store -> outcome X * store.

Definition pure {X : Type} (x : X) : A X := fun s => (Ok x, s).

Definition raise {X : Type} (e : exn) : A X := fun s => (Thrown e, s).

Definition andThen {X Y : Type} (m : A X) (k : X -> A Y) : A Y :=
  fun s =>
    match m s with
    | (Ok x, s1) => k x s1
    | (Thrown e, s1) => (Thrown e, s1)
    end.

(** [try { m } catch (err) { h err }]. *)
Definition handle {X : Type} (m : A X) (h : exn -> A X) : A X :=
  fun s =>
    match m s with
    | (Ok x, s1) => (Ok x, s1)
    | (Thrown e, s1) => h e s1
    end.

(** [await pool.query(q)]. *)
Definition ask (q : statement) : A reply :=
  fun s =>
    let s1 := count_sent s in
    if breaks s (sent s) then (Thrown DbError, s1)
    else
      match perform q s1 with
      | Some (r, s2) => (Ok r, s2)
      | None => (Thrown DbError, s1)
      end.

Definition first_row (r : reply) : id_result :=
  match r with
  | IdRows (i :: _) => Id i
  | _ => NoRow
  end.

(** *** elevateUser *)

(** [Number(userPrivs)], replaced by 7 unless it is one of 1, 5, 7
    ([NaN] is none of them). *)
Definition tier (userPrivs : field Z) : Z :=
  match Js.Number userPrivs with
  | Some p => if existsb (Z.eqb p) [1; 5; 7] then p else 7
  | None => 7
  end.

Definition elevateUser (currentUser : actor) (userId : field Z) (userPrivs : field Z)
  : A id_result :=
  let privs := tier userPrivs in
  match userId with
  | Val uid =>
      if negb (uid =? 0) && (a_privs currentUser =? 1) then
        handle
          (andThen (ask (SetPrivs uid privs)) (fun result => pure (first_row result)))
          (fun err => pure NoData)
      else pure NoData
  | _ => pure NoData
  end.

(** *** deleteTag and deleteIssue *)

(** [{ id, comments, success }]; [d_id] is [None] for [NaN]. *)
Record deletion : Type := {
  d_id : option Z;
  d_comments : nat;
  d_success : bool
}.

Definition rows_length (r : reply) : nat :=
  match r with
  | TagRows l => List.length l
  | IssueRows l => List.length l
  | _ => 0
  end.

Definition row_count (r : reply) : nat :=
  match r with
  | RowCount n => n
  | _ => 0
  end.

(** The variables [comments] and [success] are assigned as the [try]
    block proceeds and keep their last value when it throws. *)
Definition deleteTag (user : actor) (tagId : field Z) : A deletion :=
  let id := Js.Number tagId in
  fun s =>
    match ask (SelectTagged (bound tagId)) s with
    | (Ok result, s1) =>
        let comments := rows_length result in
        if Nat.eqb comments 0 then
          match ask (DeleteTag id) s1 with
          | (Ok result2, s2) =>
              (Ok {| d_id := id; d_comments := comments;
                     d_success := Nat.eqb (row_count result2) 1 |}, s2)
          | (Thrown _, s2) =>
              (Ok {| d_id := id; d_comments := comments; d_success := false |}, s2)
          end
        else (Ok {| d_id := id; d_comments := comments; d_success := false |}, s1)
    | (Thrown _, s1) => (Ok {| d_id := id; d_comments := 0; d_success := false |}, s1)
    end.

Definition deleteIssue (user : actor) (issueId : field Z) : A deletion :=
  let id := Js.Number issueId in
  fun s =>
    match ask (SelectIssued (bound issueId)) s with
    | (Ok result, s1) =>
        let comments := rows_length result in
        if Nat.eqb comments 0 then
          match ask (DeleteIssue id) s1 with
          | (Ok result2, s2) =>
              (Ok {| d_id := id; d_comments := comments;
                     d_success := Nat.eqb (row_count result2) 1 |}, s2)
          | (Thrown _, s2) =>
              (Ok {| d_id := id; d_comments := comments; d_success := false |}, s2)
          end
        else (Ok {| d_id := id; d_comments := comments; d_success := false |}, s1)
    | (Thrown _, s1) => (Ok {| d_id := id; d_comments := 0; d_success := false |}, s1)
    end.

(** *** setCommentsForToken *)

Record token_params : Type := {
  tp_id : field Z;
  tp_comments : field (list Z)
}.

Definition setCommentsForToken (user : actor) (params : token_params) : A id_result :=
  match tp_comments params with
  | Val commentIds =>
      match tp_id params with
      | Val tokenId =>
          if negb (tokenId =? 0) then
            handle
              (andThen (ask (SetStringComments tokenId commentIds))
                       (fun result => pure (first_row result)))
              (fun err => pure NoData)
          else pure NoData
      | _ => pure NoData
      end
  | _ => raise TypeError
  end.

(** *** getBoundStringsForComment *)

Record bound_params : Type := {
  bp_id : field Z;
  bp_comment : field Z
}.

Definition string_rows (r : reply) : list (string_row * option string) :=
  match r with
  | StringRows l => l
  | _ => []
  end.

Definition getBoundStringsForComment (params : bound_params)
  : A (list (string_row * option string)) :=
  match bp_id params with
  | Val textId =>
      if negb (textId =? 0) then
        handle
          (andThen (ask (SelectBound textId (bound (bp_comment params))))
                   (fun result => pure (string_rows result)))
          (fun err => pure [])
      else pure []
  | _ => pure []
  end.

(** *** getStringsRange *)

(** [range.shift()] and, of what is left, [range.pop()]. *)
Definition getStringsRange (tokens : field (list Z)) : A (list (string_row * option string)) :=
  match tokens with
  | Val (first :: rest) =>
      handle
        (andThen (ask (SelectRange first (match rest with
                                          | [] => None
                                          | _ => Some (last rest first)
                                          end)))
                 (fun result => pure (string_rows result)))
        (fun error => pure [])
  | _ => pure []
  end.

(** *** getComments *)

Definition getComments (id : field Z) : A (list comment_line) :=
  handle
    (andThen (ask (SelectComments (bound id)))
             (fun result => pure (match result with
                                  | CommentLines l => l
                                  | _ => []
                                  end)))
    (fun err => pure []).

End Admin.

(** Tables with two comments of the text 1, the first carrying the tags
    1 and 2 and the issue 4, and the sample strings, of which the first
    holds the comment 3. *)
Definition annotated_sample : tables :=
  {| texts := [1];
     users := users store_sample;
     comments := [{| c_id := 3; c_text_id := 1; c_title := "Intro"; c_published := Some true;
                     c_priority := Some 1; c_tags := [1; 2]; c_issues := [[4; 1]];
                     c_entry := None |};
                  {| c_id := 5; c_text_id := 1; c_title := "Second"; c_published := None;
                     c_priority := None; c_tags := []; c_issues := []; c_entry := None |}];
     logs := []; tokens := []; strings := strings_sample |}.

(** A store on these tables, with the tags 1 and 3 and the issues 4 and
    6, on which no statement breaks. *)
Definition vocabulary_sample : Admin.store :=
  {| Admin.base := annotated_sample;
     Admin.tags := [{| Admin.tag_id := 1; Admin.tag_title := Some "noun" |};
                    {| Admin.tag_id := 3; Admin.tag_title := Some "verb" |}];
     Admin.issues := [{| Admin.issue_id := 4; Admin.issue_color := "#000000";
                         Admin.issue_title := Some "check" |};
                      {| Admin.issue_id := 6; Admin.issue_color := "#ff0000";
                         Admin.issue_title := None |}];
     Admin.breaks := fun _ => false;
     Admin.sent := 0%nat |}.

(** A store on the given tables, with no vocabulary, on which no
    statement breaks. *)
Definition store_on (d : tables) : Admin.store :=
  {| Admin.base := d; Admin.tags := []; Admin.issues := [];
     Admin.breaks := fun _ => false; Admin.sent := 0%nat |}.

(** Apart from the tier, the two rows are the same user. *)
Definition same_user (u u' : user) : Prop :=
  u_id u' = u_id u /\ u_username u' = u_username u /\ u_activated u' = u_activated u.

(** * Properties *)

(** ** The snapshot differ *)

Section Differ.

Lemma field_differs_same (A : Type) (eqb : A -> A -> bool) (x : field A) :
  (forall a, eqb a a = true) -> Js.field_differs eqb x x = false.
Proof.
  intros Hrefl. destruct x as [| |a]; simpl; trivial.
  now rewrite Hrefl.
Qed.

Lemma differs_same (a : option string) : Js.differs a a = false.
Proof.
  destruct a as [s|]; simpl; trivial.
  now rewrite String.eqb_refl.
Qed.

Lemma incl_map_Some (a b : list Z) :
  incl (map Some a) (map Some b) <-> incl a b.
Proof.
  split; intros H x Hx.
  - assert (Hin : In (Some x) (map Some b)) by (apply H; now apply in_map).
    apply in_map_iff in Hin. destruct Hin as [y [Hy Hin]]. now inversion Hy; subst.
  - apply in_map_iff in Hx. destruct Hx as [y [<- Hy]]. apply in_map. now apply H.
Qed.

Lemma NoDup_map_Some (a : list Z) : NoDup a -> NoDup (map Some a).
Proof.
  induction 1 as [|x l Hx _ IH]; simpl; constructor; trivial.
  intros Hin. apply in_map_iff in Hin. destruct Hin as [y [Hy Hin]].
  inversion Hy; subst. contradiction.
Qed.

(** The size of the set built from [a ++ b] equals the length of a
    duplicate-free [a] exactly when [b] brings nothing new. *)
Lemma set_size_app (a b : list (option Z)) :
  NoDup a -> (set_size (a ++ b) = List.length a <-> incl b a).
Proof.
  intros Ha. unfold set_size. split.
  - intros Hlen x Hx.
    assert (Hincl : incl (nodup option_Z_eq_dec (a ++ b)) a).
    { apply NoDup_length_incl; trivial.
      - rewrite Hlen. apply le_n.
      - intros y Hy. apply nodup_In. apply in_or_app. now left. }
    apply Hincl. apply nodup_In. apply in_or_app. now right.
  - intros Hb. apply Nat.le_antisymm.
    + apply NoDup_incl_length; [apply NoDup_nodup|].
      intros y Hy. apply nodup_In in Hy. apply in_app_or in Hy.
      destruct Hy as [Hy|Hy]; [trivial | now apply Hb].
    + apply NoDup_incl_length; trivial.
      intros y Hy. apply nodup_In. apply in_or_app. now left.
Qed.

(** On a duplicate-free [before], the tags comparison of the differ
    answers "unchanged" exactly when every tag of [after] is already in
    [before]: it sees added tags, not removed ones. *)
Lemma tags_differ_spec (tags0 tags1 : list Z) :
  NoDup tags0 ->
  (tags_differ tags0 (Val tags1) = false <-> incl tags1 tags0).
Proof.
  intros Hnd. unfold tags_differ, concat_tags.
  rewrite negb_false_iff, Nat.eqb_eq, map_app.
  rewrite <- incl_map_Some.
  rewrite <- (set_size_app (map Some tags1) (NoDup_map_Some Hnd)).
  rewrite length_map. split; intros H; now rewrite H.
Qed.

(** C5, evaluated on the code: with tags [[1; 2]] before and [[1]] after
    the two tag sets differ (tag 2 was removed), yet [compareRecords]
    reports no changed field: the size of the union, 2, equals the length
    of the tags before. *)
Example removed_tag_not_reported :
  s_tags before_sample = Val [1; 2]
  /\ s_tags after_sample = Val [1]
  /\ ~ (forall t : Z, In t [1; 2] <-> In t [1])
  /\ compareRecords [] 7 before_sample after_sample = Ok (Fields []).
Proof.
  repeat split.
  intros H. destruct (proj1 (H 2)) as [E|[]]; [simpl; auto | discriminate E].
Qed.

(** C6, as stated, fails: a snapshot whose title field is the empty
    string has a title field, and the differ answers with the creation
    marker when it is compared with itself. *)
Lemma empty_title_reads_as_creation :
  (exists t, s_title untitled_sample = Val t)
  /\ compareRecords [] 7 untitled_sample untitled_sample = Ok CREATED
  /\ compareRecords [] 7 untitled_sample untitled_sample <> Ok (Fields []).
Proof.
  split; [now exists EmptyString|]. split; [reflexivity | discriminate].
Qed.

(** C6, amended: for every snapshot [x] whose title is a non-empty
    string and whose tags are a list without duplicates, comparing [x]
    with itself yields the empty list of changed fields and no creation
    marker, whatever the scheme. *)
Theorem compareRecords_same (scheme : scheme_fields) (id : Z) (x : snapshot)
  (title : string) (tags : list Z) :
  s_title x = Val title ->
  title <> EmptyString ->
  s_tags x = Val tags ->
  NoDup tags ->
  compareRecords scheme id x x = Ok (Fields []).
Proof.
  intros Htitle Hne Htags Hnd. unfold compareRecords.
  rewrite Htitle, Htags.
  replace (Js.truthy_str (Val title)) with true
    by (destruct title; [contradiction | reflexivity]).
  simpl negb. cbv iota.
  rewrite (field_differs_same _ (Val title) String.eqb_refl).
  rewrite (field_differs_same _ (s_priority x) Z.eqb_refl).
  rewrite (field_differs_same _ (s_published x) Bool.eqb_reflx).
  rewrite (proj2 (tags_differ_spec tags Hnd) (incl_refl tags)).
  rewrite differs_same. unfold pushed at 1 2 3 4 5. simpl.
  do 2 f_equal.
  induction scheme as [|f rest IH]; simpl; trivial.
  now rewrite differs_same, IH.
Qed.

Lemma compareRecords_same_witness :
  compareRecords [("note", "Note")] 7 before_sample before_sample = Ok (Fields []).
Proof.
  apply (compareRecords_same [("note", "Note")] 7 before_sample (title := "Intro")
           (tags := [1; 2])).
  - reflexivity.
  - discriminate.
  - reflexivity.
  - repeat constructor; simpl; intuition lia.
Defined.

End Differ.

(** ** Accounts and statistics *)

Section Accounts.

(** C8, as stated, fails: [changeActivationStatus] called by the
    administrator 1 on the id 1 itself deactivates that account and
    answers with its id. *)
Lemma administrator_deactivates_self :
  a_id root = 1 /\ a_privs root = 1
  /\ fst (changeActivationStatus root (Val 1) false world_sample) = Ok (Id 1)
  /\ map (fun u => (u_id u, u_activated u))
       (users (committed (snd (changeActivationStatus root (Val 1) false world_sample))))
     = [(1, false); (2, true)].
Proof. repeat split. Qed.

Lemma user_controls_admin (current : actor) (id : string) (user : account) :
  a_privs current = 1 ->
  acc_activated user = true ->
  user_controls (Some current) id user
  = (if String.eqb (Js.String_of (a_id current)) id
     then [OwnAccountAlert] else [DeactivateButton])
    ++ [ResetPasswordButton; SaveButton]
    ++ (if 1 <? acc_privs user then [ElevationButtons] else []).
Proof.
  intros Hp Ha. unfold user_controls. simpl. rewrite Hp, Ha. simpl.
  now rewrite <- app_assoc.
Qed.

(** C8, amended: the identity comparison is made by the user view, not
    by the operation.  For an administrator looking at an activated
    account whose route id is the text of the administrator's own id, the
    view shows the own-account warning and no Deactivate button.  The
    operation [changeActivationStatus] is gated on the tier alone: called
    by an actor whose tier is not 1 it sends no statement, leaves the
    session as it is and answers with the empty object. *)
Theorem self_deactivation_guarded_by_view (current other : actor) (id : string)
  (user : account) (userId : field Z) (status : bool) (w : world) :
  a_privs current = 1 ->
  acc_activated user = true ->
  Js.String_of (a_id current) = id ->
  a_privs other <> 1 ->
  In OwnAccountAlert (user_controls (Some current) id user)
  /\ ~ In DeactivateButton (user_controls (Some current) id user)
  /\ changeActivationStatus other userId status w = (Ok NoData, w).
Proof.
  intros Hp Ha Hid Ho.
  rewrite (user_controls_admin current id user Hp Ha).
  rewrite Hid, String.eqb_refl.
  split; [simpl; auto|]. split.
  - simpl. destruct (1 <? acc_privs user); simpl; intuition discriminate.
  - unfold changeActivationStatus.
    apply Z.eqb_neq in Ho.
    destruct userId; trivial. now rewrite Ho, andb_false_r.
Qed.

Lemma self_deactivation_guarded_by_view_witness :
  In OwnAccountAlert
     (user_controls (Some root) "1" {| acc_id := Some 1; acc_privs := 1; acc_activated := true |})
  /\ ~ In DeactivateButton
       (user_controls (Some root) "1" {| acc_id := Some 1; acc_privs := 1; acc_activated := true |})
  /\ changeActivationStatus editor (Val 2) false world_sample = (Ok NoData, world_sample).
Proof.
  apply (self_deactivation_guarded_by_view root editor
           {| acc_id := Some 1; acc_privs := 1; acc_activated := true |}
           (Val 2) false world_sample).
  - reflexivity.
  - reflexivity.
  - reflexivity.
  - discriminate.
Defined.

(** What the three counters of [getStats] add up to: the comments whose
    [published] is [NULL] are in [total] and in neither of the others. *)
Lemma counts_split (cs : list comment) :
  Z.of_nat (List.length cs)
  = Sql.count (fun c => Sql.is_true_sql (c_published c)) cs
    + Sql.count (fun c => Sql.is_not_true_sql (c_published c)) cs
    + Sql.count (fun c => match c_published c with None => true | _ => false end) cs.
Proof.
  unfold Sql.count. induction cs as [|c cs IH]; trivial.
  simpl List.length. rewrite Nat2Z.inj_succ, IH.
  simpl. destruct (c_published c) as [[|]|]; simpl List.length;
    rewrite ?Nat2Z.inj_succ; lia.
Qed.

(** C9, evaluated on the code: after [setComment] has stored one
    published comment and one comment whose request had no [published]
    member (stored as [NULL]), [getStats] answers total 2, ready 1,
    draft 0. *)
Example completion_counts_miss_null :
  fst (setComment root published_params world_sample) = Ok (Data 1 (Some 1))
  /\ fst (setComment root unflagged_params (snd (setComment root published_params world_sample)))
     = Ok (Data 2 (Some 2))
  /\ map c_published (comments (committed world_two_comments)) = [Some true; None]
  /\ fst (getStats (Val 1) world_two_comments)
     = Ok (Stats {| total := 2; ready := 1; draft := 0 |})
  /\ 2 <> 1 + 0.
Proof. repeat split; vm_compute; congruence. Qed.

End Accounts.

(** ** Sessions: what a query can do *)

Section Sessions.

Lemma view_write (f : tables -> tables) (w : world) : view (write f w) = f (view w).
Proof. unfold view, write. destruct (txn w) eqn:E; simpl; now rewrite ?E. Qed.

Lemma view_tick (w : world) : view (tick w) = view w.
Proof. reflexivity. Qed.

Lemma view_record_stmt (s : stmt) (ok : bool) (w : world) :
  view (record_stmt s ok w) = view w.
Proof. reflexivity. Qed.

Lemma view_set_seqs (q : sequences) (w : world) : view (set_seqs q w) = view w.
Proof. reflexivity. Qed.

(** A query that returns rows has run its statement, and nothing else. *)
Lemma query_ok (s : stmt) (w w' : world) (r : rows) :
  query s w = (Ok r, w') ->
  faults w (List.length (trace w)) = false
  /\ exists w2, exec s (tick w) = Some (r, w2) /\ w' = record_stmt s true w2.
Proof.
  unfold query, one_client, send. destruct (faults w _); [discriminate|].
  destruct (exec s (tick w)) as [[r2 w2]|]; [|discriminate].
  intros H. inversion H; subst. eauto.
Qed.

Lemma spent_seqs (s : stmt) (w : world) : exists q, spent s w = set_seqs q w.
Proof.
  assert (E : w = set_seqs (seqs w) w) by (now destruct w).
  destruct s; simpl; eauto.
  destruct (Sql.well_formed v); eauto.
Qed.

(** A query that throws has changed neither the tables nor the
    transaction: at most a sequence has moved. *)
Lemma query_thrown (s : stmt) (w w' : world) (e : exn) :
  query s w = (Thrown e, w') ->
  exists q, w' = record_stmt s false (set_seqs q (tick w)).
Proof.
  unfold query, one_client, send. destruct (faults w _).
  - intros H. inversion H. exists (seqs w). now destruct w.
  - destruct (exec s (tick w)) as [[r2 w2]|]; intros H; inversion H.
    destruct (spent_seqs s (tick w)) as [q ->]. eauto.
Qed.

(** A query on which the store does not break and which the store
    accepts returns. *)
Lemma query_runs (s : stmt) (w w2 : world) (r : rows) :
  faults w (List.length (trace w)) = false ->
  exec s (tick w) = Some (r, w2) ->
  query s w = (Ok r, record_stmt s true w2).
Proof. intros Hf He. unfold query, one_client, send. now rewrite Hf, He. Qed.

Lemma any_In (i : Z) (ids : list Z) : Sql.any i ids = true <-> In i ids.
Proof.
  unfold Sql.any. rewrite existsb_exists. split.
  - intros [x [Hx E]]. apply Z.eqb_eq in E. now subst.
  - intros H. exists i. split; trivial. apply Z.eqb_refl.
Qed.

End Sessions.

Ltac thrown Q := apply query_thrown in Q; destruct Q as [? Q]; subst.

(** ** Binding a comment to strings *)

Section Bindings.

Variable cid : Z.

Lemma array_remove_absent (a : list Z) : ~ In cid (Sql.array_remove a cid).
Proof.
  unfold Sql.array_remove. intros H. apply filter_In in H.
  destruct H as [_ H]. now rewrite Z.eqb_refl in H.
Qed.

Lemma rebind_once (a : list Z) : count_occ Z.eq_dec (rebind cid a) cid = 1%nat.
Proof.
  unfold rebind, Sql.array_append. rewrite count_occ_app.
  rewrite (proj1 (count_occ_not_In Z.eq_dec _ cid) (array_remove_absent a)).
  simpl. now destruct (Z.eq_dec cid cid).
Qed.

Lemma rebind_rebind (a : list Z) : rebind cid (rebind cid a) = rebind cid a.
Proof.
  unfold rebind, Sql.array_append, Sql.array_remove.
  rewrite filter_app. simpl. rewrite Z.eqb_refl. simpl. rewrite app_nil_r.
  f_equal. induction a as [|x a IH]; simpl; trivial.
  destruct (x =? cid) eqn:E; simpl; trivial.
  now rewrite E, IH.
Qed.

Lemma update_comments_twice (ids : list Z) (f g : list Z -> list Z)
  (rs : list string_row) :
  Sql.update_comments_where ids g (Sql.update_comments_where ids f rs)
  = Sql.update_comments_where ids (fun a => g (f a)) rs.
Proof.
  unfold Sql.update_comments_where. rewrite map_map.
  apply map_ext. intros r.
  destruct (Sql.any (st_id r) ids) eqn:E; simpl; now rewrite E.
Qed.

(** A call of [setCommentForString] that returns rows has rebound the
    comment in every string listed, in the tables the session sees. *)
Lemma setCommentForString_ok (user : actor) (params : binding_params)
  (ids rws : list Z) (w w' : world) :
  b_id params = Val cid ->
  b_tokens params = Val ids ->
  setCommentForString user params w = (Ok (Bound rws), w') ->
  strings (view w') = Sql.update_comments_where ids (rebind cid) (strings (view w)).
Proof.
  intros Hid Htok. unfold setCommentForString. rewrite Hid, Htok.
  destruct (negb (cid =? 0) && negb (Nat.eqb (List.length ids) 0)); [|discriminate].
  unfold try_catch, bind.
  destruct (query (ArrayRemove cid ids) w) as [[r1|e1] w1] eqn:Q1; [|discriminate].
  destruct (query (ArrayAppend cid ids) w1) as [[r2|e2] w2] eqn:Q2; [|discriminate].
  unfold ret. intros H. inversion H; subst. clear H.
  apply query_ok in Q1. destruct Q1 as [_ [x1 [E1 ->]]].
  apply query_ok in Q2. destruct Q2 as [_ [x2 [E2 ->]]].
  simpl in E1. inversion E1; subst. clear E1.
  simpl in E2. inversion E2; subst. clear E2.
  rewrite view_record_stmt, view_write. simpl strings.
  rewrite view_tick, view_record_stmt, view_write. simpl strings.
  rewrite view_tick. now rewrite update_comments_twice.
Qed.

(** C10: after a call of [setCommentForString] that returned rows, every
    string whose id is among the given ones holds the comment id exactly
    once in its array, and a second such call leaves the strings as the
    first one left them. *)
Theorem setCommentForString_binds_once (user : actor) (params : binding_params)
  (ids rws : list Z) (w w1 : world) :
  b_id params = Val cid ->
  b_tokens params = Val ids ->
  setCommentForString user params w = (Ok (Bound rws), w1) ->
  (forall r, In r (strings (view w1)) -> In (st_id r) ids ->
             count_occ Z.eq_dec (st_comments r) cid = 1%nat)
  /\ (forall rws2 w2, setCommentForString user params w1 = (Ok (Bound rws2), w2) ->
                      strings (view w2) = strings (view w1)).
Proof.
  intros Hid Htok Hrun.
  pose proof (setCommentForString_ok user params w Hid Htok Hrun) as H1.
  split.
  - intros r Hr Hin. rewrite H1 in Hr.
    unfold Sql.update_comments_where in Hr. apply in_map_iff in Hr.
    destruct Hr as [r0 [Hr0 _]].
    destruct (Sql.any (st_id r0) ids) eqn:E; subst r.
    + simpl. apply rebind_once.
    + apply any_In in Hin. congruence.
  - intros rws2 w2 Hrun2.
    rewrite (setCommentForString_ok user params w1 Hid Htok Hrun2), H1.
    rewrite update_comments_twice.
    unfold Sql.update_comments_where. apply map_ext. intros r.
    destruct (Sql.any (st_id r) ids); trivial.
    unfold Sql.set_string_comments. simpl. now rewrite rebind_rebind.
Qed.

End Bindings.

Lemma setCommentForString_binds_once_witness :
  (forall r,
      In r (strings (view (snd (setCommentForString root binding_sample world_strings_sample)))) ->
      In (st_id r) [1; 2] ->
      count_occ Z.eq_dec (st_comments r) 7 = 1%nat)
  /\ (forall rws2 w2,
        setCommentForString root binding_sample
          (snd (setCommentForString root binding_sample world_strings_sample))
        = (Ok (Bound rws2), w2) ->
        strings (view w2)
        = strings (view (snd (setCommentForString root binding_sample world_strings_sample)))).
Proof.
  apply (setCommentForString_binds_once (cid := 7) root binding_sample (ids := [1; 2])
           (rws := [1; 2]) world_strings_sample).
  - reflexivity.
  - reflexivity.
  - reflexivity.
Defined.

(** ** Paging through the log *)

Section Logs.

Lemma leb_trans : Transitive (fun a b => is_true (LogOrder.leb a b)).
Proof.
  intros a b c. unfold is_true, LogOrder.leb.
  rewrite !orb_true_iff, !andb_true_iff, !Z.ltb_lt, !Z.eqb_eq, !Z.leb_le. lia.
Qed.

Lemma leb_newer (a b : log) :
  LogOrder.leb a b = true -> l_id a <> l_id b -> newer a b.
Proof.
  unfold LogOrder.leb, newer.
  rewrite orb_true_iff, andb_true_iff, Z.ltb_lt, Z.eqb_eq, Z.leb_le. lia.
Qed.

(** Filtering the logs keeps their ids pairwise distinct. *)
Lemma filter_keeps_distinct_ids (keep : log -> bool) (ls : list log) :
  NoDup (map l_id ls) -> NoDup (map l_id (filter keep ls)).
Proof.
  induction ls as [|x ls IH]; simpl; trivial.
  intros H. inversion H as [|y ys Hx Hl]; subst.
  destruct (keep x); simpl; auto.
  constructor; auto.
  intros Hin. apply Hx. apply in_map_iff in Hin. destruct Hin as [z [Hz Hin]].
  apply in_map_iff. exists z. split; trivial. apply filter_In in Hin. tauto.
Qed.

Lemma StronglySorted_skipn (A : Type) (R : A -> A -> Prop) (n : nat) (l : list A) :
  StronglySorted R l -> StronglySorted R (skipn n l).
Proof.
  revert l. induction n as [|n IH]; intros l H; simpl; trivial.
  destruct l as [|x l]; trivial. apply IH. now inversion H.
Qed.

Lemma StronglySorted_firstn (A : Type) (R : A -> A -> Prop) (n : nat) (l : list A) :
  StronglySorted R l -> StronglySorted R (firstn n l).
Proof.
  revert l. induction n as [|n IH]; intros l H; simpl; [constructor|].
  destruct l as [|x l]; [constructor|].
  inversion H as [|y ys Hs Hall]; subst. constructor; auto.
  rewrite Forall_forall in *. intros z Hz. apply Hall.
  rewrite <- (firstn_skipn n l). apply in_or_app. now left.
Qed.

(** A list sorted for the [ORDER BY] and whose ids are pairwise distinct
    lists every row strictly before the rows that follow it. *)
Lemma sorted_strictly (l : list log) :
  StronglySorted (fun a b => is_true (LogOrder.leb a b)) l ->
  NoDup (map l_id l) ->
  StronglySorted newer l.
Proof.
  induction 1 as [|a l Hs IH Hall]; intros Hnd; [constructor|].
  simpl in Hnd. inversion Hnd as [|x xs Hx Hl]; subst.
  constructor; auto.
  rewrite Forall_forall in *. intros b Hb. apply leb_newer; [now apply Hall|].
  intros E. apply Hx. rewrite E. now apply in_map.
Qed.

(** The rows selected by [getLogs] before [OFFSET] and [LIMIT]. *)
Lemma selected_sorted (record : option Z) (text : Z) (ls : list log) :
  NoDup (map l_id ls) ->
  StronglySorted newer (LogSort.sort (filter (Sql.log_where record text) ls)).
Proof.
  intros Hnd. apply sorted_strictly.
  - apply LogSort.StronglySorted_sort. exact leb_trans.
  - apply (Permutation_NoDup (l := map l_id (filter (Sql.log_where record text) ls))).
    + apply Permutation_map. apply LogSort.Permuted_sort.
    + now apply filter_keeps_distinct_ids.
Qed.

Lemma selected_length (record : option Z) (text : Z) (ls : list log) :
  List.length (LogSort.sort (filter (Sql.log_where record text) ls))
  = List.length (filter (Sql.log_where record text) ls).
Proof. symmetry. apply Permutation_length. apply LogSort.Permuted_sort. Qed.

Lemma selected_where (record : option Z) (text : Z) (ls : list log) :
  Forall (fun l => Sql.log_where record text l = true)
         (LogSort.sort (filter (Sql.log_where record text) ls)).
Proof.
  rewrite Forall_forall. intros l Hl.
  apply (Permutation_in (l' := filter (Sql.log_where record text) ls)) in Hl.
  - apply filter_In in Hl. tauto.
  - apply Permutation_sym. apply LogSort.Permuted_sort.
Qed.

Lemma or_default_zero (x : Z) : Js.or_default (Some x) 0 = x.
Proof. simpl. destruct (Z.eqb_spec x 0); congruence. Qed.

Lemma or_default_nonzero (x d : Z) : x <> 0 -> Js.or_default (Some x) d = x.
Proof. intros H. simpl. destruct (Z.eqb_spec x 0); congruence. Qed.

(** C3: for a text id and an optional comment id (ids are not 0), a
    page size [P >= 1] and a page number [k >= 1], on a session where the
    two queries do not break and the ids of the logs are pairwise
    distinct, [getLogs] returns: [min P (N - (k - 1) * P)] rows, [N]
    being the number of logs that match the filter; as count, [N]; the
    rows in strictly descending order of creation time, ties broken by
    descending id; and only rows that match the filter. *)
Theorem getLogs_page (text : Z) (comment : option Z) (P k : nat) (w : world) :
  text <> 0 ->
  comment <> Some 0 ->
  (1 <= P)%nat ->
  (1 <= k)%nat ->
  faults w (List.length (trace w)) = false ->
  faults w (S (List.length (trace w))) = false ->
  NoDup (map l_id (logs (view w))) ->
  let N := List.length (filter (Sql.log_where comment text) (logs (view w))) in
  exists page w',
    getLogs (page_request text comment P k) w = (Ok page, w')
    /\ List.length (data page) = Nat.min P (N - (k - 1) * P)
    /\ count page = Z.of_nat N
    /\ StronglySorted newer (map fst (data page))
    /\ Forall (fun l => Sql.log_where comment text l = true) (map fst (data page)).
Proof.
  intros Htext Hcomment HP Hk Hf1 Hf2 Hnd N.
  unfold getLogs, page_request. cbn [lp_id lp_offset lp_limit lp_comment bound Js.Number].
  assert (HP' : Z.of_nat P <> 0) by lia.
  rewrite or_default_zero, (or_default_nonzero 50 HP'), (or_default_nonzero 1 Htext).
  replace (match Js.Number match comment with Some c => Val c | None => Absent end with
           | Some c => if c =? 0 then None else Some c
           | None => None
           end) with comment.
  2:{ destruct comment as [c|]; simpl; trivial.
      destruct (Z.eqb_spec c 0); congruence. }
  set (off := Z.of_nat ((k - 1) * P)). set (lim := Z.of_nat P).
  set (sel := LogSort.sort (filter (Sql.log_where comment text) (logs (view w)))).
  set (pg := firstn (Z.to_nat lim) (skipn (Z.to_nat off) sel)).
  set (rws := map (fun l => (l, Sql.any (l_record_id l) (map c_id (comments (view w))))) pg).
  assert (E1 : exec (SelectLogs comment text off lim) (tick w) = Some (LogRows rws, tick w)).
  { simpl. replace ((off <? 0) || (lim <? 0)) with false; trivial.
    symmetry. apply orb_false_iff. split; apply Z.ltb_ge; apply Nat2Z.is_nonneg. }
  pose proof (query_runs _ w Hf1 E1) as Q1.
  set (w1 := record_stmt (SelectLogs comment text off lim) true (tick w)) in *.
  assert (E2 : exec (CountLogs comment text) (tick w1)
               = Some (Count (Z.of_nat N), tick w1)) by reflexivity.
  assert (Hf2' : faults w1 (List.length (trace w1)) = false).
  { unfold w1. simpl. now rewrite length_app, Nat.add_1_r. }
  pose proof (query_runs _ w1 Hf2' E2) as Q2.
  eexists. eexists. split.
  { unfold bind. rewrite Q1, Q2. reflexivity. }
  cbn [data count].
  assert (Hfst : map fst rws = pg).
  { unfold rws. rewrite map_map. simpl. apply map_id. }
  split; [|split; [reflexivity|split]].
  - unfold rws. rewrite length_map. unfold pg.
    rewrite length_firstn, length_skipn. unfold sel. rewrite selected_length.
    unfold lim, off. rewrite !Nat2Z.id. reflexivity.
  - rewrite Hfst. unfold pg.
    apply StronglySorted_firstn, StronglySorted_skipn. now apply selected_sorted.
  - rewrite Hfst. unfold pg. rewrite Forall_forall. intros l Hl.
    pose proof (selected_where comment text (logs (view w))) as Hall.
    rewrite Forall_forall in Hall. apply Hall. fold sel.
    rewrite <- (firstn_skipn (Z.to_nat off) sel). apply in_or_app. right.
    rewrite <- (firstn_skipn (Z.to_nat lim) (skipn (Z.to_nat off) sel)).
    apply in_or_app. now left.
Qed.

End Logs.

Lemma getLogs_page_witness :
  let N := List.length (filter (Sql.log_where None 1) (logs (view world_two_comments))) in
  exists page w',
    getLogs (page_request 1 None 1 2) world_two_comments = (Ok page, w')
    /\ List.length (data page) = Nat.min 1 (N - (2 - 1) * 1)
    /\ count page = Z.of_nat N
    /\ StronglySorted newer (map fst (data page))
    /\ Forall (fun l => Sql.log_where None 1 l = true) (map fst (data page)).
Proof.
  apply (@getLogs_page 1 None 1%nat 2%nat world_two_comments).
  - discriminate.
  - discriminate.
  - apply le_n.
  - apply le_S, le_n.
  - reflexivity.
  - reflexivity.
  - vm_compute. repeat constructor; simpl; intuition discriminate.
Defined.

(** ** Transactions *)

Ltac case_exec H :=
  repeat match type of H with
         | context [match ?x with _ => _ end] => destruct x eqn:?
         | context [if ?x then _ else _] => destruct x eqn:?
         end;
  try discriminate H; inversion H; subst; clear H.

(** On one session a statement sent to a client is a query. *)
Ltac on_session :=
  repeat match goal with
         | H : context [@client_query world one_client ?c] |- _ =>
             change (@client_query world one_client c) with (@query world one_client) in H
         | |- context [@client_query world one_client ?c] =>
             change (@client_query world one_client c) with (@query world one_client)
         | H : context [send] |- _ => change send with (@query world one_client) in H
         | |- context [send] => change send with (@query world one_client)
         end.

Ltac step Q w1 :=
  on_session;
  match goal with
  | H : context [match query ?s ?w with _ => _ end] |- _ =>
      let r := fresh "r" in
      let e := fresh "e" in
      destruct (query s w) as [[r|e] w1] eqn:Q; cbv beta iota in H
  end.

Section Transactions.

Lemma write_in_txn (f : tables -> tables) (c : tables) (w : world) :
  in_txn c w -> in_txn c (write f w).
Proof.
  unfold in_txn, write. intros [Hc Ht].
  destruct (txn w) as [t|]; [|contradiction]. simpl. split; [trivial|discriminate].
Qed.

(** A statement that runs leaves the trace, the clock and the fault
    schedule alone. *)
Lemma exec_frame (s : stmt) (w w2 : world) (r : rows) :
  exec s w = Some (r, w2) ->
  trace w2 = trace w /\ faults w2 = faults w /\ now w2 = now w.
Proof.
  intros H. destruct s; simpl in H; case_exec H; unfold write; simpl;
    repeat match goal with
           | |- context [match txn ?w with _ => _ end] => destruct (txn w)
           end; simpl; auto.
Qed.

(** Inside a transaction only [COMMIT] touches the committed tables and
    only [COMMIT] and [ROLLBACK] close the transaction. *)
Lemma exec_in_txn (c : tables) (s : stmt) (w w2 : world) (r : rows) :
  in_txn c w -> s <> COMMIT -> s <> ROLLBACK ->
  exec s w = Some (r, w2) -> in_txn c w2.
Proof.
  intros Hin Hc Hr H.
  destruct s; try congruence; simpl in H; case_exec H;
    try apply write_in_txn; trivial;
    destruct Hin as [Hcm Ht]; split; simpl; trivial; congruence.
Qed.

Lemma query_in_txn (c : tables) (s : stmt) (w w' : world) (o : outcome rows) :
  in_txn c w -> s <> COMMIT -> s <> ROLLBACK ->
  query s w = (o, w') -> in_txn c w'.
Proof.
  intros Hin Hc Hr Q. destruct o as [r|e].
  - apply query_ok in Q. destruct Q as [_ [w2 [E ->]]].
    exact (@exec_in_txn c s (tick w) w2 r Hin Hc Hr E).
  - thrown Q; easy.
Qed.

(** [ROLLBACK] never changes the committed tables. *)
Lemma query_rollback (w w' : world) (o : outcome rows) :
  query ROLLBACK w = (o, w') -> committed w' = committed w.
Proof.
  intros Q. destruct o as [r|e].
  - apply query_ok in Q. destruct Q as [_ [w2 [E ->]]].
    simpl in E. now inversion E.
  - thrown Q; easy.
Qed.

(** A query extends the trace by its statement, marked with whether it
    returned. *)
Lemma query_trace (s : stmt) (w w' : world) (o : outcome rows) :
  query s w = (o, w') ->
  trace w' = trace w ++ [(s, match o with Ok _ => true | Thrown _ => false end)].
Proof.
  intros Q. destruct o as [r|e].
  - apply query_ok in Q. destruct Q as [_ [w2 [E ->]]].
    apply exec_frame in E. simpl. destruct E as [-> _]. reflexivity.
  - thrown Q; easy.
Qed.

Lemma failed_statements_app (w w' : world) (tr : list (stmt * bool)) :
  trace w' = trace w ++ tr ->
  failed_statements w w' = map fst (filter (fun x => negb (snd x)) tr).
Proof.
  intros E. unfold failed_statements. rewrite E, skipn_app, skipn_all, Nat.sub_diag.
  reflexivity.
Qed.

End Transactions.

(** ** Ingestion *)

Section Ingestion.

Variables (textId : option Z) (langId : option string).

Lemma insert_items_in_txn (client : nat) (c : tables) (batch : list item) :
  forall w o w',
    in_txn c w -> insert_items client textId langId batch w = (o, w') -> in_txn c w'.
Proof.
  induction batch as [|it rest IH]; intros w o w' Hin H; simpl in H.
  - unfold ret in H. now inversion H; subst.
  - unfold bind in H.
    step Q1 x1; [|inversion H; subst; eapply query_in_txn; eauto; discriminate].
    apply query_in_txn with (c := c) in Q1; trivial; try discriminate.
    step Q2 x2; [|inversion H; subst; eapply query_in_txn; eauto; discriminate].
    apply query_in_txn with (c := c) in Q2; trivial; try discriminate.
    eauto.
Qed.

(** A loop that completes has had every statement succeed. *)
Lemma insert_items_trace (client : nat) (batch : list item) :
  forall w o w',
    insert_items client textId langId batch w = (o, w') ->
    exists tr, trace w' = trace w ++ tr
               /\ (o = Ok tt -> filter (fun x : stmt * bool => negb (snd x)) tr = []).
Proof.
  induction batch as [|it rest IH]; intros w o w' H; simpl in H.
  - unfold ret in H. inversion H; subst. exists []. now rewrite app_nil_r.
  - unfold bind in H.
    step Q1 x1.
    2:{ inversion H; subst. apply query_trace in Q1. eexists. split; [exact Q1|discriminate]. }
    apply query_trace in Q1.
    step Q2 x2.
    2:{ inversion H; subst. apply query_trace in Q2. rewrite Q1 in Q2.
        eexists. split; [rewrite Q2, <- app_assoc; reflexivity|discriminate]. }
    apply query_trace in Q2.
    apply IH in H. destruct H as [tr [Htr Hok]].
    eexists. split.
    + rewrite Htr, Q2, Q1, <- !app_assoc. reflexivity.
    + intros E. simpl. now apply Hok.
Qed.

(** The two ways a call of [insertBatchIntoStrings] ends: the elapsed
    time, every statement having succeeded and the work of the loop being
    committed; or a failure signal, with the committed tables as they
    were. *)
Lemma insertBatchIntoStrings_outcome (batch : list item) (noStdout : bool)
  (w w' : world) (o : outcome batch_result) :
  txn w = None ->
  insertBatchIntoStrings textId batch langId noStdout w = (o, w') ->
  (exists e w1 w2,
      o = Ok (Secs e) /\ failed_statements w w' = []
      /\ view w1 = committed w /\ txn w1 <> None
      /\ insert_items 0%nat textId langId batch w1 = (Ok tt, w2)
      /\ tokens (committed w') = tokens (view w2))
  \/ (committed w' = committed w /\ (o = Ok Undefined \/ exists e, o = Thrown e)).
Proof.
  intros Hidle H.
  unfold insertBatchIntoStrings in H.
  cbn [performance_now connect release one_client] in H.
  unfold try_finally, try_catch, bind, ret in H.
  step Q0 x0.
  2:{ inversion H; subst. right. thrown Q0. simpl. eauto. }
  pose proof (query_trace _ _ Q0) as T0.
  apply query_ok in Q0. destruct Q0 as [_ [x [E ->]]]. simpl in E. inversion E; subst x r.
  clear E.
  set (w0 := record_stmt CONNECT true (tick w)) in *.
  assert (C0 : committed w0 = committed w) by reflexivity.
  step Q1 x1.
  - (* BEGIN has opened the transaction *)
    pose proof (query_trace _ _ Q1) as T1.
    apply query_ok in Q1. destruct Q1 as [_ [x [E ->]]]. simpl in E. rewrite Hidle in E.
    inversion E; subst x r. clear E.
    set (w1 := record_stmt BEGIN true _) in *.
    assert (I1 : in_txn (committed w) w1) by (split; [reflexivity|discriminate]).
    destruct (insert_items 0%nat textId langId batch w1) as [[[]|e2] w2] eqn:Q2;
      cbv beta iota in H.
    + pose proof (@insert_items_in_txn 0%nat (committed w) batch w1 _ w2 I1 Q2) as I2.
      destruct (@insert_items_trace 0%nat batch w1 _ w2 Q2) as [tr [T2 Hok]].
      specialize (Hok eq_refl).
      step Q3 w3.
      * pose proof (query_trace _ _ Q3) as T3.
        assert (I3 : in_txn (committed w) w3)
          by (eapply query_in_txn; [exact I2| | |exact Q3]; discriminate).
        assert (V3 : tokens (view w3) = tokens (view w2)).
        { apply query_ok in Q3. destruct Q3 as [_ [x [E ->]]]. simpl in E.
          inversion E; subst. rewrite view_record_stmt, view_write. reflexivity. }
        step Q4 w4.
        -- (* committed *)
           pose proof (query_trace _ _ Q4) as T4.
           inversion H; subst. left. eexists. exists w1, w2.
           split; [reflexivity|]. split.
           { rewrite (@failed_statements_app w _
                        ([(CONNECT, true); (BEGIN, true)] ++ tr
                         ++ [(LinkTokens langId, true); (COMMIT, true)])).
             - rewrite !filter_app, Hok. reflexivity.
             - rewrite T4, T3, T2, T1, T0, <- !app_assoc. reflexivity. }
           split; [reflexivity|]. split; [discriminate|]. split; [exact Q2|].
           rewrite <- V3.
           apply query_ok in Q4. destruct Q4 as [_ [x [E ->]]]. simpl in E.
           destruct I3 as [_ Ht]. unfold view.
           destruct (txn w3) as [t|]; [|contradiction].
           inversion E. reflexivity.
        -- (* COMMIT broke *)
           step Q5 w5; inversion H; subst; right;
             (split; [|eauto]);
             rewrite (query_rollback _ Q5); thrown Q4;
             apply I3.
      * step Q5 w5; inversion H; subst; right;
          (split; [|eauto]);
          rewrite (query_rollback _ Q5);
          (eapply query_in_txn; [exact I2| | |exact Q3]; discriminate).
    + pose proof (@insert_items_in_txn 0%nat (committed w) batch w1 _ w2 I1 Q2) as I2.
      step Q5 w5; inversion H; subst; right;
        (split; [|eauto]);
        rewrite (query_rollback _ Q5); apply I2.
  - (* BEGIN broke *)
    thrown Q1.
    step Q5 w5; inversion H; subst; right;
      (split; [|eauto]); now rewrite (query_rollback _ Q5).
Qed.

(** A [ROLLBACK] that is served closes the transaction. *)
Lemma query_rollback_closes (w w' : world) (r : rows) :
  query ROLLBACK w = (Ok r, w') -> txn w' = None.
Proof.
  intros Q. apply query_ok in Q. destruct Q as [_ [w2 [E ->]]].
  simpl in E. now inversion E.
Qed.

(** A statement that throws leaves the transaction as it is. *)
Lemma query_thrown_txn (s : stmt) (w w' : world) (e : exn) :
  query s w = (Thrown e, w') -> txn w' = txn w.
Proof. intros Q. thrown Q. reflexivity. Qed.

(** A [ROLLBACK] sent after the statements [pre] ends the call. *)
Lemma rollback_ends (w wx w' : world) (pre : list (stmt * bool)) (o : outcome rows) :
  trace wx = trace w ++ pre ->
  query ROLLBACK wx = (o, w') ->
  ended_with w w' ROLLBACK (match o with Ok _ => true | Thrown _ => false end).
Proof.
  intros T Q. apply query_trace in Q. exists pre. now rewrite Q, T, <- app_assoc.
Qed.

(** How a call of [insertBatchIntoStrings] that does not return the
    elapsed time has ended.  Either it returned [undefined]: then
    [ROLLBACK] was the last statement sent, it was served, and no
    transaction is open.  Or it threw: then the checkout of the client
    had failed, nothing else being sent, or the store broke on the
    [ROLLBACK] that was the last statement sent. *)
Lemma insertBatchIntoStrings_closing (batch : list item) (noStdout : bool)
  (w w' : world) (o : outcome batch_result) :
  txn w = None ->
  insertBatchIntoStrings textId batch langId noStdout w = (o, w') ->
  (forall secs, o <> Ok (Secs secs)) ->
  (o = Ok Undefined /\ txn w' = None /\ ended_with w w' ROLLBACK true)
  \/ ((exists e, o = Thrown e)
      /\ ((trace w' = trace w ++ [(CONNECT, false)] /\ txn w' = None)
          \/ ended_with w w' ROLLBACK false)).
Proof.
  intros Hidle H Hnot.
  unfold insertBatchIntoStrings in H.
  cbn [performance_now connect release one_client] in H.
  unfold try_finally, try_catch, bind, ret in H.
  step Q0 x0.
  2:{ inversion H; subst. right. split; [eauto|]. left.
      pose proof (query_trace _ _ Q0) as T0. pose proof (@query_thrown_txn _ _ _ _ Q0) as X0.
      split; [exact T0|]. now rewrite X0. }
  pose proof (query_trace _ _ Q0) as T0. cbv beta iota in T0.
  assert (Closing : forall wx pre o5 w5,
             trace wx = trace w ++ pre ->
             query ROLLBACK wx = (o5, w5) ->
             (exists r5, o5 = Ok r5 /\ txn w5 = None /\ ended_with w w5 ROLLBACK true)
             \/ (exists e5, o5 = Thrown e5 /\ ended_with w w5 ROLLBACK false)).
  { intros wx pre o5 w5 T Q. pose proof (@rollback_ends w wx w5 pre o5 T Q) as R.
    destruct o5 as [r5|e5]; [left|right]; eexists; split; try reflexivity; trivial.
    split; [|exact R]. exact (@query_rollback_closes wx w5 r5 Q). }
  assert (Finish : forall wx pre,
             trace wx = trace w ++ pre ->
             (let (o0, w2) := query ROLLBACK wx in
              match o0 with
              | Ok _ => (Ok true, w2)
              | Thrown e0 => (@Thrown bool e0, w2)
              end) = (match o with
                      | Ok Undefined => Ok true
                      | Ok (Secs _) => Ok false
                      | Thrown e => Thrown e
                      end, w') ->
             (o = Ok Undefined /\ txn w' = None /\ ended_with w w' ROLLBACK true)
             \/ ((exists e, o = Thrown e)
                 /\ ((trace w' = trace w ++ [(CONNECT, false)] /\ txn w' = None)
                     \/ ended_with w w' ROLLBACK false))).
  { intros wx pre T E.
    destruct (query ROLLBACK wx) as [o5 w5] eqn:Q5.
    destruct (Closing wx pre o5 w5 T Q5) as [[r5 [-> [Hc He]]]|[e5 [-> He]]].
    - destruct o as [[|secs]|e]; inversion E; subst. left. auto.
    - destruct o as [[|secs]|e]; inversion E; subst. right. split; [eauto|]. now right. }
  (* every failing path ends in the handler, which sends ROLLBACK *)
  step Q1 x1.
  - pose proof (query_trace _ _ Q1) as T1. cbv beta iota in T1.
    destruct (insert_items 0%nat textId langId batch x1) as [[[]|e2] w2] eqn:Q2;
      cbv beta iota in H.
    + destruct (@insert_items_trace 0%nat batch x1 _ w2 Q2) as [tr [T2 _]].
      step Q3 w3.
      * pose proof (query_trace _ _ Q3) as T3. cbv beta iota in T3.
        step Q4 w4.
        -- exfalso. inversion H; subst. eapply Hnot. reflexivity.
        -- pose proof (query_trace _ _ Q4) as T4. cbv beta iota in T4.
           apply (Finish w4 ([(CONNECT, true); (BEGIN, true)] ++ tr
                            ++ [(LinkTokens langId, true); (COMMIT, false)])).
           ++ rewrite T4, T3, T2, T1, T0, <- !app_assoc. reflexivity.
           ++ destruct (query ROLLBACK w4) as [[r5|e5] w5]; inversion H; subst; reflexivity.
      * pose proof (query_trace _ _ Q3) as T3. cbv beta iota in T3.
        apply (Finish w3 ([(CONNECT, true); (BEGIN, true)] ++ tr
                         ++ [(LinkTokens langId, false)])).
        -- rewrite T3, T2, T1, T0, <- !app_assoc. reflexivity.
        -- destruct (query ROLLBACK w3) as [[r5|e5] w5]; inversion H; subst; reflexivity.
    + destruct (@insert_items_trace 0%nat batch x1 _ w2 Q2) as [tr [T2 _]].
      apply (Finish w2 ([(CONNECT, true); (BEGIN, true)] ++ tr)).
      * rewrite T2, T1, T0, <- !app_assoc. reflexivity.
      * destruct (query ROLLBACK w2) as [[r5|e5] w5]; inversion H; subst; reflexivity.
  - pose proof (query_trace _ _ Q1) as T1. cbv beta iota in T1.
    apply (Finish x1 [(CONNECT, true); (BEGIN, false)]).
    + rewrite T1, T0, <- !app_assoc. reflexivity.
    + destruct (query ROLLBACK x1) as [[r5|e5] w5]; inversion H; subst; reflexivity.
Qed.

Lemma ended_with_failed (w w' : world) (s : stmt) :
  ended_with w w' s false -> In s (failed_statements w w').
Proof.
  intros [tr E]. rewrite (@failed_statements_app w w' _ E).
  rewrite filter_app, map_app. apply in_or_app. right. simpl. now left.
Qed.

(** C2: when any statement of a call of [insertBatchIntoStrings] fails,
    be it the last one, the committed tables are what they were before
    the call (no row of [strings] or [tokens] of the batch stays) and the
    call ends with [undefined] or with an exception, never with the
    elapsed time.  The transaction is rolled back: when the call returns
    [undefined], [ROLLBACK] was the last statement sent, it was served and
    no transaction is left open, so that the session sees the tables as
    they were.  When the call throws, either the client could not be
    checked out, and no transaction was opened, or the store broke on the
    [ROLLBACK] itself, sent last.  So, unless it is the [ROLLBACK] that
    the store breaks on, no transaction is open after the call. *)
Theorem insertBatchIntoStrings_all_or_nothing (batch : list item) (noStdout : bool)
  (w w' : world) (o : outcome batch_result) :
  txn w = None ->
  insertBatchIntoStrings textId batch langId noStdout w = (o, w') ->
  failed_statements w w' <> [] ->
  committed w' = committed w
  /\ (o = Ok Undefined \/ exists e, o = Thrown e)
  /\ (forall secs, o <> Ok (Secs secs))
  /\ ((o = Ok Undefined /\ txn w' = None /\ view w' = committed w
       /\ ended_with w w' ROLLBACK true)
      \/ ((exists e, o = Thrown e)
          /\ ((trace w' = trace w ++ [(CONNECT, false)] /\ txn w' = None)
              \/ ended_with w w' ROLLBACK false)))
  /\ (~ In ROLLBACK (failed_statements w w') -> txn w' = None /\ view w' = committed w).
Proof.
  intros Hidle Hrun Hfail.
  destruct (@insertBatchIntoStrings_outcome batch noStdout w w' o Hidle Hrun)
    as [[e [w1 [w2 [_ [Hnone _]]]]] | [Hc Ho]]; [contradiction|].
  assert (Hnot : forall secs, o <> Ok (Secs secs)).
  { intros secs E. destruct Ho as [Ho|[x Ho]]; congruence. }
  split; [exact Hc|]. split; [exact Ho|]. split; [exact Hnot|].
  assert (Hview : txn w' = None -> view w' = committed w).
  { intros Ht. unfold view. rewrite Ht. exact Hc. }
  destruct (@insertBatchIntoStrings_closing batch noStdout w w' o Hidle Hrun Hnot)
    as [[Hu [Ht He]]|[Hthrown [[Hconn Ht]|Hroll]]].
  - split; [left; repeat split; auto|]. intros _. auto.
  - split; [right; split; [exact Hthrown|left; auto]|]. intros _. auto.
  - split; [right; split; [exact Hthrown|right; exact Hroll]|].
    intros Hn. exfalso. apply Hn. now apply ended_with_failed.
Qed.

End Ingestion.

Lemma insertBatchIntoStrings_all_or_nothing_witness :
  let run := insertBatchIntoStrings (Some 1) [cat; capital_cat] (Some "en") true
               (world_breaking_at 5) in
  committed (snd run) = committed (world_breaking_at 5)
  /\ (fst run = Ok Undefined \/ exists e, fst run = Thrown e)
  /\ (forall secs, fst run <> Ok (Secs secs))
  /\ ((fst run = Ok Undefined /\ txn (snd run) = None
       /\ view (snd run) = committed (world_breaking_at 5)
       /\ ended_with (world_breaking_at 5) (snd run) ROLLBACK true)
      \/ ((exists e, fst run = Thrown e)
          /\ ((trace (snd run) = trace (world_breaking_at 5) ++ [(CONNECT, false)]
               /\ txn (snd run) = None)
              \/ ended_with (world_breaking_at 5) (snd run) ROLLBACK false)))
  /\ (~ In ROLLBACK (failed_statements (world_breaking_at 5) (snd run)) ->
      txn (snd run) = None /\ view (snd run) = committed (world_breaking_at 5)).
Proof.
  apply (@insertBatchIntoStrings_all_or_nothing (Some 1) (Some "en") [cat; capital_cat] true
           (world_breaking_at 5)
           (snd (insertBatchIntoStrings (Some 1) [cat; capital_cat] (Some "en") true
                   (world_breaking_at 5)))
           (fst (insertBatchIntoStrings (Some 1) [cat; capital_cat] (Some "en") true
                   (world_breaking_at 5)))).
  - reflexivity.
  - apply surjective_pairing.
  - vm_compute. discriminate.
Defined.

(** ** Deduplication of tokens *)

Section Dedup.

Variables (textId : option Z) (r l : string).

Lemma existsb_filter (A : Type) (p : A -> bool) (xs : list A) :
  existsb p xs = false <-> filter p xs = [].
Proof.
  induction xs as [|x xs IH]; simpl; [tauto|].
  destruct (p x); simpl; [split; discriminate | exact IH].
Qed.

(** What one [INSERT ... ON CONFLICT DO NOTHING] does to the metadata
    kept for the pair [(r, l)]. *)
Lemma token_rows_insert (tok : string) (meta : option string) (id : Z) (toks : list token) :
  map t_meta
      (token_rows r l
         (if existsb (fun t => String.eqb (t_token t) tok && Sql.text_eq (t_lang t) (Some l)) toks
          then toks
          else toks ++ [{| t_id := id; t_token := tok; t_meta := meta; t_lang := Some l |}]))
  = match map t_meta (token_rows r l toks) with
    | [] => if String.eqb tok r then [meta] else []
    | ms => ms
    end.
Proof.
  unfold token_rows.
  destruct (String.eqb_spec tok r) as [->|Hne].
  - destruct (existsb _ toks) eqn:E.
    + destruct (filter _ toks) eqn:F; trivial.
      apply existsb_filter in F. congruence.
    + apply existsb_filter in E. rewrite filter_app, E. simpl.
      now rewrite !String.eqb_refl.
  - assert (Hnew : filter (fun t => String.eqb (t_token t) r && Sql.text_eq (t_lang t) (Some l))
                     (toks ++ [{| t_id := id; t_token := tok; t_meta := meta; t_lang := Some l |}])
                   = filter (fun t => String.eqb (t_token t) r && Sql.text_eq (t_lang t) (Some l))
                       toks).
    { rewrite filter_app. simpl.
      replace (String.eqb tok r) with false by (symmetry; now apply String.eqb_neq).
      simpl. apply app_nil_r. }
    destruct (existsb _ toks); rewrite ?Hnew; now destruct (map t_meta _).
Qed.

(** A loop that completes keeps, for the pair [(r, l)], the metadata
    that were there before it, or else those of the first record of the
    batch whose token is [r]. *)
Lemma insert_items_meta (client : nat) (batch : list item) :
  forall w w',
    insert_items client textId (Some l) batch w = (Ok tt, w') ->
    map t_meta (token_rows r l (tokens (view w')))
    = match map t_meta (token_rows r l (tokens (view w))) with
      | [] => match find (has_repr r) batch with
              | Some it => [i_meta it]
              | None => []
              end
      | ms => ms
      end.
Proof.
  induction batch as [|it rest IH]; intros w w' H; simpl in H.
  - unfold ret in H. inversion H; subst. now destruct (map t_meta _).
  - unfold bind in H.
    step Q1 w1; [|discriminate]. step Q2 w2; [|discriminate].
    apply IH in H. rewrite H. clear H IH.
    apply query_ok in Q2. destruct Q2 as [_ [x2 [E2 ->]]]. simpl in E2.
    destruct (Sql.references textId (texts (view (tick w1))) && _); [|discriminate].
    inversion E2; subst. clear E2.
    rewrite view_record_stmt, view_write, view_set_seqs, view_tick.
    simpl tokens.
    apply query_ok in Q1. destruct Q1 as [_ [x1 [E1 ->]]].
    destruct (i_repr it) as [tok|] eqn:Hrepr; simpl in E1; [|discriminate].
    assert (V1 : tokens (view (record_stmt (InsertToken (Some tok) (Some l) (i_meta it)) true x1))
                 = if existsb (fun t => String.eqb (t_token t) tok
                                        && Sql.text_eq (t_lang t) (Some l))
                              (tokens (view w))
                   then tokens (view w)
                   else tokens (view w)
                        ++ [{| t_id := tokens_seq (seqs w); t_token := tok;
                               t_meta := i_meta it; t_lang := Some l |}]).
    { rewrite view_record_stmt. rewrite view_tick in E1.
      destruct (existsb _ (tokens (view w))); [inversion E1; subst; trivial|].
      destruct (Sql.fresh _ _); inversion E1; subst.
      now rewrite view_write, view_set_seqs, view_tick. }
    rewrite V1, token_rows_insert. simpl find. unfold has_repr. rewrite Hrepr. simpl.
    destruct (map t_meta (token_rows r l (tokens (view w)))); trivial.
    now destruct (String.eqb tok r).
Qed.

Lemma find_first (A : Type) (p : A -> bool) (xs : list A) (x : A) :
  In x xs -> p x = true -> exists y, find p xs = Some y.
Proof.
  intros Hin Hp. destruct (find p xs) as [y|] eqn:F; [eauto|].
  rewrite (find_none p xs F x Hin) in Hp. discriminate.
Qed.

(** C4: when a batch holding two records with the same token [r] is
    ingested for the language [l] and the call returns the elapsed time,
    the committed [tokens] table has exactly one row for the pair
    [(r, l)], provided it had at most one before (the uniqueness
    constraint).  The metadata of that row are those seen first: those of
    the row that was already there, if any, else those of the first record
    of the batch whose token is [r]; later records do not change them. *)
Theorem tokens_first_seen_wins (batch : list item) (noStdout : bool) (w w' : world)
  (secs : Z) (a b : nat) (ia ib : item) :
  txn w = None ->
  (List.length (token_rows r l (tokens (committed w))) <= 1)%nat ->
  nth_error batch a = Some ia ->
  nth_error batch b = Some ib ->
  (a < b)%nat ->
  i_repr ia = Some r ->
  i_repr ib = Some r ->
  insertBatchIntoStrings textId batch (Some l) noStdout w = (Ok (Secs secs), w') ->
  exists first row,
    find (has_repr r) batch = Some first
    /\ token_rows r l (tokens (committed w')) = [row]
    /\ t_meta row = match token_rows r l (tokens (committed w)) with
                    | old :: _ => t_meta old
                    | [] => i_meta first
                    end.
Proof.
  intros Hidle Huniq Ha Hb Hlt Hra Hrb Hrun.
  destruct (@insertBatchIntoStrings_outcome textId (Some l) batch noStdout w w' _ Hidle Hrun)
    as [[e [w1 [w2 [_ [_ [V1 [_ [Hloop Htok]]]]]]]] | [_ [Ho|[x Ho]]]]; try discriminate.
  destruct (@find_first item (has_repr r) batch ia) as [first Hfirst].
  { eapply nth_error_In; eauto. }
  { unfold has_repr. rewrite Hra. simpl. apply String.eqb_refl. }
  pose proof (@insert_items_meta 0%nat batch w1 w2 Hloop) as Hmeta.
  rewrite <- Htok, V1, Hfirst in Hmeta.
  exists first.
  destruct (token_rows r l (tokens (committed w))) as [|old [|another more]] eqn:Hold;
    simpl in Huniq; try lia; simpl in Hmeta.
  - destruct (token_rows r l (tokens (committed w'))) as [|row [|x xs]];
      try discriminate Hmeta.
    exists row. repeat split; trivial. now inversion Hmeta.
  - destruct (token_rows r l (tokens (committed w'))) as [|row [|x xs]];
      try discriminate Hmeta.
    exists row. repeat split; trivial. now inversion Hmeta.
Qed.

End Dedup.

Lemma tokens_first_seen_wins_witness :
  exists first row,
    find (has_repr "cat") [cat; capital_cat] = Some first
    /\ token_rows "cat" "en"
         (tokens (committed (snd (insertBatchIntoStrings (Some 1) [cat; capital_cat]
                                    (Some "en") true world_sample))))
       = [row]
    /\ t_meta row = match token_rows "cat" "en" (tokens (committed world_sample)) with
                    | old :: _ => t_meta old
                    | [] => i_meta first
                    end.
Proof.
  apply (@tokens_first_seen_wins (Some 1) "cat" "en" [cat; capital_cat] true world_sample
           (snd (insertBatchIntoStrings (Some 1) [cat; capital_cat] (Some "en") true
                   world_sample))
           8 0%nat 1%nat cat capital_cat).
  - reflexivity.
  - vm_compute. apply le_S, le_n.
  - reflexivity.
  - reflexivity.
  - apply le_n.
  - reflexivity.
  - reflexivity.
  - vm_compute. reflexivity.
Defined.

(** ** Saving a comment *)

Section Comments.

Variables (user : actor) (params : comment_params).

Lemma first_id_filter (i id : Z) (cs : list comment) :
  first_id (Ids (map c_id (filter (fun c => c_id c =? i) cs))) = Some id -> id = i.
Proof.
  simpl. destruct (filter (fun c => c_id c =? i) cs) as [|c rest] eqn:F; [discriminate|].
  simpl. intros H. inversion H; subst.
  assert (Hin : In c (filter (fun c => c_id c =? i) cs)) by (rewrite F; now left).
  apply filter_In in Hin. now apply Z.eqb_eq.
Qed.

(** What the statements of [setComment] do to the tables the session
    sees. *)
Lemma query_write_comment (v : comment_values) (w w2 : world) (r : rows) :
  query (if Js.truthy_num (p_id params)
         then UpdateComment v (Js.Number (p_id params))
         else InsertComment v) w = (Ok r, w2) ->
  forall id, first_id r = Some id ->
  exists t,
    Sql.check_comment v (view w) = Some t
    /\ view w2 = set_comments (comments_written params v id t) (view w).
Proof.
  intros Q id Hfirst. apply query_ok in Q. destruct Q as [_ [x [E ->]]].
  rewrite view_record_stmt. unfold comments_written.
  destruct (Js.truthy_num (p_id params)) eqn:Htruthy.
  - destruct (p_id params) as [| |i]; try discriminate Htruthy.
    cbn [Js.Number exec] in E. rewrite view_tick in E.
    destruct (Sql.check_comment v (view w)) as [t|]; [|discriminate].
    inversion E; subst. clear E.
    apply first_id_filter in Hfirst. subst id.
    exists t. split; trivial. now rewrite view_write, view_tick.
  - cbn [exec] in E. rewrite view_tick in E.
    destruct (Sql.check_comment v (view w)) as [t|]; [|discriminate].
    destruct (Sql.fresh _ _); [|discriminate].
    inversion E; subst. clear E.
    simpl in Hfirst. inversion Hfirst; subst.
    exists t. split; trivial. now rewrite view_write, view_set_seqs, view_tick.
Qed.

Lemma query_write_log (uid record : Z) (table : string) (d0 d1 : snapshot)
  (w w2 : world) (r : rows) :
  query (InsertLog uid table record d0 d1) w = (Ok r, w2) ->
  exists lid created,
    first_id r = Some lid
    /\ view w2 = set_logs (fun ls => ls ++ [{| l_id := lid; l_created := created;
                                               l_user_id := uid; l_data0 := d0;
                                               l_data1 := d1; l_table_name := table;
                                               l_record_id := record |}])
                          (view w).
Proof.
  intros Q. apply query_ok in Q. destruct Q as [_ [x [E ->]]].
  rewrite view_record_stmt. cbn [exec] in E.
  destruct (Sql.any uid (map u_id (users (view (tick w)))) && _); [|discriminate].
  inversion E; subst. clear E.
  do 2 eexists. split; [reflexivity|].
  now rewrite view_write, view_set_seqs, view_tick.
Qed.

Lemma query_commit (c : tables) (w w2 : world) (r : rows) :
  in_txn c w -> query COMMIT w = (Ok r, w2) -> committed w2 = view w.
Proof.
  intros [_ Ht] Q. apply query_ok in Q. destruct Q as [_ [x [E ->]]].
  cbn [exec] in E. unfold view.
  change (txn (tick w)) with (txn w) in E.
  destruct (txn w) as [t|]; [|contradiction].
  inversion E. reflexivity.
Qed.

(** The transaction of [setComment], started on an idle session: either
    it answers with an error object and nothing is committed, or the
    comment and its log entry are committed together and every statement
    succeeded. *)
Lemma comment_transaction (v : comment_values) (prev : snapshot) (statement : stmt)
  (wa w' : world) (o : outcome comment_result) :
  statement = (if Js.truthy_num (p_id params)
               then UpdateComment v (Js.Number (p_id params))
               else InsertComment v) ->
  txn wa = None ->
  try_catch
    (query BEGIN ;;
     try_catch
       (result <- query statement ;;
        match first_id result with
        | Some resultId =>
            logResult <- query (InsertLog (a_id user) "comments" resultId prev
                                          (cleanCommentObject params)) ;;
            query COMMIT ;;
            ret (Data resultId (first_id logResult))
        | None => throw TypeError
        end)
       (fun error => query ROLLBACK ;; ret (ErrorObject error)))
    (fun error => ret (ErrorObject error)) wa = (o, w') ->
  (exists e ok tr,
      o = Ok (ErrorObject e) /\ committed w' = committed wa
      /\ trace w' = trace wa ++ (BEGIN, ok) :: tr)
  \/ (exists id lid created t,
         o = Ok (Data id (Some lid))
         /\ Sql.check_comment v (committed wa) = Some t
         /\ committed w'
            = set_logs
                (fun ls => ls ++ [{| l_id := lid; l_created := created;
                                     l_user_id := a_id user; l_data0 := prev;
                                     l_data1 := cleanCommentObject params;
                                     l_table_name := "comments"; l_record_id := id |}])
                (set_comments (comments_written params v id t) (committed wa))
         /\ exists tr, trace w' = trace wa ++ tr
                       /\ filter (fun x : stmt * bool => negb (snd x)) tr = []).
Proof.
  intros -> Hidle H. unfold try_catch, bind, ret, throw in H.
  step Q1 w1.
  2:{ (* BEGIN broke *)
      inversion H; subst. left. thrown Q1.
      exists e, false, []. repeat split. }
  pose proof (query_trace _ _ Q1) as T1.
  apply query_ok in Q1. destruct Q1 as [_ [x [E ->]]]. simpl in E. rewrite Hidle in E.
  inversion E; subst x r. clear E.
  set (w1 := record_stmt BEGIN true _) in *.
  assert (I1 : in_txn (committed wa) w1) by (split; [reflexivity|discriminate]).
  set (sql := if Js.truthy_num (p_id params)
              then UpdateComment v (Js.Number (p_id params)) else InsertComment v) in *.
  assert (Hsql : sql <> COMMIT /\ sql <> ROLLBACK)
    by (unfold sql; destruct (Js.truthy_num (p_id params)); split; discriminate).
  assert (Rolled : forall (wx wz : world) (oz : outcome rows) (tr : list (stmt * bool)),
             in_txn (committed wa) wx ->
             trace wx = trace wa ++ (BEGIN, true) :: tr ->
             query ROLLBACK wx = (oz, wz) ->
             committed wz = committed wa
             /\ exists tr', trace wz = trace wa ++ (BEGIN, true) :: tr').
  { intros wx wz oz tr Ix Tx Q. split.
    - rewrite (query_rollback _ Q). apply Ix.
    - apply query_trace in Q. rewrite Q, Tx, <- app_assoc. simpl. eauto. }
  assert (Failing : forall (wx : world) (e : exn) (tr : list (stmt * bool)),
             in_txn (committed wa) wx ->
             trace wx = trace wa ++ (BEGIN, true) :: tr ->
             (let (o1, w1) :=
                let (o0, w0) := query ROLLBACK wx in
                match o0 with
                | Ok _ => (Ok (ErrorObject e), w0)
                | Thrown e0 => (Thrown e0, w0)
                end in
              match o1 with
              | Ok a => (Ok a, w1)
              | Thrown e1 => (Ok (ErrorObject e1), w1)
              end) = (o, w') ->
             exists e' ok tr',
               o = Ok (ErrorObject e') /\ committed w' = committed wa
               /\ trace w' = trace wa ++ (BEGIN, ok) :: tr').
  { intros wx e tr Ix Tx Hx.
    destruct (query ROLLBACK wx) as [[r5|e5] w5] eqn:Q5;
      inversion Hx; subst;
      destruct (Rolled wx w' _ tr Ix Tx Q5) as [Hc [tr' Ht]];
      do 3 eexists; repeat split; eauto. }
  step Q2 w2.
  2:{ (* the write broke *)
      pose proof (query_trace _ _ Q2) as T2.
      assert (I2 : in_txn (committed wa) w2)
        by (eapply query_in_txn; [exact I1| | |exact Q2]; apply Hsql).
      rewrite T1, <- app_assoc in T2. simpl in T2.
      left. exact (Failing w2 e _ I2 T2 H). }
  pose proof (query_trace _ _ Q2) as T2.
  rewrite T1, <- app_assoc in T2. simpl in T2.
  assert (I2 : in_txn (committed wa) w2)
    by (eapply query_in_txn; [exact I1| | |exact Q2]; apply Hsql).
  destruct (first_id r) as [resultId|] eqn:Hfirst; cbv beta iota in H.
  2:{ (* no row came back *)
      left. exact (Failing w2 TypeError _ I2 T2 H). }
  step Q3 w3.
  2:{ (* the log entry broke *)
      pose proof (query_trace _ _ Q3) as T3.
      assert (I3 : in_txn (committed wa) w3)
        by (eapply query_in_txn; [exact I2| | |exact Q3]; discriminate).
      rewrite T2, <- app_assoc in T3. simpl in T3.
      left. exact (Failing w3 e _ I3 T3 H). }
  pose proof (query_trace _ _ Q3) as T3.
  rewrite T2, <- app_assoc in T3. simpl in T3.
  assert (I3 : in_txn (committed wa) w3)
    by (eapply query_in_txn; [exact I2| | |exact Q3]; discriminate).
  step Q4 w4.
  2:{ (* COMMIT broke *)
      pose proof (query_trace _ _ Q4) as T4.
      assert (I4 : in_txn (committed wa) w4) by (thrown Q4; exact I3).
      rewrite T3, <- app_assoc in T4. simpl in T4.
      left. exact (Failing w4 e _ I4 T4 H). }
  (* committed *)
  pose proof (query_trace _ _ Q4) as T4.
  rewrite T3, <- app_assoc in T4. simpl in T4.
  inversion H; subst o w4. clear H Failing Rolled. right.
  destruct (@query_write_comment v w1 w2 r Q2 resultId Hfirst) as [t [Hcheck V2]].
  destruct (@query_write_log _ _ _ _ _ w2 w3 r0 Q3) as [lid [created [Hlid V3]]].
  pose proof (@query_commit (committed wa) w3 _ _ I3 Q4) as V4.
  exists resultId, lid, created, t.
  split; [now rewrite Hlid|]. split; [exact Hcheck|]. split.
  - now rewrite V4, V3, V2.
  - eexists. split; [exact T4|reflexivity].
Qed.

(** The four ways a call of [setComment] on an idle session ends. *)
Lemma setComment_outcome (w w' : world) (o : outcome comment_result) :
  txn w = None ->
  setComment user params w = (o, w') ->
  (bound (p_title params) = None /\ o = Thrown TypeError /\ w' = w)
  \/ (exists title,
         p_title params = Val title /\ Js.truthy_num (p_id params) = true
         /\ o = Ok EmptyObject /\ committed w' = committed w
         /\ forall s, In s (failed_statements w w') -> is_select s = true)
  \/ (exists title e ok pre tr,
         p_title params = Val title /\ o = Ok (ErrorObject e)
         /\ committed w' = committed w
         /\ trace w' = trace w ++ pre ++ (BEGIN, ok) :: tr
         /\ (Js.truthy_num (p_id params) = false -> pre = []))
  \/ (exists title id lid created t,
         p_title params = Val title
         /\ o = Ok (Data id (Some lid))
         /\ Sql.check_comment (values_of params (Js.trim title)) (committed w) = Some t
         /\ committed w'
            = set_logs
                (fun ls => ls ++ [{| l_id := lid; l_created := created;
                                     l_user_id := a_id user;
                                     l_data0 := prior_snapshot params (committed w);
                                     l_data1 := cleanCommentObject params;
                                     l_table_name := "comments"; l_record_id := id |}])
                (set_comments
                   (comments_written params (values_of params (Js.trim title)) id t)
                   (committed w))
         /\ failed_statements w w' = []).
Proof.
  intros Hidle H. unfold setComment in H.
  destruct (p_title params) as [| |title] eqn:Htitle;
    try (left; unfold bind, throw in H; inversion H; subst; now repeat split).
  right. unfold bind at 1 in H. unfold ret at 1 in H.
  unfold try_catch at 1 in H.
  destruct (Js.truthy_num (p_id params)) eqn:Htruthy.
  - (* an id is given: the row is read first *)
    destruct (p_id params) as [| |i] eqn:Hid; try discriminate Htruthy.
    simpl in Htruthy. apply negb_true_iff in Htruthy.
    unfold bind at 1 in H. unfold bind at 1 in H. cbn [Js.Number] in H.
    destruct (query (SelectComment (Some i)) w) as [[r|e] w1] eqn:Q1.
    2:{ left. inversion H; subst. pose proof (query_trace _ _ Q1) as T1.
        thrown Q1. exists title.
        split; [reflexivity|]. split; [reflexivity|]. repeat split.
        intros s Hs. rewrite (@failed_statements_app w _ _ T1) in Hs.
        simpl in Hs. destruct Hs as [<-|[]]. reflexivity. }
    pose proof (query_trace _ _ Q1) as T1.
    apply query_ok in Q1. destruct Q1 as [_ [x [E ->]]]. simpl in E.
    inversion E; subst x r. clear E.
    set (w1 := record_stmt (SelectComment (Some i)) true (tick w)) in *.
    assert (V1 : view (tick w) = committed w) by (unfold view; simpl; now rewrite Hidle).
    rewrite V1 in H.
    destruct (filter (fun c => c_id c =? i) (comments (committed w))) as [|c rest] eqn:Hrows.
    { left. unfold throw in H. inversion H; subst. exists title.
      split; [reflexivity|]. split; [reflexivity|]. repeat split.
      intros s Hs. rewrite (@failed_statements_app w _ _ T1) in Hs. destruct Hs. }
    unfold ret at 1 in H.
    match type of H with
    | (let (_, _) := ?tx w1 in _) = _ => destruct (tx w1) as [oo ww] eqn:TX
    end.
    eapply (@comment_transaction (values_of params (Js.trim title))) in TX;
      [|rewrite Hid; simpl; now rewrite Htruthy|exact Hidle].
    destruct TX as [[e [ok [tr [-> [Hc Ht]]]]]
                   | [id [lid [created [t [-> [Hcheck [Hc [tr [Ht Hno]]]]]]]]]];
      inversion H; subst; right.
    + left. exists title, e, ok, [(SelectComment (Some i), true)], tr.
      repeat split; trivial.
      * rewrite Ht, T1, <- app_assoc. reflexivity.
      * discriminate.
    + right. exists title, id, lid, created, t.
      repeat split; trivial.
      * rewrite Hc. unfold prior_snapshot. rewrite Hid, Htruthy, Hrows. reflexivity.
      * rewrite T1, <- app_assoc in Ht. rewrite (@failed_statements_app w _ _ Ht).
        simpl. now rewrite Hno.
  - (* no id: a creation *)
    assert (Hprior : prior_snapshot params (committed w) = empty_object).
    { unfold prior_snapshot. destruct (p_id params) as [| |i]; trivial.
      simpl in Htruthy. apply negb_false_iff in Htruthy. now rewrite Htruthy. }
    unfold bind at 1 in H. unfold ret at 1 in H.
    match type of H with
    | (let (_, _) := ?tx w in _) = _ => destruct (tx w) as [oo ww] eqn:TX
    end.
    eapply (@comment_transaction (values_of params (Js.trim title))) in TX; [|now rewrite Htruthy|exact Hidle].
    destruct TX as [[e [ok [tr [-> [Hc Ht]]]]]
                   | [id [lid [created [t [-> [Hcheck [Hc [tr [Ht Hno]]]]]]]]]];
      inversion H; subst; right.
    + left. exists title, e, ok, [], tr. repeat split; trivial.
    + right. exists title, id, lid, created, t.
      repeat split; trivial.
      * rewrite Hc, Hprior. reflexivity.
      * rewrite (@failed_statements_app w _ _ Ht). now rewrite Hno.
Qed.

(** On a pool of one client, where all the statements of a call meet on
    one connection, every call of [setComment] on an idle session ends in
    one of two ways.  Either nothing is committed and the call does not report a
    saved comment; or the comment row and its log entry (data0 the prior
    snapshot, data1 the new one) are committed together, nothing else
    changes, and the call answers with both ids.  Moreover, when a
    statement of the transaction fails (any failed statement other than
    the read made before the transaction), nothing is committed and an
    error object is returned. *)
Theorem setComment_atomic (w w' : world) (o : outcome comment_result) :
  txn w = None ->
  setComment user params w = (o, w') ->
  ((committed w' = committed w /\ forall id change, o <> Ok (Data id change))
   \/ exists id lid, o = Ok (Data id (Some lid)) /\ saved_with_log user params w w' id lid)
  /\ (forall s, In s (failed_statements w w') -> is_select s = false ->
                committed w' = committed w /\ exists e, o = Ok (ErrorObject e)).
Proof.
  intros Hidle Hrun.
  destruct (@setComment_outcome w w' o Hidle Hrun)
    as [[_ [-> ->]]
       | [[title0 [_ [_ [-> [Hc Hsel]]]]]
         | [[title [e [ok [pre [tr [_ [-> [Hc _]]]]]]]]
           | [title [id [lid [created [t [Ht [-> [Hcheck [Hc Hno]]]]]]]]]]]].
  - split; [left; split; [reflexivity|discriminate]|].
    intros s Hs. unfold failed_statements in Hs.
    rewrite skipn_all in Hs. destruct Hs.
  - split; [left; split; [exact Hc|discriminate]|].
    intros s Hs Hns. rewrite (Hsel s Hs) in Hns. discriminate.
  - split; [left; split; [exact Hc|discriminate]|].
    intros s _ _. split; [exact Hc|]. now exists e.
  - split.
    + right. exists id, lid. split; [reflexivity|].
      exists title, created, t. auto.
    + intros s Hs. rewrite Hno in Hs. destruct Hs.
Qed.

(** C7, amended: [setComment] has no validation step.  A missing title
    makes it throw a [TypeError] (from trimming the title) before any
    statement is sent, so the session is untouched.  A missing [text_id]
    is not checked before the transaction: for a creation, [BEGIN] is the
    first statement sent, and it is the store that refuses the write.  In
    both cases nothing is committed and no saved comment is reported. *)
Theorem setComment_missing_field (w w' : world) (o : outcome comment_result) :
  txn w = None ->
  bound (p_title params) = None \/ p_text_id params = Absent ->
  setComment user params w = (o, w') ->
  committed w' = committed w
  /\ (forall id change, o <> Ok (Data id change))
  /\ match p_title params with
     | Val _ =>
         Js.truthy_num (p_id params) = false ->
         exists ok tr, trace w' = trace w ++ (BEGIN, ok) :: tr
     | _ => o = Thrown TypeError /\ w' = w
     end.
Proof.
  intros Hidle Hmissing Hrun.
  destruct (@setComment_outcome w w' o Hidle Hrun)
    as [[Hnone [-> ->]]
       | [[title0 [Ht0 [Hyes [-> [Hc Hsel]]]]]
         | [[title [e [ok [pre [tr [Ht [-> [Hc [Htr Hpre]]]]]]]]]
           | [title [id [lid [created [t [Ht [-> [Hcheck [Hc Hno]]]]]]]]]]]].
  - split; [reflexivity|]. split; [discriminate|].
    destruct (p_title params); try discriminate Hnone; now split.
  - split; [exact Hc|]. split; [discriminate|].
    rewrite Ht0. intros Hfalse. congruence.
  - split; [exact Hc|]. split; [discriminate|]. rewrite Ht.
    intros Hfalse. rewrite (Hpre Hfalse) in Htr. eauto.
  - exfalso. destruct Hmissing as [Hnone|Habs].
    + rewrite Ht in Hnone. discriminate.
    + unfold Sql.check_comment, values_of in Hcheck. simpl in Hcheck.
      rewrite Habs in Hcheck. discriminate.
Qed.

End Comments.

Lemma setComment_atomic_witness :
  ((committed (snd (setComment root published_params (world_breaking_at 2)))
    = committed (world_breaking_at 2)
    /\ forall id change,
        fst (setComment root published_params (world_breaking_at 2)) <> Ok (Data id change))
   \/ exists id lid,
       fst (setComment root published_params (world_breaking_at 2)) = Ok (Data id (Some lid))
       /\ saved_with_log root published_params (world_breaking_at 2)
            (snd (setComment root published_params (world_breaking_at 2))) id lid)
  /\ (forall s,
        In s (failed_statements (world_breaking_at 2)
                (snd (setComment root published_params (world_breaking_at 2)))) ->
        is_select s = false ->
        committed (snd (setComment root published_params (world_breaking_at 2)))
        = committed (world_breaking_at 2)
        /\ exists e, fst (setComment root published_params (world_breaking_at 2))
                     = Ok (ErrorObject e)).
Proof.
  apply (@setComment_atomic root published_params (world_breaking_at 2)
           (snd (setComment root published_params (world_breaking_at 2)))
           (fst (setComment root published_params (world_breaking_at 2)))).
  - reflexivity.
  - apply surjective_pairing.
Defined.

(** C1: [setComment] sends [BEGIN], the write, the log entry, [COMMIT]
    and [ROLLBACK] with [pool.query], each to whichever client the pool
    hands out, where [insertBatchIntoStrings] checks one client out for
    its transaction.  The statements need not meet on one connection.
    Here the pool hands the write to its second client while the first
    holds the transaction, and the store breaks on the log entry: the
    call sends [ROLLBACK] and answers with the error object, both
    connections end with no transaction open, and yet the comment is
    committed, with no log entry to pair it.  The same request on the
    same store, with all statements on one connection, commits
    nothing.  Nor is a broken store needed: the same happens when the
    store refuses the log entry, as it does for a user whose account is
    gone. *)
Theorem setComment_write_outlives_rollback :
  let run := setComment root published_params pool_two_clients in
  fst run = Ok (ErrorObject DbError)
  /\ map snd (trace (shared (snd run))) = [true; true; false; true]
  /\ map fst (filter (fun x => negb (snd x)) (trace (shared (snd run))))
     = [InsertLog 1 "comments" 1 empty_object (cleanCommentObject published_params)]
  /\ last (map fst (trace (shared (snd run)))) BEGIN = ROLLBACK
  /\ held (snd run) 0%nat = None
  /\ held (snd run) 1%nat = None
  /\ comments (committed (shared (snd run)))
     = [Sql.comment_of 1 1 (values_of published_params "Intro")]
  /\ logs (committed (shared (snd run))) = []
  /\ committed (snd (setComment root published_params (world_breaking_at 2)))
     = committed (world_breaking_at 2)
  /\ (let refused := setComment stranger published_params pool_unbroken in
      fst refused = Ok (ErrorObject DbError)
      /\ comments (committed (shared (snd refused)))
         = [Sql.comment_of 1 1 (values_of published_params "Intro")]
      /\ logs (committed (shared (snd refused))) = []
      /\ committed (snd (setComment stranger published_params world_sample))
         = committed world_sample).
Proof. vm_compute. repeat split; reflexivity. Qed.

(** C7, as stated, fails: for a request with a title and no [text_id],
    the first thing [setComment] does is to open the transaction; the
    insertion is then refused by the store, the transaction is rolled
    back, and the answer is an error object carrying the store's error. *)
Lemma missing_text_id_opens_transaction :
  p_text_id textless_params = Absent
  /\ map (fun x => (is_select (fst x), snd x))
       (trace (snd (setComment root textless_params world_sample)))
     = [(false, true); (false, false); (false, true)]
  /\ hd_error (trace (snd (setComment root textless_params world_sample)))
     = Some (BEGIN, true)
  /\ fst (setComment root textless_params world_sample) = Ok (ErrorObject DbError).
Proof. repeat split. Qed.

Lemma setComment_missing_field_witness :
  committed (snd (setComment root textless_params world_sample)) = committed world_sample
  /\ (forall id change,
        fst (setComment root textless_params world_sample) <> Ok (Data id change))
  /\ match p_title textless_params with
     | Val _ =>
         Js.truthy_num (p_id textless_params) = false ->
         exists ok tr,
           trace (snd (setComment root textless_params world_sample))
           = trace world_sample ++ (BEGIN, ok) :: tr
     | _ => fst (setComment root textless_params world_sample) = Thrown TypeError
            /\ snd (setComment root textless_params world_sample) = world_sample
     end.
Proof.
  apply (@setComment_missing_field root textless_params world_sample
           (snd (setComment root textless_params world_sample))
           (fst (setComment root textless_params world_sample))).
  - reflexivity.
  - right. reflexivity.
  - apply surjective_pairing.
Defined.

(** * Further properties *)

(** ** Binding and unbinding comments *)

Section Unbinding.

Variables (user : actor) (params : binding_params) (cid : Z) (ids : list Z).

Hypothesis Hrequest : binding_request params cid ids.

Lemma binding_guard :
  negb (cid =? 0) && negb (Nat.eqb (List.length ids) 0) = true.
Proof.
  destruct Hrequest as [_ [_ [Hc Hi]]].
  apply andb_true_iff. split; apply negb_true_iff.
  - now apply Z.eqb_neq.
  - destruct ids; [contradiction|reflexivity].
Qed.

Lemma update_unlisted (f : list Z -> list Z) (rs : list string_row) :
  filter (unlisted ids) (Sql.update_comments_where ids f rs) = filter (unlisted ids) rs.
Proof.
  unfold Sql.update_comments_where, unlisted.
  induction rs as [|r rs IH]; simpl; trivial.
  destruct (Sql.any (st_id r) ids) eqn:E; simpl; rewrite E; simpl; now rewrite IH.
Qed.

Lemma update_ids (f : list Z -> list Z) (rs : list string_row) :
  map st_id (Sql.update_comments_where ids f rs) = map st_id rs.
Proof.
  unfold Sql.update_comments_where. rewrite map_map. apply map_ext.
  intros r. now destruct (Sql.any (st_id r) ids).
Qed.

(** What a successful [removeCommentFromString] has done. *)
Lemma removeCommentFromString_ok (rws : list Z) (w w' : world) :
  removeCommentFromString user params w = (Ok (Bound rws), w') ->
  view w' = set_strings (Sql.update_comments_where ids (fun a => Sql.array_remove a cid))
              (view w)
  /\ rws = filter (fun i => Sql.any i ids) (map st_id (strings (view w))).
Proof.
  destruct Hrequest as [Hid [Htok _]].
  unfold removeCommentFromString. rewrite Hid, Htok, binding_guard.
  unfold try_catch, bind, ret.
  destruct (query (ArrayRemove cid ids) w) as [[r1|e1] w1] eqn:Q1; [|discriminate].
  intros H. inversion H; subst. clear H.
  apply query_ok in Q1. destruct Q1 as [_ [x1 [E1 ->]]].
  simpl in E1. inversion E1; subst. clear E1.
  now rewrite view_record_stmt, view_write, view_tick.
Qed.

(** What a successful [setCommentForString] has done to the tables. *)
Lemma setCommentForString_view (rws : list Z) (w w' : world) :
  setCommentForString user params w = (Ok (Bound rws), w') ->
  view w' = set_strings (Sql.update_comments_where ids (rebind cid)) (view w).
Proof.
  destruct Hrequest as [Hid [Htok _]].
  unfold setCommentForString. rewrite Hid, Htok, binding_guard.
  unfold try_catch, bind, ret.
  destruct (query (ArrayRemove cid ids) w) as [[r1|e1] w1] eqn:Q1; [|discriminate].
  destruct (query (ArrayAppend cid ids) w1) as [[r2|e2] w2] eqn:Q2; [|discriminate].
  intros H. inversion H; subst. clear H.
  apply query_ok in Q1. destruct Q1 as [_ [x1 [E1 ->]]].
  apply query_ok in Q2. destruct Q2 as [_ [x2 [E2 ->]]].
  simpl in E1. inversion E1; subst. clear E1.
  simpl in E2. inversion E2; subst. clear E2.
  rewrite view_record_stmt, view_write, view_tick, view_record_stmt, view_write, view_tick.
  unfold set_strings. simpl. now rewrite update_comments_twice.
Qed.

(** X1: after a call of [removeCommentFromString] that returned rows,
    no listed string holds the comment id any more, the strings that are
    not listed are as they were, and the rows returned are the ids of the
    listed strings that exist. *)
Theorem removeCommentFromString_unbinds (rws : list Z) (w w' : world) :
  removeCommentFromString user params w = (Ok (Bound rws), w') ->
  (forall r, In r (strings (view w')) -> In (st_id r) ids -> ~ In cid (st_comments r))
  /\ filter (unlisted ids) (strings (view w')) = filter (unlisted ids) (strings (view w))
  /\ map st_id (strings (view w')) = map st_id (strings (view w))
  /\ rws = filter (fun i => Sql.any i ids) (map st_id (strings (view w))).
Proof.
  intros Hrun. destruct (removeCommentFromString_ok _ Hrun) as [V Hrws].
  rewrite V. simpl strings. split; [|split; [|split]].
  - intros r Hr Hin. unfold Sql.update_comments_where in Hr.
    apply in_map_iff in Hr. destruct Hr as [r0 [Hr0 _]].
    destruct (Sql.any (st_id r0) ids) eqn:E; subst r.
    + simpl. apply array_remove_absent.
    + apply any_In in Hin. congruence.
  - apply update_unlisted.
  - apply update_ids.
  - exact Hrws.
Qed.

Lemma remove_rebind (a : list Z) :
  ~ In cid a -> Sql.array_remove (rebind cid a) cid = a.
Proof.
  intros Hnot. unfold rebind, Sql.array_append, Sql.array_remove.
  rewrite filter_app. simpl. rewrite Z.eqb_refl. simpl. rewrite app_nil_r.
  assert (H : forall l, ~ In cid l -> filter (fun y => negb (y =? cid)) l = l).
  { induction l as [|x l IH]; simpl; trivial. intros Hl.
    destruct (Z.eqb_spec x cid) as [->|Hne]; simpl.
    - exfalso. apply Hl. now left.
    - f_equal. apply IH. intros Hin. apply Hl. now right. }
  rewrite (H a Hnot). exact (H a Hnot).
Qed.

Lemma set_string_comments_same (r : string_row) (f : list Z -> list Z) :
  f (st_comments r) = st_comments r -> Sql.set_string_comments f r = r.
Proof. intros E. unfold Sql.set_string_comments. rewrite E. now destruct r. Qed.

(** X2: binding a comment to strings that did not hold it and then
    unbinding it from the same strings, both calls returning rows, gives
    back the tables the session saw before. *)
Theorem bind_then_unbind (rws1 rws2 : list Z) (w w1 w2 : world) :
  (forall r, In r (strings (view w)) -> In (st_id r) ids -> ~ In cid (st_comments r)) ->
  setCommentForString user params w = (Ok (Bound rws1), w1) ->
  removeCommentFromString user params w1 = (Ok (Bound rws2), w2) ->
  view w2 = view w.
Proof.
  intros Hfree H1 H2.
  destruct (removeCommentFromString_ok _ H2) as [V2 _].
  rewrite V2, (setCommentForString_view _ H1). unfold set_strings. simpl.
  rewrite update_comments_twice.
  replace (Sql.update_comments_where ids
             (fun a => Sql.array_remove (rebind cid a) cid) (strings (view w)))
    with (strings (view w)); [now destruct (view w)|].
  unfold Sql.update_comments_where.
  rewrite <- (map_id (strings (view w))) at 1.
  apply map_ext_in. intros r Hr.
  destruct (Sql.any (st_id r) ids) eqn:E; trivial.
  symmetry. apply set_string_comments_same. apply remove_rebind.
  apply Hfree; trivial. now apply any_In.
Qed.

(** X3: the two statements of [setCommentForString] are not in a
    transaction.  When the first one runs and the store breaks on the
    second, the call answers with the empty object and every listed
    string has lost the comment id, also those that held it before: the
    strings are those the removal alone leaves. *)
Theorem setCommentForString_broken_append (w : world) :
  faults w (List.length (trace w)) = false ->
  faults w (S (List.length (trace w))) = true ->
  fst (setCommentForString user params w) = Ok NoBinding
  /\ view (snd (setCommentForString user params w))
     = set_strings (Sql.update_comments_where ids (fun a => Sql.array_remove a cid))
         (view w)
  /\ forall r, In r (strings (view (snd (setCommentForString user params w)))) ->
               In (st_id r) ids -> ~ In cid (st_comments r).
Proof.
  intros Hf1 Hf2. destruct Hrequest as [Hid [Htok _]].
  unfold setCommentForString. rewrite Hid, Htok, binding_guard.
  unfold try_catch, bind, ret.
  assert (E1 : exec (ArrayRemove cid ids) (tick w)
               = Some (Ids (filter (fun i => Sql.any i ids) (map st_id (strings (view w)))),
                       write (set_strings
                                (Sql.update_comments_where ids
                                   (fun a => Sql.array_remove a cid))) (tick w)))
    by reflexivity.
  rewrite (query_runs _ w Hf1 E1).
  set (w1 := record_stmt (ArrayRemove cid ids) true _).
  assert (Q2 : query (ArrayAppend cid ids) w1
               = (Thrown DbError, record_stmt (ArrayAppend cid ids) false (tick w1))).
  { unfold query, one_client, send. replace (faults w1 (List.length (trace w1))) with true; trivial.
    unfold w1. simpl. unfold write. destruct (txn (tick w)); simpl;
      now rewrite length_app, Nat.add_1_r, Hf2. }
  rewrite Q2. simpl fst. simpl snd.
  assert (V : view (record_stmt (ArrayAppend cid ids) false (tick w1))
              = set_strings (Sql.update_comments_where ids
                               (fun a => Sql.array_remove a cid)) (view w)).
  { unfold w1. now rewrite view_record_stmt, view_tick, view_record_stmt, view_write, view_tick. }
  split; [reflexivity|]. split; [exact V|].
  rewrite V. simpl strings. intros r Hr Hin.
  unfold Sql.update_comments_where in Hr.
  apply in_map_iff in Hr. destruct Hr as [r0 [Hr0 _]].
  destruct (Sql.any (st_id r0) ids) eqn:E; subst r.
  - simpl. apply array_remove_absent.
  - apply any_In in Hin. congruence.
Qed.

(** X4: a successful [setCommentForString] touches nothing but the
    arrays of the listed strings: the strings that are not listed, the ids
    and the order of all strings, and every other table are as they were. *)
Theorem setCommentForString_frame (rws : list Z) (w w' : world) :
  setCommentForString user params w = (Ok (Bound rws), w') ->
  filter (unlisted ids) (strings (view w')) = filter (unlisted ids) (strings (view w))
  /\ map st_id (strings (view w')) = map st_id (strings (view w))
  /\ set_strings (fun _ => []) (view w') = set_strings (fun _ => []) (view w).
Proof.
  intros Hrun. rewrite (setCommentForString_view _ Hrun). simpl strings.
  split; [apply update_unlisted|]. split; [apply update_ids|reflexivity].
Qed.

End Unbinding.

Lemma removeCommentFromString_unbinds_witness :
  (forall r,
      In r (strings (view (snd (removeCommentFromString root binding_sample
                                  world_strings_sample)))) ->
      In (st_id r) [1; 2] -> ~ In 7 (st_comments r))
  /\ filter (unlisted [1; 2])
       (strings (view (snd (removeCommentFromString root binding_sample
                              world_strings_sample))))
     = filter (unlisted [1; 2]) (strings (view world_strings_sample))
  /\ map st_id (strings (view (snd (removeCommentFromString root binding_sample
                                      world_strings_sample))))
     = map st_id (strings (view world_strings_sample))
  /\ [1; 2] = filter (fun i => Sql.any i [1; 2])
                (map st_id (strings (view world_strings_sample))).
Proof.
  apply (@removeCommentFromString_unbinds root binding_sample 7 [1; 2]).
  - repeat split; discriminate.
  - reflexivity.
Defined.

Lemma bind_then_unbind_witness :
  view (snd (removeCommentFromString root fresh_binding_sample
               (snd (setCommentForString root fresh_binding_sample world_strings_sample))))
  = view world_strings_sample.
Proof.
  apply (@bind_then_unbind root fresh_binding_sample 9 [1; 2]) with (rws1 := [1; 2])
    (rws2 := [1; 2])
    (w1 := snd (setCommentForString root fresh_binding_sample world_strings_sample)).
  - repeat split; discriminate.
  - simpl. intros r [<-|[<-|[<-|[]]]] _; simpl; intuition discriminate.
  - reflexivity.
  - reflexivity.
Defined.

Lemma setCommentForString_broken_append_witness :
  fst (setCommentForString root binding_sample (world_strings_breaking_at 1)) = Ok NoBinding
  /\ view (snd (setCommentForString root binding_sample (world_strings_breaking_at 1)))
     = set_strings (Sql.update_comments_where [1; 2] (fun a => Sql.array_remove a 7))
         (view (world_strings_breaking_at 1))
  /\ forall r,
      In r (strings (view (snd (setCommentForString root binding_sample
                                  (world_strings_breaking_at 1))))) ->
      In (st_id r) [1; 2] -> ~ In 7 (st_comments r).
Proof.
  apply (@setCommentForString_broken_append root binding_sample 7 [1; 2]).
  - repeat split; discriminate.
  - reflexivity.
  - reflexivity.
Defined.

Lemma setCommentForString_frame_witness :
  filter (unlisted [1; 2])
    (strings (view (snd (setCommentForString root binding_sample world_strings_sample))))
  = filter (unlisted [1; 2]) (strings (view world_strings_sample))
  /\ map st_id (strings (view (snd (setCommentForString root binding_sample
                                      world_strings_sample))))
     = map st_id (strings (view world_strings_sample))
  /\ set_strings (fun _ => [])
       (view (snd (setCommentForString root binding_sample world_strings_sample)))
     = set_strings (fun _ => []) (view world_strings_sample).
Proof.
  apply (@setCommentForString_frame root binding_sample 7 [1; 2]) with (rws := [1; 2]).
  - repeat split; discriminate.
  - reflexivity.
Defined.

(** ** More on paging through the log *)

Section Paging.

Lemma or_default_falsy (x : field Z) (d : Z) :
  Js.truthy_num x = false ->
  Js.or_default (bound x) d = d /\ Js.or_default (Js.Number x) d = d.
Proof.
  destruct x as [| |n]; simpl; auto.
  intros H. apply negb_false_iff in H. now rewrite H.
Qed.

(** The run of [getLogs] when the store serves both queries. *)
Lemma getLogs_runs (record : option Z) (text offset limit : Z) (w : world) :
  0 <= offset -> 0 <= limit ->
  faults w (List.length (trace w)) = false ->
  faults w (S (List.length (trace w))) = false ->
  (res <- query (SelectLogs record text offset limit) ;;
   count <- query (CountLogs record text) ;;
   ret {| data := match res with LogRows ls => ls | _ => [] end;
          count := match count with Count n => n | _ => 0 end |}) w
  = (Ok {| data := map (fun l => (l, Sql.any (l_record_id l) (map c_id (comments (view w)))))
                     (firstn (Z.to_nat limit)
                        (skipn (Z.to_nat offset) (listing record text (view w))));
           count := Z.of_nat (List.length (filter (Sql.log_where record text)
                                             (logs (view w)))) |},
     record_stmt (CountLogs record text) true
       (tick (record_stmt (SelectLogs record text offset limit) true (tick w)))).
Proof.
  intros Ho Hl Hf1 Hf2.
  assert (E1 : exec (SelectLogs record text offset limit) (tick w)
               = Some (LogRows
                         (map (fun l => (l, Sql.any (l_record_id l)
                                              (map c_id (comments (view w)))))
                            (firstn (Z.to_nat limit)
                               (skipn (Z.to_nat offset) (listing record text (view w))))),
                       tick w)).
  { simpl. replace ((offset <? 0) || (limit <? 0)) with false; trivial.
    symmetry. apply orb_false_iff. split; now apply Z.ltb_ge. }
  unfold bind. rewrite (query_runs _ w Hf1 E1).
  set (w1 := record_stmt (SelectLogs record text offset limit) true (tick w)).
  assert (Hf2' : faults w1 (List.length (trace w1)) = false)
    by (unfold w1; simpl; now rewrite length_app, Nat.add_1_r).
  assert (E2 : exec (CountLogs record text) (tick w1)
               = Some (Count (Z.of_nat (List.length (filter (Sql.log_where record text)
                                                       (logs (view w))))),
                       tick w1)) by reflexivity.
  now rewrite (query_runs _ w1 Hf2' E2).
Qed.

Lemma page_request_runs (text : Z) (comment : option Z) (P k : nat) (w : world) :
  text <> 0 -> comment <> Some 0 -> (1 <= P)%nat ->
  getLogs (page_request text comment P k) w
  = (res <- query (SelectLogs comment text (Z.of_nat ((k - 1) * P)) (Z.of_nat P)) ;;
     count <- query (CountLogs comment text) ;;
     ret {| data := match res with LogRows ls => ls | _ => [] end;
            count := match count with Count n => n | _ => 0 end |}) w.
Proof.
  intros Htext Hcomment HP.
  unfold getLogs, page_request. cbn [lp_id lp_offset lp_limit lp_comment bound Js.Number].
  assert (HP' : Z.of_nat P <> 0) by lia.
  rewrite or_default_zero, (or_default_nonzero 50 HP'), (or_default_nonzero 1 Htext).
  replace (match Js.Number match comment with Some c => Val c | None => Absent end with
           | Some c => if c =? 0 then None else Some c
           | None => None
           end) with comment; trivial.
  destruct comment as [c|]; simpl; trivial.
  destruct (Z.eqb_spec c 0); congruence.
Qed.

Lemma firstn_then (A : Type) (m n : nat) (l : list A) :
  firstn n l ++ firstn m (skipn n l) = firstn (n + m) l.
Proof.
  revert l. induction n as [|n IH]; intros l; simpl; trivial.
  destruct l as [|x l]; simpl.
  - now rewrite firstn_nil.
  - now rewrite IH.
Qed.

Lemma firstn_twice (A : Type) (n : nat) (l : list A) :
  firstn n l ++ firstn n (skipn n l) = firstn (2 * n) l.
Proof. rewrite firstn_then. f_equal. lia. Qed.

(** X5: two consecutive pages, fetched one after the other, are the
    [2 * P] rows of the ordered listing that start where the first page
    starts: nothing is skipped between them and no row is on both; taken
    together they are strictly ordered, newest first. *)
Theorem getLogs_consecutive_pages (text : Z) (comment : option Z) (P k : nat) (w : world) :
  text <> 0 ->
  comment <> Some 0 ->
  (1 <= P)%nat ->
  (1 <= k)%nat ->
  (forall i, (i < 4)%nat -> faults w (List.length (trace w) + i) = false) ->
  NoDup (map l_id (logs (view w))) ->
  exists page1 w1 page2 w2,
    getLogs (page_request text comment P k) w = (Ok page1, w1)
    /\ getLogs (page_request text comment P (k + 1)) w1 = (Ok page2, w2)
    /\ map fst (data page1) ++ map fst (data page2)
       = firstn (2 * P) (skipn ((k - 1) * P) (listing comment text (view w)))
    /\ StronglySorted newer (map fst (data page1) ++ map fst (data page2)).
Proof.
  intros Htext Hcomment HP Hk Hfaults Hnd.
  assert (F0 := Hfaults 0%nat). assert (F1 := Hfaults 1%nat).
  assert (F2 := Hfaults 2%nat). assert (F3 := Hfaults 3%nat).
  rewrite Nat.add_0_r in F0. rewrite Nat.add_1_r in F1.
  specialize (F0 ltac:(lia)). specialize (F1 ltac:(lia)).
  specialize (F2 ltac:(lia)). specialize (F3 ltac:(lia)).
  do 4 eexists.
  split.
  { rewrite page_request_runs by trivial.
    apply getLogs_runs; trivial; apply Nat2Z.is_nonneg. }
  split.
  { rewrite page_request_runs by trivial.
    apply getLogs_runs; try apply Nat2Z.is_nonneg.
    - simpl. rewrite !length_app. simpl.
      replace (List.length (trace w) + 1 + 1)%nat with (List.length (trace w) + 2)%nat by lia.
      exact F2.
    - simpl. rewrite !length_app. simpl.
      replace (S (List.length (trace w) + 1 + 1))%nat
        with (List.length (trace w) + 3)%nat by lia.
      exact F3. }
  cbn [data]. rewrite !map_map. cbn [fst]. rewrite !map_id.
  rewrite !Nat2Z.id.
  change (view (record_stmt (CountLogs comment text) true
                  (tick (record_stmt (SelectLogs comment text (Z.of_nat ((k - 1) * P))
                                        (Z.of_nat P)) true (tick w)))))
    with (view w).
  replace ((k + 1 - 1) * P)%nat with (P + (k - 1) * P)%nat by nia.
  rewrite <- skipn_skipn.
  assert (E : firstn P (skipn ((k - 1) * P) (listing comment text (view w)))
              ++ firstn P (skipn P (skipn ((k - 1) * P) (listing comment text (view w))))
              = firstn (2 * P) (skipn ((k - 1) * P) (listing comment text (view w))))
    by apply firstn_twice.
  split; [exact E|]. rewrite E.
  apply StronglySorted_firstn, StronglySorted_skipn. now apply selected_sorted.
Qed.

End Paging.

Section PagingEdges.

(** X6: a request without offset, page size, text and comment (each
    missing, [null] or 0) is served as the first page of 50 of the text 1
    with no comment filter: in particular a page size of 0 gives up to 50
    rows, and the count is that of the text 1. *)
Theorem getLogs_defaults (params : log_params) (w : world) :
  default_request params ->
  faults w (List.length (trace w)) = false ->
  faults w (S (List.length (trace w))) = false ->
  exists page w',
    getLogs params w = (Ok page, w')
    /\ map fst (data page) = firstn 50 (listing None 1 (view w))
    /\ count page = Z.of_nat (List.length (filter (Sql.log_where None 1) (logs (view w)))).
Proof.
  intros [Ho [Hl [Hi Hc]]] Hf1 Hf2. unfold getLogs.
  rewrite (proj1 (@or_default_falsy _ 0 Ho)), (proj1 (@or_default_falsy _ 50 Hl)),
    (proj2 (@or_default_falsy _ 1 Hi)).
  replace (match Js.Number (lp_comment params) with
           | Some c => if c =? 0 then None else Some c
           | None => None
           end) with (@None Z).
  2:{ destruct (lp_comment params) as [| |c]; simpl; trivial.
      simpl in Hc. apply negb_false_iff in Hc. now rewrite Hc. }
  do 2 eexists. split.
  - apply getLogs_runs; trivial; lia.
  - cbn [data count]. rewrite map_map. cbn [fst]. rewrite map_id. split; reflexivity.
Qed.

(** X7: [getLogs] has no handler: when the store breaks on one of its
    two queries the call ends with the store's error, not with an empty
    page; and whatever happens it leaves the tables, the transaction and
    the sequences as they are. *)
Theorem getLogs_fails_loudly (params : log_params) (w : world) :
  faults w (List.length (trace w)) = true \/ faults w (S (List.length (trace w))) = true ->
  fst (getLogs params w) = Thrown DbError
  /\ committed (snd (getLogs params w)) = committed w
  /\ txn (snd (getLogs params w)) = txn w
  /\ seqs (snd (getLogs params w)) = seqs w.
Proof.
  intros Hbreak. unfold getLogs, bind.
  set (s1 := SelectLogs _ _ _ _). set (s2 := CountLogs _ _).
  destruct (query s1 w) as [[r1|e1] w1] eqn:Q1.
  - pose proof Q1 as Q1'. apply query_ok in Q1'. destruct Q1' as [Hf1 [x [E ->]]].
    assert (Hx : x = tick w).
    { unfold s1 in E. simpl in E. destruct (_ || _); [discriminate|]. now inversion E. }
    subst x.
    destruct Hbreak as [Hb|Hb]; [congruence|].
    assert (Q2 : query s2 (record_stmt s1 true (tick w))
                 = (Thrown DbError, record_stmt s2 false (tick (record_stmt s1 true (tick w))))).
    { unfold query, one_client, send.
      replace (faults (record_stmt s1 true (tick w))
                 (List.length (trace (record_stmt s1 true (tick w))))) with true; trivial.
      simpl. now rewrite length_app, Nat.add_1_r, Hb. }
    rewrite Q2. repeat split.
  - pose proof Q1 as Q1'. thrown Q1'.
    unfold query, one_client, send in Q1. destruct (faults w _).
    + inversion Q1; subst. repeat split.
    + destruct (exec s1 (tick w)) as [[? ?]|]; inversion Q1; subst. repeat split.
Qed.

End PagingEdges.

Lemma getLogs_consecutive_pages_witness :
  exists page1 w1 page2 w2,
    getLogs (page_request 1 None 1 1) world_two_comments = (Ok page1, w1)
    /\ getLogs (page_request 1 None 1 (1 + 1)) w1 = (Ok page2, w2)
    /\ map fst (data page1) ++ map fst (data page2)
       = firstn (2 * 1) (skipn ((1 - 1) * 1) (listing None 1 (view world_two_comments)))
    /\ StronglySorted newer (map fst (data page1) ++ map fst (data page2)).
Proof.
  apply (@getLogs_consecutive_pages 1 None 1%nat 1%nat world_two_comments).
  - discriminate.
  - discriminate.
  - apply le_n.
  - apply le_n.
  - intros i _. reflexivity.
  - vm_compute. repeat constructor; simpl; intuition discriminate.
Defined.

Lemma getLogs_defaults_witness :
  exists page w',
    getLogs bare_log_params world_two_comments = (Ok page, w')
    /\ map fst (data page) = firstn 50 (listing None 1 (view world_two_comments))
    /\ count page
       = Z.of_nat (List.length (filter (Sql.log_where None 1)
                                  (logs (view world_two_comments)))).
Proof.
  apply (@getLogs_defaults bare_log_params world_two_comments).
  - repeat split.
  - reflexivity.
  - reflexivity.
Defined.

Lemma getLogs_fails_loudly_witness :
  fst (getLogs bare_log_params (world_breaking_at 1)) = Thrown DbError
  /\ committed (snd (getLogs bare_log_params (world_breaking_at 1)))
     = committed (world_breaking_at 1)
  /\ txn (snd (getLogs bare_log_params (world_breaking_at 1))) = txn (world_breaking_at 1)
  /\ seqs (snd (getLogs bare_log_params (world_breaking_at 1))) = seqs (world_breaking_at 1).
Proof.
  apply (@getLogs_fails_loudly bare_log_params (world_breaking_at 1)).
  right. reflexivity.
Defined.

(** ** More on the statistics *)

Section Statistics.

(** A statement that only reads leaves the session as it is, but for
    the clock and the trace. *)
Lemma query_select (s : stmt) (w : world) :
  is_select s = true ->
  committed (snd (query s w)) = committed w
  /\ txn (snd (query s w)) = txn w
  /\ seqs (snd (query s w)) = seqs w
  /\ faults (snd (query s w)) = faults w
  /\ trace (snd (query s w)) = trace w ++ [(s, match fst (query s w) with
                                                | Ok _ => true
                                                | Thrown _ => false
                                                end)].
Proof.
  intros Hs. unfold query, one_client, send. destruct (faults w _); [repeat split|].
  destruct (exec s (tick w)) as [[r x]|] eqn:E;
    [|destruct s; try discriminate Hs; repeat split].
  assert (Hx : x = tick w).
  { destruct s; try discriminate Hs; simpl in E; case_exec E; reflexivity. }
  subst x. repeat split.
Qed.

Ltac read s w :=
  let C := fresh "C" in
  let T := fresh "T" in
  let Q := fresh "Q" in
  let F := fresh "F" in
  let R := fresh "R" in
  destruct (@query_select s w eq_refl) as [C [T [Q [F R]]]];
  destruct (query s w) as [[?r|?e] ?w]; simpl in C, T, Q, F, R.

(** X8: [getStats] only reads and handles every error: whatever the
    request and whichever queries break, it returns (the empty object or
    the statistics) and leaves the committed tables, the transaction and
    the sequences as they were. *)
Theorem getStats_reads_only (id : field Z) (w : world) :
  (exists r, fst (getStats id w) = Ok r)
  /\ committed (snd (getStats id w)) = committed w
  /\ txn (snd (getStats id w)) = txn w
  /\ seqs (snd (getStats id w)) = seqs w.
Proof.
  unfold getStats. destruct (Js.Number id) as [t|]; [|simpl; eauto].
  destruct (t =? 0); [simpl; eauto|].
  unfold try_catch, bind, ret, throw.
  read (CountComments t) w; [|simpl; eauto 6].
  destruct r; try (simpl; eauto 6; fail).
  read (SelectChanges t) w0; [|simpl; repeat split; eauto; congruence].
  read (SelectWords t) w1; [|simpl; repeat split; eauto; congruence].
  read (SelectTags t) w2; [|simpl; repeat split; eauto; congruence].
  read (SelectEtc t ready0 total0) w3; simpl; repeat split; eauto; congruence.
Qed.

(** The counters [getStats] reads for a text. *)
Lemma query_counts (t : Z) (w w1 : world) (r : rows) :
  query (CountComments t) w = (Ok r, w1) ->
  r = Counts (Z.of_nat (List.length (text_comments t (view w))))
        (Sql.count (fun c => Sql.is_true_sql (c_published c)) (text_comments t (view w)))
        (Sql.count (fun c => Sql.is_not_true_sql (c_published c)) (text_comments t (view w)))
  /\ view w1 = view w.
Proof.
  intros Q. apply query_ok in Q. destruct Q as [_ [x [E ->]]].
  simpl in E. inversion E; subst. split; reflexivity.
Qed.

Lemma count_none (A : Type) (p : A -> bool) (l : list A) :
  (forall x, In x l -> p x = false) -> Sql.count p l = 0.
Proof.
  intros H. unfold Sql.count.
  replace (filter p l) with (@nil A); trivial.
  symmetry. induction l as [|x l IH]; simpl; trivial.
  rewrite (H x (or_introl eq_refl)). apply IH. intros y Hy. apply H. now right.
Qed.

(** X9: when every comment of the text has its [published] flag set
    (true or false, not [NULL]), the counters [getStats] returns do
    partition the comments of the text: total is their number and
    total = ready + draft. *)
Theorem getStats_partition (id : field Z) (t : Z) (w : world) (c : completion) :
  Js.Number id = Some t ->
  (forall cm, In cm (text_comments t (view w)) -> c_published cm <> None) ->
  fst (getStats id w) = Ok (Stats c) ->
  total c = Z.of_nat (List.length (text_comments t (view w)))
  /\ total c = ready c + draft c.
Proof.
  intros Hid Hset. unfold getStats. rewrite Hid.
  destruct (t =? 0); [discriminate|].
  unfold try_catch, bind, ret, throw.
  destruct (query (CountComments t) w) as [[r|e] w0] eqn:Q0; [|discriminate].
  destruct (@query_counts t w w0 r Q0) as [-> _].
  read (SelectChanges t) w0; [|discriminate].
  read (SelectWords t) w1; [|discriminate].
  read (SelectTags t) w2; [|discriminate].
  destruct (query (SelectEtc t _ _) w3) as [[r3|e3] w4]; [|discriminate].
  simpl. intros H. inversion H; subst c. clear H. cbn [total ready draft].
  split; [reflexivity|].
  rewrite (counts_split (text_comments t (view w))).
  rewrite (@count_none _ (fun c => match c_published c with None => true | _ => false end)).
  - lia.
  - intros cm Hcm. specialize (Hset cm Hcm). now destruct (c_published cm).
Qed.

(** X10: the completion estimate divides by the share of published
    comments.  For a text that has comments, none of them published, and
    at least one log entry, that share is 0 and the store refuses the
    division: [getStats] then answers with the empty object, whether or
    not anything else breaks, so no counter is returned either. *)
Theorem getStats_nothing_published (id : field Z) (t : Z) (w : world) :
  Js.Number id = Some t ->
  text_comments t (view w) <> [] ->
  (forall cm, In cm (text_comments t (view w)) -> c_published cm <> Some true) ->
  existsb (Sql.log_where None t) (logs (view w)) = true ->
  fst (getStats id w) = Ok NoStats.
Proof.
  intros Hid Hsome Hnone Hlog. unfold getStats. rewrite Hid.
  destruct (t =? 0); [reflexivity|].
  unfold try_catch, bind, ret, throw.
  destruct (query (CountComments t) w) as [[r|e] w0] eqn:Q0; [|reflexivity].
  destruct (@query_counts t w w0 r Q0) as [-> V0].
  read (SelectChanges t) w0; [|reflexivity].
  read (SelectWords t) w1; [|reflexivity].
  read (SelectTags t) w2; [|reflexivity].
  assert (Hready : Sql.count (fun c => Sql.is_true_sql (c_published c))
                     (text_comments t (view w)) = 0).
  { apply count_none. intros cm Hcm. specialize (Hnone cm Hcm).
    destruct (c_published cm) as [[|]|]; trivial. congruence. }
  assert (Htotal : Z.of_nat (List.length (text_comments t (view w))) <> 0).
  { destruct (text_comments t (view w)); [contradiction|]. simpl List.length. lia. }
  rewrite Hready.
  assert (V3 : view w3 = view w).
  { unfold view in *. rewrite T1, C1, T0, C0, T, C. exact V0. }
  unfold query, one_client, send.
  destruct (faults w3 _); [reflexivity|].
  replace (exec (SelectEtc t 0 (Z.of_nat (List.length (text_comments t (view w))))) (tick w3))
    with (@None (rows * world)); [reflexivity|].
  simpl. change (view (tick w3)) with (view w3). now rewrite V3, Hlog.
Qed.

End Statistics.

Lemma getStats_partition_witness :
  total {| total := 1; ready := 1; draft := 0 |}
  = Z.of_nat (List.length (text_comments 1
                             (view (snd (setComment root published_params world_sample)))))
  /\ total {| total := 1; ready := 1; draft := 0 |}
     = ready {| total := 1; ready := 1; draft := 0 |}
       + draft {| total := 1; ready := 1; draft := 0 |}.
Proof.
  apply (@getStats_partition (Val 1) 1 (snd (setComment root published_params world_sample))).
  - reflexivity.
  - vm_compute. intros cm [<-|[]]. discriminate.
  - reflexivity.
Defined.

Lemma getStats_nothing_published_witness :
  fst (getStats (Val 1) world_one_draft) = Ok NoStats.
Proof.
  apply (@getStats_nothing_published (Val 1) 1 world_one_draft).
  - reflexivity.
  - vm_compute. discriminate.
  - vm_compute. intros cm [<-|[]]. discriminate.
  - reflexivity.
Defined.

(** ** More on accounts *)

Section Activation.

Variables (currentUser : actor) (uid : Z) (status : bool) (w : world).

Hypothesis Hadmin : a_privs currentUser = 1.
Hypothesis Htarget : uid <> 0.
Hypothesis Hserved : faults w (List.length (trace w)) = false.

Lemma changeActivationStatus_runs :
  changeActivationStatus currentUser (Val uid) status w
  = (Ok (match filter (Z.eqb uid) (map u_id (users (view w))) with
         | i :: _ => Id i
         | [] => NoRow
         end),
     record_stmt (SetActivated uid status) true
       (write (set_users (map (Sql.set_activated uid status))) (tick w))).
Proof.
  unfold changeActivationStatus. rewrite Hadmin.
  replace (uid =? 0) with false by (symmetry; now apply Z.eqb_neq).
  change (negb false && (1 =? 1)) with true. cbv iota. unfold try_catch, bind, ret.
  assert (E : exec (SetActivated uid status) (tick w)
              = Some (Ids (filter (Z.eqb uid) (map u_id (users (view w)))),
                      write (set_users (map (Sql.set_activated uid status))) (tick w)))
    by reflexivity.
  rewrite (query_runs _ w Hserved E). simpl.
  now destruct (filter (Z.eqb uid) (map u_id (users (view w)))).
Qed.

(** X11: when an administrator changes the activation of an account and
    the store serves the statement, the answer is the account's id if the
    account exists and [undefined] if not; afterwards every account with
    that id has the requested status, every other account is untouched,
    and no id, name or tier has changed. *)
Theorem changeActivationStatus_sets :
  (In uid (map u_id (users (view w))) ->
   fst (changeActivationStatus currentUser (Val uid) status w) = Ok (Id uid))
  /\ (~ In uid (map u_id (users (view w))) ->
      fst (changeActivationStatus currentUser (Val uid) status w) = Ok NoRow)
  /\ (forall u, In u (users (view (snd (changeActivationStatus currentUser (Val uid) status w)))) ->
                u_id u = uid -> u_activated u = status)
  /\ (forall u, In u (users (view w)) -> u_id u <> uid ->
                In u (users (view (snd (changeActivationStatus currentUser (Val uid) status w)))))
  /\ map (fun u => (u_id u, u_username u, u_privs u))
       (users (view (snd (changeActivationStatus currentUser (Val uid) status w))))
     = map (fun u => (u_id u, u_username u, u_privs u)) (users (view w)).
Proof.
  rewrite changeActivationStatus_runs. cbn [fst snd].
  rewrite view_record_stmt, view_write, view_tick. cbn [users set_users].
  split; [|split; [|split; [|split]]].
  - intros Hin.
    destruct (filter (Z.eqb uid) (map u_id (users (view w)))) as [|i rest] eqn:F.
    + exfalso. assert (H : In uid (filter (Z.eqb uid) (map u_id (users (view w)))))
        by (apply filter_In; split; [trivial|apply Z.eqb_refl]).
      rewrite F in H. destruct H.
    + assert (H : In i (filter (Z.eqb uid) (map u_id (users (view w)))))
        by (rewrite F; now left).
      apply filter_In in H. destruct H as [_ H]. apply Z.eqb_eq in H. now subst.
  - intros Hnot.
    destruct (filter (Z.eqb uid) (map u_id (users (view w)))) as [|i rest] eqn:F; trivial.
    exfalso. apply Hnot.
    assert (H : In i (filter (Z.eqb uid) (map u_id (users (view w)))))
      by (rewrite F; now left).
    apply filter_In in H. destruct H as [H E]. apply Z.eqb_eq in E. now subst.
  - intros u Hu Hid. apply in_map_iff in Hu. destruct Hu as [u0 [<- _]].
    unfold Sql.set_activated in *.
    destruct (Z.eqb_spec (u_id u0) uid) as [E|E]; [reflexivity|contradiction].
  - intros u Hu Hid. apply in_map_iff. exists u. split; trivial.
    unfold Sql.set_activated.
    destruct (Z.eqb_spec (u_id u) uid); [contradiction|reflexivity].
  - rewrite map_map. apply map_ext. intros u. unfold Sql.set_activated.
    now destruct (u_id u =? uid).
Qed.

End Activation.

Lemma changeActivationStatus_sets_witness :
  (In 2 (map u_id (users (view world_sample))) ->
   fst (changeActivationStatus root (Val 2) false world_sample) = Ok (Id 2))
  /\ (~ In 2 (map u_id (users (view world_sample))) ->
      fst (changeActivationStatus root (Val 2) false world_sample) = Ok NoRow)
  /\ (forall u, In u (users (view (snd (changeActivationStatus root (Val 2) false
                                          world_sample)))) ->
                u_id u = 2 -> u_activated u = false)
  /\ (forall u, In u (users (view world_sample)) -> u_id u <> 2 ->
                In u (users (view (snd (changeActivationStatus root (Val 2) false
                                          world_sample)))))
  /\ map (fun u => (u_id u, u_username u, u_privs u))
       (users (view (snd (changeActivationStatus root (Val 2) false world_sample))))
     = map (fun u => (u_id u, u_username u, u_privs u)) (users (view world_sample)).
Proof.
  apply (@changeActivationStatus_sets root 2 false world_sample).
  - reflexivity.
  - discriminate.
  - reflexivity.
Defined.

(** ** More on the user view *)

Section Controls.

(** X12: the view offers the administrative controls to tier 1 only.  A
    signed-in user of another tier, or nobody, is shown at most the Save
    button, and that one exactly on the own account. *)
Theorem user_controls_other_tiers (current : option actor) (id : string) (user : account) :
  option_map a_privs current <> Some 1 ->
  user_controls current id user
  = if option_Z_eqb (option_map a_id current) (acc_id user) then [SaveButton] else [].
Proof.
  intros Hp. unfold user_controls.
  assert (E : option_Z_eqb (option_map a_privs current) (Some 1) = false).
  { unfold option_Z_eqb. now destruct (option_Z_eq_dec _ _). }
  rewrite E. simpl. apply app_nil_r.
Qed.

(** X13: the Deactivate button is rendered exactly for an administrator
    looking at an activated account other than the own one (the route id
    is not the text of the administrator's id); the Activate button
    exactly for an administrator looking at a deactivated account; the
    two are never rendered together. *)
Theorem user_controls_activation (current : actor) (id : string) (user : account) :
  a_privs current = 1 ->
  (In DeactivateButton (user_controls (Some current) id user)
   <-> acc_activated user = true /\ Js.String_of (a_id current) <> id)
  /\ (In ActivateButton (user_controls (Some current) id user)
      <-> acc_activated user = false)
  /\ ~ (In DeactivateButton (user_controls (Some current) id user)
        /\ In ActivateButton (user_controls (Some current) id user)).
Proof.
  intros Hp. unfold user_controls. cbn [option_map]. rewrite Hp.
  change (option_Z_eqb (Some 1) (Some 1)) with true. cbv iota. cbn [andb].
  destruct (acc_activated user);
    destruct (String.eqb_spec (Js.String_of (a_id current)) id) as [E|E];
    destruct (1 <? acc_privs user); simpl;
    repeat split; intros; intuition (try discriminate; try congruence).
Qed.

End Controls.

Lemma user_controls_other_tiers_witness :
  user_controls (Some editor) "2" {| acc_id := Some 2; acc_privs := 5; acc_activated := true |}
  = if option_Z_eqb (option_map a_id (Some editor)) (acc_id {| acc_id := Some 2; acc_privs := 5;
                                                               acc_activated := true |})
    then [SaveButton] else [].
Proof.
  apply (@user_controls_other_tiers (Some editor) "2"
           {| acc_id := Some 2; acc_privs := 5; acc_activated := true |}).
  discriminate.
Defined.

Lemma user_controls_activation_witness :
  (In DeactivateButton
      (user_controls (Some root) "2" {| acc_id := Some 2; acc_privs := 5; acc_activated := true |})
   <-> acc_activated {| acc_id := Some 2; acc_privs := 5; acc_activated := true |} = true
       /\ Js.String_of (a_id root) <> "2")
  /\ (In ActivateButton
        (user_controls (Some root) "2" {| acc_id := Some 2; acc_privs := 5; acc_activated := true |})
      <-> acc_activated {| acc_id := Some 2; acc_privs := 5; acc_activated := true |} = false)
  /\ ~ (In DeactivateButton
          (user_controls (Some root) "2" {| acc_id := Some 2; acc_privs := 5; acc_activated := true |})
        /\ In ActivateButton
             (user_controls (Some root) "2" {| acc_id := Some 2; acc_privs := 5; acc_activated := true |})).
Proof.
  apply (@user_controls_activation root "2"
           {| acc_id := Some 2; acc_privs := 5; acc_activated := true |}).
  reflexivity.
Defined.

(** ** More on the snapshot differ *)

Section DifferOrder.

Lemma Subsequence_refl (A : Type) (l : list A) : Subsequence l l.
Proof. induction l; constructor; trivial. Qed.

Lemma Subsequence_app (A : Type) (a1 a2 b1 b2 : list A) :
  Subsequence a1 a2 -> Subsequence b1 b2 -> Subsequence (a1 ++ b1) (a2 ++ b2).
Proof.
  intros Ha Hb. induction Ha as [l|x l1 l2 _ IH|x l1 l2 _ IH]; simpl.
  - induction l as [|y l IH]; simpl; trivial. now constructor.
  - now constructor.
  - now constructor.
Qed.

Lemma pushed_sub (b : bool) (f : string * string) : Subsequence (pushed b f) [f].
Proof. destruct b; simpl; repeat constructor. Qed.

Lemma flat_map_sub (A : Type) (p : A -> bool) (l : list A) :
  Subsequence (flat_map (fun x => if p x then [x] else []) l) l.
Proof.
  induction l as [|x l IH]; simpl; [constructor|].
  destruct (p x); simpl; now constructor.
Qed.

Lemma in_pushed (b : bool) (f g : string * string) :
  In f (pushed b g) <-> b = true /\ g = f.
Proof.
  destruct b; simpl; split.
  - intros [E|[]]. auto.
  - intros [_ E]. now left.
  - intros [].
  - intros [E _]. discriminate.
Qed.

Lemma in_flat_pushed (p : string * string -> bool) (l : list (string * string))
  (f : string * string) :
  In f (flat_map (fun x => pushed (p x) x) l) <-> In f l /\ p f = true.
Proof.
  rewrite in_flat_map. split.
  - intros [x [Hx Hp]]. apply in_pushed in Hp. destruct Hp as [Hp ->]. auto.
  - intros [Hf Hp]. exists f. split; trivial. apply in_pushed. auto.
Qed.

(** [a !== b] holds exactly when the two differ. *)
Lemma field_differs_spec (A : Type) (eqb : A -> A -> bool) (a b : field A) :
  (forall x y, eqb x y = true <-> x = y) ->
  Js.field_differs eqb a b = true <-> a <> b.
Proof.
  intros Heq. destruct a as [| |x], b as [| |y]; simpl;
    try (split; [discriminate|congruence]);
    try (split; [intros _; discriminate|reflexivity]).
  rewrite negb_true_iff. split.
  - intros H E. inversion E; subst. rewrite (proj2 (Heq y y) eq_refl) in H. discriminate.
  - intros H. destruct (eqb x y) eqn:E; trivial.
    apply Heq in E. subst. now elim H.
Qed.

Lemma differs_spec (a b : option string) : Js.differs a b = true <-> a <> b.
Proof.
  destruct a as [x|], b as [y|]; simpl;
    try (split; [intros _; discriminate|reflexivity]);
    try (split; [discriminate|congruence]).
  rewrite negb_true_iff. split.
  - intros H E. inversion E; subst. rewrite String.eqb_refl in H. discriminate.
  - intros H. destruct (String.eqb_spec x y) as [E|E]; trivial. subst. now elim H.
Qed.

Lemma bool_eqb_spec (x y : bool) : Bool.eqb x y = true <-> x = y.
Proof. split; [apply eqb_prop|intros ->; apply eqb_reflx]. Qed.

(** X14: the answer of the differ is the list of the fields (title,
    priority, published, tags, issues, then the fields of the scheme in
    the order of the scheme) with the unchanged ones left out, the scheme
    having no field labelled like one of the first five.  A field is
    reported exactly when it has changed: the title, the priority and the
    flag when the two values differ; the issues and a field of the scheme
    when their JSON texts differ; the tags when the set of the tags of
    both snapshots has not as many members as the first snapshot has
    tags. *)
Theorem compareRecords_order (scheme : scheme_fields) (id : Z) (data0 data1 : snapshot)
  (fields : list (string * string)) :
  compareRecords scheme id data0 data1 = Ok (Fields fields) ->
  (forall f, In f fixed_fields -> ~ In f scheme) ->
  Subsequence fields (fixed_fields ++ scheme)
  /\ (In ("title", "Title") fields <-> s_title data0 <> s_title data1)
  /\ (In ("priority", "Priority") fields <-> s_priority data0 <> s_priority data1)
  /\ (In ("published", "Status") fields <-> s_published data0 <> s_published data1)
  /\ (In ("tags", "Tags") fields
      <-> exists tags0, s_tags data0 = Val tags0
                        /\ List.length tags0 <> set_size (concat_tags tags0 (s_tags data1)))
  /\ (In ("issues", "Issues") fields
      <-> stringify_issues_of data0 <> stringify_issues_of data1)
  /\ (forall x, In x scheme ->
                (In x fields
                 <-> stringify_entry_of (fst x) data0 <> stringify_entry_of (fst x) data1)).
Proof.
  unfold compareRecords.
  destruct (negb (Js.truthy_str (s_title data0))); [discriminate|].
  destruct (s_tags data0) as [| |tags0] eqn:Htags; try discriminate.
  intros H Hscheme. inversion H; subst. clear H.
  split.
  { change (fixed_fields ++ scheme)
      with ([("title", "Title")] ++ [("priority", "Priority")] ++ [("published", "Status")]
            ++ [("tags", "Tags")] ++ [("issues", "Issues")] ++ scheme).
    repeat (apply Subsequence_app; [apply pushed_sub|]).
    apply (flat_map_sub (fun x => Js.differs (stringify_entry_of (fst x) data0)
                                    (stringify_entry_of (fst x) data1))). }
  assert (Hfixed : forall f, In f fixed_fields ->
            ~ In f (flat_map
                      (fun x => pushed (Js.differs (stringify_entry_of (fst x) data0)
                                                   (stringify_entry_of (fst x) data1)) x)
                      scheme)).
  { intros f Hf Hin. apply in_flat_pushed in Hin. destruct Hin as [Hin _].
    exact (Hscheme f Hf Hin). }
  assert (T : In ("title", "Title") fixed_fields) by (simpl; tauto).
  assert (P : In ("priority", "Priority") fixed_fields) by (simpl; tauto).
  assert (S : In ("published", "Status") fixed_fields) by (simpl; tauto).
  assert (G : In ("tags", "Tags") fixed_fields) by (simpl; tauto).
  assert (I : In ("issues", "Issues") fixed_fields) by (simpl; tauto).
  apply Hfixed in T, P, S, G, I.
  repeat split; rewrite ?in_app_iff, ?in_pushed.
  - intros H. apply (field_differs_spec String.eqb); [apply String.eqb_eq|].
    repeat destruct H as [H|H]; try (destruct H as [_ H]; discriminate H);
      try contradiction. apply H.
  - intros H. left. split; [|reflexivity].
    apply (field_differs_spec String.eqb); [apply String.eqb_eq|exact H].
  - intros H. apply (field_differs_spec Z.eqb); [apply Z.eqb_eq|].
    repeat destruct H as [H|H]; try (destruct H as [_ H]; discriminate H);
      try contradiction. apply H.
  - intros H. right. left. split; [|reflexivity].
    apply (field_differs_spec Z.eqb); [apply Z.eqb_eq|exact H].
  - intros H. apply (field_differs_spec Bool.eqb); [apply bool_eqb_spec|].
    repeat destruct H as [H|H]; try (destruct H as [_ H]; discriminate H);
      try contradiction. apply H.
  - intros H. do 2 right. left. split; [|reflexivity].
    apply (field_differs_spec Bool.eqb); [apply bool_eqb_spec|exact H].
  - intros H. exists tags0. split; [reflexivity|].
    assert (D : tags_differ tags0 (s_tags data1) = true).
    { repeat destruct H as [H|H]; try (destruct H as [_ H]; discriminate H);
        try contradiction. apply H. }
    unfold tags_differ in D. apply negb_true_iff in D. now apply Nat.eqb_neq.
  - intros [tags [E H]]. inversion E; subst tags. do 3 right. left. split; [|reflexivity].
    unfold tags_differ. apply negb_true_iff. now apply Nat.eqb_neq.
  - intros H. apply differs_spec.
    repeat destruct H as [H|H]; try (destruct H as [_ H]; discriminate H);
      try contradiction. apply H.
  - intros H. do 4 right. left. split; [|reflexivity]. now apply differs_spec.
  - intros D. apply differs_spec.
    repeat destruct D as [D|D];
      try (destruct D as [_ D]; subst x; exfalso; eapply Hscheme; [|eassumption];
           simpl; tauto).
    apply in_flat_pushed in D. apply D.
  - intros D. do 5 right. apply in_flat_pushed. split; trivial. now apply differs_spec.
Qed.

Lemma not_incl_witness (a b : list Z) :
  ~ incl a b <-> exists t, In t a /\ ~ In t b.
Proof.
  split.
  - induction a as [|x a IH]; intros H.
    + exfalso. apply H. intros y [].
    + destruct (in_dec Z.eq_dec x b) as [Hx|Hx].
      * destruct IH as [t [Ht Hb]].
        { intros Ha. apply H. intros y [<-|Hy]; auto. }
        exists t. split; [now right|trivial].
      * exists x. split; [now left|trivial].
  - intros [t [Ht Hb]] H. apply Hb. now apply H.
Qed.

(** X15: for a before-snapshot with a non-empty title and tags without
    duplicates, and a scheme that has no field named like the tags label,
    the differ reports the tags exactly when the after-snapshot has a tag
    the before-snapshot has not.  Tags that were only removed or
    reordered are not reported. *)
Theorem compareRecords_tags_added (scheme : scheme_fields) (id : Z) (data0 data1 : snapshot)
  (title : string) (tags0 tags1 : list Z) :
  s_title data0 = Val title ->
  title <> EmptyString ->
  s_tags data0 = Val tags0 ->
  NoDup tags0 ->
  s_tags data1 = Val tags1 ->
  ~ In ("tags", "Tags") scheme ->
  exists fields,
    compareRecords scheme id data0 data1 = Ok (Fields fields)
    /\ (In ("tags", "Tags") fields <-> exists t, In t tags1 /\ ~ In t tags0).
Proof.
  intros Htitle Hne Htags0 Hnd Htags1 Hscheme. unfold compareRecords.
  rewrite Htitle, Htags0, Htags1.
  replace (Js.truthy_str (Val title)) with true
    by (destruct title; [contradiction | reflexivity]).
  simpl negb. cbv iota. eexists. split; [reflexivity|].
  rewrite <- not_incl_witness, <- (tags_differ_spec tags1 Hnd).
  rewrite !in_app_iff.
  assert (Hflat : ~ In ("tags", "Tags")
                    (flat_map (fun x => pushed (Js.differs (stringify_entry_of (fst x) data0)
                                                   (stringify_entry_of (fst x) data1)) x)
                       scheme)).
  { intros Hin. apply in_flat_map in Hin. destruct Hin as [x [Hx Hp]].
    destruct (Js.differs _ _); simpl in Hp; [|contradiction].
    destruct Hp as [E|[]]. subst x. contradiction. }
  unfold pushed at 1 2 3 4 5.
  destruct (tags_differ tags0 (Val tags1)); split.
  - discriminate.
  - intros _. do 3 right. left. now left.
  - intros H.
    repeat match type of H with
           | _ \/ _ => destruct H as [H|H]
           end;
      try contradiction;
      repeat match type of H with
             | In _ (if ?b then _ else _) => destruct b; simpl in H
             | _ \/ _ => destruct H as [H|H]
             end; try contradiction; try discriminate.
  - intros H. now elim H.
Qed.

End DifferOrder.

Lemma compareRecords_order_witness :
  Subsequence [("tags", "Tags")] (fixed_fields ++ [("note", "Note")])
  /\ (In ("title", "Title") [("tags", "Tags")] <-> s_title after_sample <> s_title before_sample)
  /\ (In ("priority", "Priority") [("tags", "Tags")]
      <-> s_priority after_sample <> s_priority before_sample)
  /\ (In ("published", "Status") [("tags", "Tags")]
      <-> s_published after_sample <> s_published before_sample)
  /\ (In ("tags", "Tags") [("tags", "Tags")]
      <-> exists tags0, s_tags after_sample = Val tags0
                        /\ List.length tags0
                           <> set_size (concat_tags tags0 (s_tags before_sample)))
  /\ (In ("issues", "Issues") [("tags", "Tags")]
      <-> stringify_issues_of after_sample <> stringify_issues_of before_sample)
  /\ (forall x, In x [("note", "Note")] ->
                (In x [("tags", "Tags")]
                 <-> stringify_entry_of (fst x) after_sample
                     <> stringify_entry_of (fst x) before_sample)).
Proof.
  apply (@compareRecords_order [("note", "Note")] 7 after_sample before_sample
           [("tags", "Tags")]).
  - reflexivity.
  - simpl. intros f Hf [E|[]]. subst f.
    repeat destruct Hf as [Hf|Hf]; try discriminate Hf. exact Hf.
Defined.

Lemma compareRecords_tags_added_witness :
  exists fields,
    compareRecords [("note", "Note")] 7 after_sample before_sample = Ok (Fields fields)
    /\ (In ("tags", "Tags") fields <-> exists t, In t [1; 2] /\ ~ In t [1]).
Proof.
  apply (@compareRecords_tags_added [("note", "Note")] 7 after_sample before_sample "Intro"
           [1] [1; 2]).
  - reflexivity.
  - discriminate.
  - reflexivity.
  - repeat constructor; simpl; intuition.
  - reflexivity.
  - simpl. intuition discriminate.
Defined.

(** ** More on saving a comment *)

Section Saved.

Variables (user : actor) (params : comment_params).










End Saved.




(** ** More on ingestion *)

Section Ingested.

Variables (textId : option Z) (langId : option string).

Lemma seqs_write (f : tables -> tables) (w : world) : seqs (write f w) = seqs w.
Proof. unfold write. now destruct (txn w). Qed.

(** What a loop that completes has done to the strings and the tokens
    the session sees. *)
Lemma insert_items_strings (client : nat) (batch : list item) :
  forall w w',
    insert_items client textId langId batch w = (Ok tt, w') ->
    strings (view w')
    = strings (view w) ++ strings_of_batch textId (strings_seq (seqs w)) batch
    /\ (forall t, In t (tokens (view w)) -> In t (tokens (view w')))
    /\ (forall it, In it batch ->
                   exists tok t, i_repr it = Some tok /\ In t (tokens (view w'))
                                 /\ t_token t = tok
                                 /\ (forall l, langId = Some l -> t_lang t = Some l))
    /\ texts (view w') = texts (view w).
Proof.
  induction batch as [|it rest IH]; intros w w' H; simpl in H.
  - unfold ret in H. inversion H; subst. simpl. rewrite app_nil_r.
    repeat split; trivial. intros it [].
  - unfold bind in H.
    step Q1 w1; [|discriminate]. step Q2 w2; [|discriminate].
    apply IH in H. destruct H as [Hs [Hmono [Hall Htexts]]]. clear IH.
    apply query_ok in Q1. destruct Q1 as [_ [x1 [E1 ->]]].
    destruct (i_repr it) as [tok|] eqn:Hrepr; simpl in E1; [|discriminate].
    apply query_ok in Q2. destruct Q2 as [_ [x2 [E2 ->]]]. simpl in E2.
    destruct (Sql.references textId _ && _); [|discriminate].
    inversion E2; subst x2. clear E2.
    rewrite view_record_stmt, view_write, view_set_seqs, view_tick, view_record_stmt in *.
    cbn [strings tokens texts set_strings seqs set_seqs record_stmt tick strings_seq
           bump_strings] in *.
    assert (V1 : strings (view x1) = strings (view w)
                 /\ strings_seq (seqs x1) = strings_seq (seqs w)
                 /\ texts (view x1) = texts (view w)
                 /\ (forall t, In t (tokens (view w)) -> In t (tokens (view x1)))
                 /\ exists t, In t (tokens (view x1)) /\ t_token t = tok
                              /\ (forall l, langId = Some l -> t_lang t = Some l)).
    { rewrite ?view_tick in E1.
      destruct (existsb _ (tokens (view w))) eqn:Ex;
        [|destruct (Sql.fresh _ _); [|discriminate]]; inversion E1; subst x1; clear E1.
      - rewrite view_set_seqs, view_tick. repeat split; trivial.
        apply existsb_exists in Ex. destruct Ex as [t [Hin Ht]].
        apply andb_true_iff in Ht. destruct Ht as [Ht Hl]. apply String.eqb_eq in Ht.
        exists t. repeat split; trivial.
        intros l ->. unfold Sql.text_eq in Hl.
        destruct (t_lang t) as [l'|]; [|discriminate].
        apply String.eqb_eq in Hl. now subst.
      - rewrite view_write, view_set_seqs, view_tick.
        cbn [strings tokens texts set_tokens].
        assert (Hq : strings_seq (seqs (write (set_tokens (fun ts => ts ++ [{| t_id := tokens_seq (seqs (tick w)); t_token := tok; t_meta := i_meta it; t_lang := langId |}])) (set_seqs (bump_tokens (seqs (tick w))) (tick w)))) = strings_seq (seqs w))
          by (unfold write; destruct (txn _); reflexivity).
        repeat split; trivial.
        + intros t Ht. apply in_or_app. now left.
        + eexists. split; [apply in_or_app; right; now left|]. split; [reflexivity|].
          intros l Hl. exact Hl. }
    destruct V1 as [Vs [Vq [Vt [Vmono [t [Htin [Httok Htlang]]]]]]].
    rewrite seqs_write in Hs. cbn [seqs set_seqs strings_seq bump_strings] in Hs.
    rewrite Vs, Vq in Hs. rewrite Vt in Htexts.
    split; [|split; [|split]].
    + rewrite Hs, <- app_assoc. simpl. unfold string_of_item. now rewrite Hrepr.
    + intros t0 Ht0. apply Hmono. now apply Vmono.
    + intros it0 [<-|Hin].
      * exists tok, t. repeat split; trivial. now apply Hmono.
      * now apply Hall.
    + exact Htexts.
Qed.

(** What a call that returns the elapsed time has committed: the work of
    the loop, run on the tables as they were, and then the linking of the
    strings to the tokens. *)
Lemma insertBatchIntoStrings_committed (batch : list item) (noStdout : bool)
  (w w' : world) (secs : Z) :
  txn w = None ->
  insertBatchIntoStrings textId batch langId noStdout w = (Ok (Secs secs), w') ->
  exists w1 w2,
    view w1 = committed w /\ seqs w1 = seqs w
    /\ insert_items 0%nat textId langId batch w1 = (Ok tt, w2)
    /\ committed w'
       = set_strings (map (Sql.link_token langId (tokens (view w2)))) (view w2).
Proof.
  intros Hidle H.
  unfold insertBatchIntoStrings in H.
  cbn [performance_now connect release one_client] in H.
  unfold try_finally, try_catch, bind, ret in H.
  step Q0 x0; [|discriminate].
  apply query_ok in Q0. destruct Q0 as [_ [x [E ->]]]. simpl in E. inversion E; subst x r.
  clear E.
  step Q1 x1.
  2:{ destruct (query ROLLBACK x1) as [[?|?] ?]; discriminate. }
  apply query_ok in Q1. destruct Q1 as [_ [x [E ->]]]. simpl in E. rewrite Hidle in E.
  inversion E; subst x r. clear E.
  set (w1 := record_stmt BEGIN true _) in *.
  assert (I1 : in_txn (committed w) w1) by (split; [reflexivity|discriminate]).
  destruct (insert_items 0%nat textId langId batch w1) as [[[]|e2] w2] eqn:Q2;
    cbv beta iota in H.
  2:{ destruct (query ROLLBACK w2) as [[?|?] ?]; discriminate. }
  pose proof (@insert_items_in_txn textId langId 0%nat (committed w) batch w1 _ w2 I1 Q2) as I2.
  step Q3 w3.
  2:{ destruct (query ROLLBACK w3) as [[?|?] ?]; discriminate. }
  assert (I3 : in_txn (committed w) w3)
    by (eapply query_in_txn; [exact I2| | |exact Q3]; discriminate).
  step Q4 w4.
  2:{ destruct (query ROLLBACK w4) as [[?|?] ?]; discriminate. }
  inversion H; subst. clear H.
  exists w1, w2. split; [reflexivity|]. split; [reflexivity|]. split; [exact Q2|].
  rewrite (@query_commit (committed w) w3 w' r0 I3 Q4).
  apply query_ok in Q3. destruct Q3 as [_ [x [E ->]]]. simpl in E.
  inversion E; subst. now rewrite view_record_stmt, view_write, view_tick.
Qed.

Lemma link_token_position (toks : list token) (r : string_row) :
  position (Sql.link_token langId toks r) = position r
  /\ st_id (Sql.link_token langId toks r) = st_id r.
Proof.
  unfold Sql.link_token. destruct (find _ toks); split; reflexivity.
Qed.

Lemma strings_of_batch_position (first : Z) (batch : list item) :
  map position (strings_of_batch textId first batch)
  = map (fun it => (textId, i_p it, i_s it, i_form it, i_repr it)) batch.
Proof.
  revert first. induction batch as [|it rest IH]; intros first; simpl; trivial.
  now rewrite IH.
Qed.

(** X19: a call of [insertBatchIntoStrings] that returns the elapsed
    time has appended one string per record of the batch, after the
    strings that were there and in the order of the batch, each with the
    text id, coordinates, form and token text of its record; the strings
    that were there keep their ids and positions. *)
Theorem insertBatchIntoStrings_appends (batch : list item) (noStdout : bool)
  (w w' : world) (secs : Z) :
  txn w = None ->
  insertBatchIntoStrings textId batch langId noStdout w = (Ok (Secs secs), w') ->
  exists old new,
    strings (committed w') = old ++ new
    /\ map st_id old = map st_id (strings (committed w))
    /\ map position old = map position (strings (committed w))
    /\ map position new
       = map (fun it => (textId, i_p it, i_s it, i_form it, i_repr it)) batch.
Proof.
  intros Hidle Hrun.
  destruct (@insertBatchIntoStrings_committed batch noStdout w w' secs Hidle Hrun)
    as [w1 [w2 [V1 [S1 [Hloop Hc]]]]].
  destruct (@insert_items_strings 0%nat batch w1 w2 Hloop) as [Hs _].
  rewrite Hc. cbn [strings set_strings]. rewrite Hs, V1, map_app.
  do 2 eexists. split; [reflexivity|]. rewrite !map_map.
  split; [|split].
  - apply map_ext. intros r. apply link_token_position.
  - apply map_ext. intros r. apply link_token_position.
  - rewrite <- (strings_of_batch_position (strings_seq (seqs w1)) batch), <- map_map.
    rewrite map_map. apply map_ext. intros r. apply link_token_position.
Qed.

(** X20: after a call of [insertBatchIntoStrings] for a language that
    returns the elapsed time, every string of the batch is linked: its
    [token_id] is the id of a committed token whose text is the string's
    token text and whose language is the one ingested. *)
Theorem insertBatchIntoStrings_links (batch : list item) (noStdout : bool)
  (w w' : world) (secs : Z) (l : string) :
  txn w = None ->
  langId = Some l ->
  insertBatchIntoStrings textId batch langId noStdout w = (Ok (Secs secs), w') ->
  exists old new,
    strings (committed w') = old ++ new
    /\ List.length new = List.length batch
    /\ forall r, In r new ->
                 exists t, In t (tokens (committed w'))
                           /\ st_token_id r = Some (t_id t)
                           /\ Some (t_token t) = st_repr r
                           /\ t_lang t = Some l.
Proof.
  intros Hidle Hlang Hrun.
  destruct (@insertBatchIntoStrings_committed batch noStdout w w' secs Hidle Hrun)
    as [w1 [w2 [V1 [S1 [Hloop Hc]]]]].
  destruct (@insert_items_strings 0%nat batch w1 w2 Hloop) as [Hs [_ [Hall _]]].
  rewrite Hc. cbn [strings tokens set_strings]. rewrite Hs, map_app.
  do 2 eexists. split; [reflexivity|]. split.
  - rewrite length_map.
    rewrite <- (length_map position), strings_of_batch_position. apply length_map.
  - intros r Hr. apply in_map_iff in Hr. destruct Hr as [r0 [<- Hr0]].
    assert (Hitem : exists it, In it batch /\ st_repr r0 = i_repr it).
    { clear - Hr0. revert Hr0. generalize (strings_seq (seqs w1)).
      induction batch as [|it rest IH]; intros first; simpl; [contradiction|].
      intros [<-|Hin]; [exists it; split; [now left|reflexivity]|].
      destruct (IH _ Hin) as [it0 [H0 E0]]. exists it0. split; [now right|trivial]. }
    destruct Hitem as [it [Hit Erepr]].
    destruct (Hall it Hit) as [tok [t [Htok [Hin [Htt Htl]]]]].
    unfold Sql.link_token.
    destruct (find (fun t0 => Sql.text_eq (t_lang t0) langId
                              && Sql.text_eq (Some (t_token t0)) (st_repr r0))
                (tokens (view w2))) as [t1|] eqn:F.
    + apply find_some in F. destruct F as [Hin1 Hm].
      apply andb_true_iff in Hm. destruct Hm as [Hl Ht].
      exists t1. split; [exact Hin1|]. split; [reflexivity|].
      cbn [st_repr Sql.set_string_token]. split.
      * unfold Sql.text_eq in Ht. destruct (st_repr r0) as [rp|]; [|discriminate].
        apply String.eqb_eq in Ht. now subst.
      * rewrite Hlang in Hl. unfold Sql.text_eq in Hl.
        destruct (t_lang t1) as [l1|]; [|discriminate].
        apply String.eqb_eq in Hl. now subst.
    + exfalso. pose proof (find_none _ _ F t Hin) as Hn. simpl in Hn.
      rewrite (Htl l Hlang), Hlang, Erepr, Htok, Htt in Hn. simpl in Hn.
      now rewrite !String.eqb_refl in Hn.
Qed.

(** X21: a batch with a record that has no [repr] is never ingested:
    the token insertion of that record is refused, the call does not
    return the elapsed time and nothing of the batch is committed. *)
Theorem insertBatchIntoStrings_needs_repr (batch : list item) (noStdout : bool)
  (w : world) (it : item) :
  txn w = None ->
  In it batch ->
  i_repr it = None ->
  (forall secs, fst (insertBatchIntoStrings textId batch langId noStdout w) <> Ok (Secs secs))
  /\ committed (snd (insertBatchIntoStrings textId batch langId noStdout w)) = committed w.
Proof.
  intros Hidle Hin Hnone.
  destruct (insertBatchIntoStrings textId batch langId noStdout w) as [o w'] eqn:Hrun.
  destruct (@insertBatchIntoStrings_outcome textId langId batch noStdout w w' o Hidle Hrun)
    as [[e [w1 [w2 [_ [_ [_ [_ [Hloop _]]]]]]]] | [Hc Ho]].
  - exfalso. destruct (@insert_items_strings 0%nat batch w1 w2 Hloop) as [_ [_ [Hall _]]].
    destruct (Hall it Hin) as [tok [_ [Htok _]]]. congruence.
  - cbn [fst snd]. split; [|exact Hc].
    intros secs E. destruct Ho as [Ho|[x Ho]]; congruence.
Qed.

End Ingested.

Lemma insertBatchIntoStrings_appends_witness :
  exists old new,
    strings (committed (snd (insertBatchIntoStrings (Some 1) [cat; capital_cat] (Some "en")
                               true world_strings_ready)))
    = old ++ new
    /\ map st_id old = map st_id (strings (committed world_strings_ready))
    /\ map position old = map position (strings (committed world_strings_ready))
    /\ map position new
       = map (fun it => (Some 1, i_p it, i_s it, i_form it, i_repr it)) [cat; capital_cat].
Proof.
  apply (@insertBatchIntoStrings_appends (Some 1) (Some "en") [cat; capital_cat] true
           world_strings_ready
           (snd (insertBatchIntoStrings (Some 1) [cat; capital_cat] (Some "en") true
                   world_strings_ready)) 8).
  - reflexivity.
  - vm_compute. reflexivity.
Defined.

Lemma insertBatchIntoStrings_links_witness :
  exists old new,
    strings (committed (snd (insertBatchIntoStrings (Some 1) [cat; capital_cat] (Some "en")
                               true world_strings_ready)))
    = old ++ new
    /\ List.length new = List.length [cat; capital_cat]
    /\ forall r, In r new ->
                 exists t,
                   In t (tokens (committed (snd (insertBatchIntoStrings (Some 1)
                                                   [cat; capital_cat] (Some "en") true
                                                   world_strings_ready))))
                   /\ st_token_id r = Some (t_id t)
                   /\ Some (t_token t) = st_repr r
                   /\ t_lang t = Some "en".
Proof.
  apply (@insertBatchIntoStrings_links (Some 1) (Some "en") [cat; capital_cat] true
           world_strings_ready
           (snd (insertBatchIntoStrings (Some 1) [cat; capital_cat] (Some "en") true
                   world_strings_ready)) 8 "en").
  - reflexivity.
  - reflexivity.
  - vm_compute. reflexivity.
Defined.

Lemma insertBatchIntoStrings_needs_repr_witness :
  (forall secs,
      fst (insertBatchIntoStrings (Some 1) [cat; tokenless] (Some "en") true world_sample)
      <> Ok (Secs secs))
  /\ committed (snd (insertBatchIntoStrings (Some 1) [cat; tokenless] (Some "en") true
                       world_sample))
     = committed world_sample.
Proof.
  apply (@insertBatchIntoStrings_needs_repr (Some 1) (Some "en") [cat; tokenless] true
           world_sample tokenless).
  - reflexivity.
  - right. now left.
  - reflexivity.
Defined.


(** ** Tiers *)

Section Tiers.

Lemma tier_allowed (p : field Z) : In (Admin.tier p) [1; 5; 7].
Proof.
  unfold Admin.tier. destruct (Js.Number p) as [n|]; [|simpl; auto].
  destruct (existsb (Z.eqb n) [1; 5; 7]) eqn:E; [|simpl; auto].
  apply existsb_exists in E. destruct E as [x [Hx E]].
  apply Z.eqb_eq in E. subst. exact Hx.
Qed.

Lemma tier_kept (p : Z) : In p [1; 5; 7] -> Admin.tier (Val p) = p.
Proof.
  intros H.
  assert (T : existsb (Z.eqb p) [1; 5; 7] = true).
  { apply existsb_exists. exists p. split; [exact H|apply Z.eqb_refl]. }
  unfold Admin.tier, Js.Number. rewrite T. reflexivity.
Qed.

Lemma ask_ok (q : Admin.statement) (s s' : Admin.store) (r : Admin.reply) :
  Admin.ask q s = (Ok r, s') ->
  Admin.breaks s (Admin.sent s) = false
  /\ Admin.perform q (Admin.count_sent s) = Some (r, s').
Proof.
  unfold Admin.ask. destruct (Admin.breaks s (Admin.sent s)); [discriminate|].
  destruct (Admin.perform q (Admin.count_sent s)) as [[r0 s0]|]; [|discriminate].
  intros H. inversion H. auto.
Qed.

Lemma ask_thrown (q : Admin.statement) (s s' : Admin.store) (e : exn) :
  Admin.ask q s = (Thrown e, s') -> s' = Admin.count_sent s.
Proof.
  unfold Admin.ask. destruct (Admin.breaks s (Admin.sent s)).
  - intros H. inversion H. reflexivity.
  - destruct (Admin.perform q (Admin.count_sent s)) as [[r0 s0]|].
    + discriminate.
    + intros H. inversion H. reflexivity.
Qed.

Lemma ask_served (q : Admin.statement) (s : Admin.store) :
  Admin.breaks s (Admin.sent s) = false ->
  Admin.ask q s = match Admin.perform q (Admin.count_sent s) with
                  | Some (r, s2) => (Ok r, s2)
                  | None => (Thrown DbError, Admin.count_sent s)
                  end.
Proof. intros H. unfold Admin.ask. rewrite H. reflexivity. Qed.

Lemma Forall2_same {X : Type} (R : X -> X -> Prop) (l : list X) :
  (forall x, In x l -> R x x) -> Forall2 R l l.
Proof.
  induction l as [|x l IH]; intros H; constructor.
  - apply H. now left.
  - apply IH. intros y Hy. apply H. now right.
Qed.

Lemma Forall2_mapped {X : Type} (R : X -> X -> Prop) (f : X -> X) (l : list X) :
  (forall x, In x l -> R x (f x)) -> Forall2 R l (map f l).
Proof.
  induction l as [|x l IH]; intros H; simpl; constructor.
  - apply H. now left.
  - apply IH. intros y Hy. apply H. now right.
Qed.

(** The users after any call of [elevateUser]. *)
Lemma elevateUser_users (currentUser : actor) (userId userPrivs : field Z) (s : Admin.store) :
  users (Admin.base (snd (Admin.elevateUser currentUser userId userPrivs s)))
  = users (Admin.base s)
  \/ exists uid, userId = Val uid /\ a_privs currentUser = 1
     /\ users (Admin.base (snd (Admin.elevateUser currentUser userId userPrivs s)))
        = map (Admin.set_privs uid (Admin.tier userPrivs)) (users (Admin.base s)).
Proof.
  unfold Admin.elevateUser.
  destruct userId as [| |uid]; try (now left).
  destruct (negb (uid =? 0) && (a_privs currentUser =? 1)) eqn:G; [|now left].
  apply andb_prop in G. destruct G as [_ G]. apply Z.eqb_eq in G.
  unfold Admin.handle, Admin.andThen, Admin.pure.
  destruct (Admin.ask (Admin.SetPrivs uid (Admin.tier userPrivs)) s) as [[r|e] s1] eqn:Q.
  - apply ask_ok in Q. destruct Q as [_ Q]. simpl in Q. inversion Q; subst.
    right. exists uid. repeat split; auto.
  - apply ask_thrown in Q. subst. now left.
Qed.

(** X22: whatever is requested and whoever asks, [elevateUser] leaves
    each user either as it was or, when the caller is an administrator
    and the user is the target, with a tier that is one of 1, 5 and 7
    and the rest of the row as before. *)
Theorem elevateUser_tiers (currentUser : actor) (userId userPrivs : field Z) (s : Admin.store) :
  Forall2 (fun u u' =>
             u' = u
             \/ (a_privs currentUser = 1 /\ userId = Val (u_id u)
                 /\ same_user u u' /\ In (u_privs u') [1; 5; 7]))
          (users (Admin.base s))
          (users (Admin.base (snd (Admin.elevateUser currentUser userId userPrivs s)))).
Proof.
  destruct (elevateUser_users currentUser userId userPrivs s) as [E|[uid [Hid [Hadm E]]]];
    rewrite E.
  - apply Forall2_same. intros u _. now left.
  - apply Forall2_mapped. intros u _. unfold Admin.set_privs.
    destruct (Z.eqb_spec (u_id u) uid) as [Hu|Hu]; [|now left].
    right. subst uid. repeat split; auto. simpl. apply tier_allowed.
Qed.

(** X23: when an administrator asks for one of the tiers 1, 5 and 7
    for an existing user and the statement is served, the reply is the
    id of that user, who now has exactly that tier. *)
Theorem elevateUser_grants (currentUser : actor) (uid p : Z) (s : Admin.store) (u : user) :
  a_privs currentUser = 1 ->
  uid <> 0 ->
  In p [1; 5; 7] ->
  Admin.breaks s (Admin.sent s) = false ->
  In u (users (Admin.base s)) ->
  u_id u = uid ->
  let run := Admin.elevateUser currentUser (Val uid) (Val p) s in
  fst run = Ok (Id uid)
  /\ forall u', In u' (users (Admin.base (snd run))) -> u_id u' = uid -> u_privs u' = p.
Proof.
  intros Hadm Huid Hp Hserved Hin Hu run. subst run.
  unfold Admin.elevateUser. rewrite (@tier_kept p Hp), Hadm.
  destruct (Z.eqb_spec uid 0) as [|_]; [contradiction|].
  change (negb false && (1 =? 1)) with true. cbv iota.
  unfold Admin.handle, Admin.andThen, Admin.pure.
  rewrite (@ask_served _ s Hserved). simpl. split.
  - assert (F : exists rest, filter (Z.eqb uid) (map u_id (users (Admin.base s))) = uid :: rest).
    { assert (I : In uid (filter (Z.eqb uid) (map u_id (users (Admin.base s))))).
      { apply filter_In. split; [|apply Z.eqb_refl].
        apply in_map_iff. exists u. auto. }
      destruct (filter (Z.eqb uid) (map u_id (users (Admin.base s)))) as [|x rest] eqn:E;
        [destruct I|].
      assert (X : In x (filter (Z.eqb uid) (map u_id (users (Admin.base s))))).
      { rewrite E. now left. }
      apply filter_In in X. destruct X as [_ X]. apply Z.eqb_eq in X. subst x.
      exists rest. reflexivity. }
    destruct F as [rest ->]. reflexivity.
  - intros u' Hu' Hid. apply in_map_iff in Hu'. destruct Hu' as [v [Hv _]].
    subst u'. unfold Admin.set_privs in *.
    destruct (Z.eqb_spec (u_id v) uid) as [E|E]; [reflexivity|contradiction].
Qed.

End Tiers.

Lemma elevateUser_grants_witness :
  let run := Admin.elevateUser root (Val 2) (Val 7) vocabulary_sample in
  fst run = Ok (Id 2)
  /\ forall u', In u' (users (Admin.base (snd run))) -> u_id u' = 2 -> u_privs u' = 7.
Proof.
  apply (@elevateUser_grants root 2 7 vocabulary_sample
           {| u_id := 2; u_username := "ed"; u_privs := 5; u_activated := true |}).
  - reflexivity.
  - lia.
  - simpl. auto.
  - reflexivity.
  - simpl. auto.
  - reflexivity.
Defined.

(** ** The vocabulary *)

Section Vocabulary.

Variables (user : actor) (i : Z) (s : Admin.store).

Lemma length_filter_pos {X : Type} (p : X -> bool) (l : list X) (x : X) :
  In x l -> p x = true -> Nat.eqb (List.length (filter p l)) 0 = false.
Proof.
  intros Hin Hp.
  assert (I : In x (filter p l)) by (apply filter_In; auto).
  destruct (filter p l); [destruct I|reflexivity].
Qed.

Lemma length_filter_zero {X : Type} (p : X -> bool) (l : list X) :
  Nat.eqb (List.length (filter p l)) 0 = true -> forall x, In x l -> p x = false.
Proof.
  intros H x Hin. destruct (p x) eqn:E; [|reflexivity].
  rewrite (length_filter_pos p l x Hin E) in H. discriminate.
Qed.

(** X24: a tag that some comment carries is not deleted: the tags stay
    as they were and the reply reports no success, with the number of
    comments that carry the tag (0 if the first statement broke). *)
Theorem deleteTag_guard (c : comment) :
  In c (comments (Admin.base s)) ->
  In i (c_tags c) ->
  let run := Admin.deleteTag user (Val i) s in
  Admin.tags (snd run) = Admin.tags s
  /\ Admin.base (snd run) = Admin.base s
  /\ fst run
     = Ok {| Admin.d_id := Some i;
             Admin.d_comments :=
               if Admin.breaks s (Admin.sent s) then 0%nat
               else List.length (filter (fun c => Sql.any i (c_tags c))
                                        (comments (Admin.base s)));
             Admin.d_success := false |}.
Proof.
  intros Hc Hi run. subst run. unfold Admin.deleteTag, Admin.ask.
  destruct (Admin.breaks s (Admin.sent s)); [simpl; auto|].
  simpl. rewrite length_map.
  rewrite (length_filter_pos (fun c => Sql.any i (c_tags c)) _ c Hc);
    [|apply any_In; exact Hi].
  simpl. auto.
Qed.

(** X25: when [deleteTag] reports success, no comment carried the tag,
    exactly the tags with that id are gone, and the tables are
    untouched. *)
Theorem deleteTag_success (d : Admin.deletion) (s' : Admin.store) :
  Admin.deleteTag user (Val i) s = (Ok d, s') ->
  Admin.d_success d = true ->
  (forall c, In c (comments (Admin.base s)) -> ~ In i (c_tags c))
  /\ (exists t, In t (Admin.tags s) /\ Admin.tag_id t = i)
  /\ Admin.tags s' = filter (fun t => negb (Admin.tag_id t =? i)) (Admin.tags s)
  /\ ~ In i (map Admin.tag_id (Admin.tags s'))
  /\ Admin.base s' = Admin.base s.
Proof.
  unfold Admin.deleteTag, Admin.ask.
  destruct (Admin.breaks s (Admin.sent s));
    [simpl; intros H; inversion H; subst; simpl; discriminate|].
  simpl. rewrite length_map.
  destruct (Nat.eqb (List.length (filter (fun c => Sql.any i (c_tags c))
                                         (comments (Admin.base s)))) 0) eqn:N;
    [|intros H; inversion H; subst; simpl; discriminate].
  destruct (Admin.breaks s (S (Admin.sent s)));
    [intros H; inversion H; subst; simpl; discriminate|].
  simpl. intros H. inversion H; subst. clear H. simpl. intros Hone.
  repeat split.
  - intros c Hc Hi. apply any_In in Hi.
    rewrite (length_filter_zero _ _ N c Hc) in Hi. discriminate.
  - destruct (filter (fun t => Admin.tag_id t =? i) (Admin.tags s)) as [|t rest] eqn:E;
      [discriminate|].
    assert (I : In t (filter (fun t => Admin.tag_id t =? i) (Admin.tags s))).
    { rewrite E. now left. }
    apply filter_In in I. destruct I as [I1 I2]. apply Z.eqb_eq in I2.
    exists t. auto.
  - intros Hin. apply in_map_iff in Hin. destruct Hin as [t [Ht Hin]].
    apply filter_In in Hin. destruct Hin as [_ Hin].
    rewrite Ht, Z.eqb_refl in Hin. discriminate.
Qed.

(** X26: an issue that is the first element of a row of the issues of
    some comment is not deleted. *)
Theorem deleteIssue_guard (c : comment) (rest : list Z) :
  In c (comments (Admin.base s)) ->
  In (i :: rest) (c_issues c) ->
  let run := Admin.deleteIssue user (Val i) s in
  Admin.issues (snd run) = Admin.issues s
  /\ Admin.base (snd run) = Admin.base s
  /\ fst run
     = Ok {| Admin.d_id := Some i;
             Admin.d_comments :=
               if Admin.breaks s (Admin.sent s) then 0%nat
               else List.length (filter (fun c => Admin.has_issue i (c_issues c))
                                        (comments (Admin.base s)));
             Admin.d_success := false |}.
Proof.
  intros Hc Hi run. subst run. unfold Admin.deleteIssue, Admin.ask.
  destruct (Admin.breaks s (Admin.sent s)); [simpl; auto|].
  simpl. rewrite length_map.
  rewrite (length_filter_pos (fun c => Admin.has_issue i (c_issues c)) _ c Hc).
  - simpl. auto.
  - unfold Admin.has_issue. apply existsb_exists. exists (i :: rest).
    split; [exact Hi|apply Z.eqb_refl].
Qed.

End Vocabulary.

Lemma deleteTag_guard_witness :
  let run := Admin.deleteTag root (Val 1) vocabulary_sample in
  Admin.tags (snd run) = Admin.tags vocabulary_sample
  /\ Admin.base (snd run) = Admin.base vocabulary_sample
  /\ fst run = Ok {| Admin.d_id := Some 1; Admin.d_comments := 1; Admin.d_success := false |}.
Proof.
  apply (@deleteTag_guard root 1 vocabulary_sample
           {| c_id := 3; c_text_id := 1; c_title := "Intro"; c_published := Some true;
              c_priority := Some 1; c_tags := [1; 2]; c_issues := [[4; 1]];
              c_entry := None |}).
  - simpl. auto.
  - simpl. auto.
Defined.

Lemma deleteTag_success_witness :
  (forall c, In c (comments annotated_sample) -> ~ In 3 (c_tags c))
  /\ (exists t, In t (Admin.tags vocabulary_sample) /\ Admin.tag_id t = 3)
  /\ Admin.tags (snd (Admin.deleteTag root (Val 3) vocabulary_sample))
     = filter (fun t => negb (Admin.tag_id t =? 3)) (Admin.tags vocabulary_sample)
  /\ ~ In 3 (map Admin.tag_id (Admin.tags (snd (Admin.deleteTag root (Val 3) vocabulary_sample))))
  /\ Admin.base (snd (Admin.deleteTag root (Val 3) vocabulary_sample)) = annotated_sample.
Proof.
  apply (@deleteTag_success root 3 vocabulary_sample
           {| Admin.d_id := Some 3; Admin.d_comments := 0; Admin.d_success := true |}
           (snd (Admin.deleteTag root (Val 3) vocabulary_sample))).
  - reflexivity.
  - reflexivity.
Defined.

Lemma deleteIssue_guard_witness :
  let run := Admin.deleteIssue root (Val 4) vocabulary_sample in
  Admin.issues (snd run) = Admin.issues vocabulary_sample
  /\ Admin.base (snd run) = Admin.base vocabulary_sample
  /\ fst run = Ok {| Admin.d_id := Some 4; Admin.d_comments := 1; Admin.d_success := false |}.
Proof.
  apply (@deleteIssue_guard root 4 vocabulary_sample
           {| c_id := 3; c_text_id := 1; c_title := "Intro"; c_published := Some true;
              c_priority := Some 1; c_tags := [1; 2]; c_issues := [[4; 1]];
              c_entry := None |} [1]).
  - simpl. auto.
  - simpl. auto.
Defined.

(** ** Bindings read back *)

Section BoundStrings.

(** X27: [setCommentsForToken] replaces the comments of the string it
    names by the list it is given, whatever they were, and leaves every
    other string as it was; a reply with an id tells that the string
    exists. *)
Theorem setCommentsForToken_overwrites (user : actor) (tokenId : Z) (cs : list Z)
  (s s' : Admin.store) (i : Z) :
  Admin.setCommentsForToken user {| Admin.tp_id := Val tokenId; Admin.tp_comments := Val cs |} s
  = (Ok (Id i), s') ->
  i = tokenId
  /\ Forall2 (fun r r' =>
                if st_id r =? tokenId
                then r' = Sql.set_string_comments (fun _ => cs) r
                else r' = r)
             (strings (Admin.base s)) (strings (Admin.base s'))
  /\ exists r', In r' (strings (Admin.base s')) /\ st_id r' = tokenId /\ st_comments r' = cs.
Proof.
  unfold Admin.setCommentsForToken. simpl.
  destruct (negb (tokenId =? 0)); [|discriminate].
  unfold Admin.handle, Admin.andThen, Admin.pure.
  destruct (Admin.ask (Admin.SetStringComments tokenId cs) s) as [[r|e] s1] eqn:Q;
    [|discriminate].
  apply ask_ok in Q. destruct Q as [_ Q]. simpl in Q. inversion Q; subst. clear Q.
  intros H. inversion H as [F]. clear H.
  destruct (filter (Z.eqb tokenId) (map st_id (strings (Admin.base s)))) as [|x rest] eqn:E;
    [discriminate|].
  simpl in F. inversion F; subst. clear F.
  assert (I : In i (filter (Z.eqb tokenId) (map st_id (strings (Admin.base s))))).
  { rewrite E. now left. }
  apply filter_In in I. destruct I as [I1 I2]. apply Z.eqb_eq in I2. subst i.
  split; [reflexivity|]. simpl. split.
  - unfold Sql.update_comments_where. apply Forall2_mapped. intros r _.
    unfold Sql.any. simpl. rewrite orb_false_r. destruct (st_id r =? tokenId); reflexivity.
  - apply in_map_iff in I1. destruct I1 as [r [Hr Hin]].
    exists (Sql.set_string_comments (fun _ => cs) r). repeat split; [|exact Hr].
    unfold Sql.update_comments_where. apply in_map_iff. exists r. split; [|exact Hin].
    unfold Sql.any. simpl. rewrite Hr, Z.eqb_refl. reflexivity.
Qed.

Lemma rebind_holds (cid : Z) (a : list Z) : Sql.any cid (rebind cid a) = true.
Proof.
  apply any_In. unfold rebind, Sql.array_append. apply in_or_app. right. now left.
Qed.

(** X28: after [setCommentForString] has bound a comment, every listed
    string that belongs to a text is among the strings that
    [getBoundStringsForComment] returns for that text and comment. *)
Theorem getBoundStringsForComment_after_binding (user : actor) (params : binding_params)
  (cid : Z) (ids rws : list Z) (w w' : world) (s : Admin.store) (text : Z) (r : string_row) :
  binding_request params cid ids ->
  setCommentForString user params w = (Ok (Bound rws), w') ->
  Admin.base s = view w' ->
  Admin.breaks s (Admin.sent s) = false ->
  text <> 0 ->
  In r (strings (view w)) ->
  In (st_id r) ids ->
  st_text_id r = Some text ->
  exists found,
    fst (Admin.getBoundStringsForComment
           {| Admin.bp_id := Val text; Admin.bp_comment := Val cid |} s) = Ok found
    /\ In (Sql.set_string_comments (rebind cid) r) (map fst found).
Proof.
  intros Hreq Hrun Hbase Hserved Htext Hr Hid Htxt.
  pose proof (@setCommentForString_view user params cid ids Hreq rws w w' Hrun) as V.
  unfold Admin.getBoundStringsForComment. simpl.
  destruct (Z.eqb_spec text 0) as [|_]; [contradiction|]. simpl.
  unfold Admin.handle, Admin.andThen, Admin.pure.
  rewrite (@ask_served _ s Hserved). simpl.
  eexists. split; [reflexivity|].
  rewrite map_map. simpl. rewrite map_id.
  eapply Permutation_in.
  - apply Admin.StringSort.Permuted_sort.
  - apply filter_In. split.
    + rewrite Hbase, V. simpl. unfold Sql.update_comments_where.
      apply in_map_iff. exists r. split; [|exact Hr].
      apply any_In in Hid. rewrite Hid. reflexivity.
    + simpl. rewrite Htxt, Z.eqb_refl. simpl. apply rebind_holds.
Qed.

(** X29: of the ids given to [getStringsRange] only the first and the
    last count, and the strings returned are strings of the store whose
    ids lie between the two. *)
Theorem getStringsRange_ends (a b : Z) (mid : list Z) (s : Admin.store) :
  Admin.getStringsRange (Val (a :: mid ++ [b])) s = Admin.getStringsRange (Val [a; b]) s
  /\ exists found,
       fst (Admin.getStringsRange (Val (a :: mid ++ [b])) s) = Ok found
       /\ Forall (fun row => In (fst row) (strings (Admin.base s))
                             /\ a <= st_id (fst row) <= b) found.
Proof.
  assert (E : Admin.getStringsRange (Val (a :: mid ++ [b])) s
              = Admin.getStringsRange (Val [a; b]) s).
  { unfold Admin.getStringsRange. rewrite last_last.
    destruct mid; reflexivity. }
  split; [exact E|]. rewrite E. clear E.
  unfold Admin.getStringsRange, Admin.handle, Admin.andThen, Admin.pure, Admin.ask. simpl.
  destruct (Admin.breaks s (Admin.sent s)); simpl.
  - exists []. split; [reflexivity|constructor].
  - eexists. split; [reflexivity|].
    apply Forall_forall. intros row Hrow.
    apply in_map_iff in Hrow. destruct Hrow as [r [<- Hr]]. simpl.
    apply filter_In in Hr. destruct Hr as [Hin Hr].
    apply andb_prop in Hr. destruct Hr as [H1 H2].
    apply Z.leb_le in H1. apply Z.leb_le in H2. auto.
Qed.

End BoundStrings.

Lemma setCommentsForToken_overwrites_witness :
  2 = 2
  /\ Forall2 (fun r r' =>
                if st_id r =? 2
                then r' = Sql.set_string_comments (fun _ => [5; 3]) r
                else r' = r)
             (strings (Admin.base vocabulary_sample))
             (strings (Admin.base
                (snd (Admin.setCommentsForToken root
                        {| Admin.tp_id := Val 2; Admin.tp_comments := Val [5; 3] |}
                        vocabulary_sample))))
  /\ exists r',
       In r' (strings (Admin.base
                (snd (Admin.setCommentsForToken root
                        {| Admin.tp_id := Val 2; Admin.tp_comments := Val [5; 3] |}
                        vocabulary_sample))))
       /\ st_id r' = 2 /\ st_comments r' = [5; 3].
Proof.
  apply (@setCommentsForToken_overwrites root 2 [5; 3] vocabulary_sample
           (snd (Admin.setCommentsForToken root
                   {| Admin.tp_id := Val 2; Admin.tp_comments := Val [5; 3] |}
                   vocabulary_sample)) 2).
  reflexivity.
Defined.

Lemma getBoundStringsForComment_after_binding_witness :
  exists found,
    fst (Admin.getBoundStringsForComment
           {| Admin.bp_id := Val 1; Admin.bp_comment := Val 7 |}
           (store_on (view (snd (setCommentForString root binding_sample
                                   world_strings_sample))))) = Ok found
    /\ In (Sql.set_string_comments (rebind 7)
             {| st_id := 2; st_text_id := Some 1; st_p := Some 1; st_s := Some 1;
                st_line := None; st_form := Some "cat"; st_repr := Some "cat"; st_fmt := [];
                st_token_id := None; st_unit_id := None; st_comments := [] |})
          (map fst found).
Proof.
  apply (@getBoundStringsForComment_after_binding root binding_sample 7 [1; 2]
           [1; 2] world_strings_sample
           (snd (setCommentForString root binding_sample world_strings_sample))).
  - unfold binding_request. simpl. repeat split; [lia|discriminate].
  - vm_compute. reflexivity.
  - reflexivity.
  - reflexivity.
  - lia.
  - simpl. auto.
  - simpl. auto.
  - reflexivity.
Defined.

(** ** The comments of a text *)

Section Listing.

Lemma comment_leb_trans : Transitive (fun a b => is_true (Admin.comment_leb a b)).
Proof.
  intros a b c. unfold is_true, Admin.comment_leb.
  destruct (c_priority a) as [x|], (c_priority b) as [y|], (c_priority c) as [z|];
    try discriminate; auto;
    rewrite ?orb_true_iff, ?andb_true_iff, ?Z.ltb_lt, ?Z.eqb_eq, ?Z.leb_le; lia.
Qed.

Lemma is_bound_spec (i : Z) (rs : list string_row) :
  Admin.is_bound i rs = true <-> exists r, In r rs /\ In i (st_comments r).
Proof.
  unfold Admin.is_bound. rewrite existsb_exists.
  split; intros [r [Hr H]]; exists r; split; trivial; now apply any_In.
Qed.

(** X30: when the statement is served, [getComments] lists each
    comment of the text once, those without priority first and then
    by falling priority, later ids first among equals, and flags a
    comment as bound exactly when some string holds its id. *)
Theorem getComments_lines (t : Z) (s : Admin.store) :
  Admin.breaks s (Admin.sent s) = false ->
  exists cs,
    fst (Admin.getComments (Val t) s) = Ok (map (Admin.line_of (strings (Admin.base s))) cs)
    /\ Permutation cs (filter (fun c => c_text_id c =? t) (comments (Admin.base s)))
    /\ StronglySorted (fun a b => is_true (Admin.comment_leb a b)) cs
    /\ Forall (fun l => Admin.cl_bound l = true
                        <-> exists r, In r (strings (Admin.base s))
                                      /\ In (Admin.cl_id l) (st_comments r))
              (map (Admin.line_of (strings (Admin.base s))) cs).
Proof.
  intros Hserved.
  exists (Admin.CommentSort.sort (filter (fun c => c_text_id c =? t) (comments (Admin.base s)))).
  repeat split.
  - unfold Admin.getComments, Admin.handle, Admin.andThen, Admin.pure.
    rewrite (@ask_served _ s Hserved). reflexivity.
  - apply Permutation_sym. apply Admin.CommentSort.Permuted_sort.
  - apply Admin.CommentSort.StronglySorted_sort. exact comment_leb_trans.
  - apply Forall_forall. intros l Hl. apply in_map_iff in Hl.
    destruct Hl as [c [<- _]]. simpl. apply is_bound_spec.
Qed.

End Listing.

Lemma getComments_lines_witness :
  exists cs,
    fst (Admin.getComments (Val 1) vocabulary_sample)
    = Ok (map (Admin.line_of (strings (Admin.base vocabulary_sample))) cs)
    /\ Permutation cs (filter (fun c => c_text_id c =? 1)
                              (comments (Admin.base vocabulary_sample)))
    /\ StronglySorted (fun a b => is_true (Admin.comment_leb a b)) cs
    /\ Forall (fun l => Admin.cl_bound l = true
                        <-> exists r, In r (strings (Admin.base vocabulary_sample))
                                      /\ In (Admin.cl_id l) (st_comments r))
              (map (Admin.line_of (strings (Admin.base vocabulary_sample))) cs).
Proof.
  apply (@getComments_lines 1 vocabulary_sample). reflexivity.
Defined.
